(** * interactive_horse_race/tcp_server.c: the bounded TCP connection manager

    A shallow embedding of the server of [tcp_server.c] (the registry of
    connected clients, the accept, read, disconnect, respond and broadcast
    paths) together with the properties of its registry and of the order of
    its effects.

    The program runs on one thread inside a libuv loop.  Every callback is
    embedded as a computation over an explicit [world]: the server object,
    the heap of [luv_client_t] blocks, the read buffers handed out by
    [alloc_cb], and the trace of the effects issued so far (log lines, calls
    into libuv, calls of the application hooks).

    The start ([main], [luv_server_start]) and the teardown
    ([luv_server_destroy] and the completion callbacks) are embedded over a
    [process]: the world together with the log of the calls that act on the
    loop. *)

From Stdlib Require Import ZArith String Ascii List Lia.
From stdpp Require Import base numbers option list gmap.

Local Open Scope Z_scope.

(** ** Machine integers and pointers *)

(** A pointer is an address in [Z]; the null pointer is address [0]. *)
Definition NULL : Z := 0.

Definition INT_MAX : Z := 2147483647.
Definition INT_MIN : Z := -2147483648.

(** An [int] is 32 bits wide; arithmetic on it wraps around. *)
Definition int_wrap (z : Z) : Z := (z + 2 ^ 31) mod 2 ^ 32 - 2 ^ 31.

(** Conversion to [unsigned int], the type of the length taken by
    [uv_buf_init]. *)
Definition uint_wrap (z : Z) : Z := z mod 2 ^ 32.

(** [#define MAX_CLIENTS 5] *)
Definition MAX_CLIENTS : Z := 5.

(** libuv's end-of-file code. *)
Definition UV_EOF : Z := -4095.

(** A [const char*] text is represented by the characters before its
    terminator, so [strlen] is the length of the string. *)
Definition strlen (s : string) : Z := Z.of_nat (String.length s).

(** ** Data model *)

(** [luv_client_t]; the leading [uv_tcp_t connection] is the transport
    handle itself and shares the address of the record. *)
Record luv_client_t : Type := Client {
  client_id : Z;
  client_slot : Z;
  client_server : Z
}.

(** [luv_client_msg_t] *)
Record luv_client_msg_t : Type := Msg {
  msg_buf : Z;
  msg_len : Z;
  msg_client : Z
}.

(** [uv_buf_t] of a read: the base address and the size. *)
Record uv_buf_t : Type := Buf {
  base : Z;
  len : Z
}.

(** What a hook of the application may ask of the server: print a line, or
    call [luv_server_broadcast], the entry point the server exports to it,
    on the server of the record it was handed ([client->server]). *)
Inductive log_arg : Type :=
| arg_int (z : Z)
| arg_str (s : string).

Inductive app_call : Type :=
| app_log (fmt : string) (args : list log_arg)
| app_broadcast (msg : string).

(** The message hook may in addition call the responder it was handed. *)
Inductive msg_call : Type :=
| msg_app (a : app_call)
| msg_respond (response : string).

(** [luv_onclient_connected] and [luv_onclient_disconnected]: the hook sees
    the record it is handed (address and fields) and the total. *)
Definition conn_hook : Type := Z -> luv_client_t -> Z -> list app_call.

(** [luv_onclient_msg]: the hook sees the message, the bytes of its buffer
    and the record of the sender. *)
Definition msg_hook : Type :=
  luv_client_msg_t -> string -> luv_client_t -> list msg_call.

(** [struct luv_server_s]; the leading [uv_tcp_t tcp] is the listening
    handle and shares the address of the server. *)
Record luv_server_t : Type := Server {
  host : string;
  port : Z;
  clients : list Z;
  num_clients : Z;
  ids : Z;
  onclient_connected : conn_hook;
  onclient_disconnected : conn_hook;
  onclient_msg : msg_hook
}.

(** ** Effects *)

Inductive log_level : Type := Info | Warn | Error.

Inductive event : Type :=
| Log (lvl : log_level) (fmt : string) (args : list log_arg)
| Check_failed (msg : string) (r : Z)
| Free (p : Z)
| Uv_tcp_init (h : Z) (r : Z)
| Uv_ip4_addr (r : Z)
| Uv_tcp_bind (h : Z) (r : Z)
| Uv_accept (h : Z) (r : Z)
| Uv_read_start (h : Z) (r : Z)
| Uv_write (h : Z) (text : string) (n : Z) (r : Z)
| Uv_shutdown (h : Z) (r : Z)
| Hook_connected (c : Z) (total : Z)
| Hook_disconnected (c : Z) (total : Z)
| Hook_msg (m : luv_client_msg_t).


(** What libuv answers to the calls one callback makes. *)
Record substrate : Type := Substrate {
  r_tcp_init : Z;
  r_ip4_addr : Z;
  r_tcp_bind : Z;
  r_accept : Z;
  r_read_start : Z;
  r_shutdown : Z;
  r_write : Z -> Z
}.

Record world : Type := World {
  srv_ptr : Z;
  srv : luv_server_t;
  heap : gmap Z luv_client_t;
  bufs : gmap Z string;
  trace : list event
}.

(** How a callback ends: it returns, the process is ended from inside it,
    or it runs into behaviour C leaves undefined (a wild pointer, an index
    outside an array, the release of a block that is not allocated). *)
Inductive result (A : Type) : Type :=
| Done (a : A) (w : world)
| Exited (w : world)
| Undefined.

Arguments Done {A} a w.
Arguments Exited {A} w.
Arguments Undefined {A}.

Definition M (A : Type) : Type := world -> result A.

Definition ret {A : Type} (a : A) : M A := fun w => Done a w.

Definition bind {A B : Type} (c : M A) (k : A -> M B) : M B :=
  fun w =>
    match c w with
    | Done a w' => k a w'
    | Exited w' => Exited w'
    | Undefined => Undefined
    end.

Declare Scope cb_scope.
Delimit Scope cb_scope with cb.
Notation "'do' x <- c ; k" := (bind c (fun x => k))
  (at level 10, x name, c at level 100, k at level 200) : cb_scope.
Notation "c >> k" := (bind c (fun _ => k))
  (at level 61, left associativity) : cb_scope.

Local Open Scope cb_scope.

Definition exit {A : Type} : M A := fun w => Exited w.

Definition set_srv (s : luv_server_t) (w : world) : world :=
  World (srv_ptr w) s (heap w) (bufs w) (trace w).
Definition set_heap (h : gmap Z luv_client_t) (w : world) : world :=
  World (srv_ptr w) (srv w) h (bufs w) (trace w).
Definition set_bufs (b : gmap Z string) (w : world) : world :=
  World (srv_ptr w) (srv w) (heap w) b (trace w).
Definition set_trace (t : list event) (w : world) : world :=
  World (srv_ptr w) (srv w) (heap w) (bufs w) t.

Definition emit (e : event) : M unit :=
  fun w => Done tt (set_trace (trace w ++ [e]) w).

Definition log_info (fmt : string) (args : list log_arg) : M unit :=
  emit (Log Info fmt args).
Definition log_warn (fmt : string) (args : list log_arg) : M unit :=
  emit (Log Warn fmt args).
Definition log_error (fmt : string) (args : list log_arg) : M unit :=
  emit (Log Error fmt args).

(** *** Memory *)

(** Reading a [luv_client_t] through a pointer. *)
Definition load_client (p : Z) : M luv_client_t :=
  fun w =>
    match heap w !! p with
    | Some c => Done c w
    | None => Undefined
    end.

Definition store_client (p : Z) (c : luv_client_t) : M unit :=
  fun w =>
    match heap w !! p with
    | Some _ => Done tt (set_heap (<[p := c]> (heap w)) w)
    | None => Undefined
    end.

(** Reading and writing the server through a pointer; a pointer that is not
    the server's is wild. *)
Definition load_server (p : Z) : M luv_server_t :=
  fun w => if decide (p = srv_ptr w) then Done (srv w) w else Undefined.

Definition store_server (p : Z) (s : luv_server_t) : M unit :=
  fun w => if decide (p = srv_ptr w) then Done tt (set_srv s w) else Undefined.

(** [malloc(sizeof(luv_client_t))]: the allocator hands out the block [blk],
    which is not in use, with the fields [junk] left over in it; [NULL]
    when it fails. *)
Definition malloc_client (blk : Z) (junk : luv_client_t) : M Z :=
  fun w =>
    if decide (blk = NULL) then Done blk w
    else Done blk (set_heap (<[blk := junk]> (heap w)) w).

(** [free] of a read buffer; [free(NULL)] does nothing. *)
Definition free (p : Z) : M unit :=
  fun w =>
    if decide (p = NULL) then Done tt (set_trace (trace w ++ [Free p]) w)
    else
      match bufs w !! p with
      | Some _ =>
          Done tt (set_trace (trace w ++ [Free p])
                     (set_bufs (delete p (bufs w)) w))
      | None => Undefined
      end.

(** [server->clients[i]], an array of [MAX_CLIENTS] pointers. *)
Definition array_get (a : list Z) (i : Z) : M Z :=
  fun w =>
    if decide (0 <= i < MAX_CLIENTS) then
      match a !! Z.to_nat i with
      | Some p => Done p w
      | None => Undefined
      end
    else Undefined.

Definition array_set (a : list Z) (i : Z) (p : Z) : M (list Z) :=
  fun w =>
    if decide (0 <= i < MAX_CLIENTS) then
      if decide (Z.to_nat i < length a)%nat
      then Done (<[Z.to_nat i := p]> a) w
      else Undefined
    else Undefined.

Definition with_clients (a : list Z) (s : luv_server_t) : luv_server_t :=
  Server (host s) (port s) a (num_clients s) (ids s)
    (onclient_connected s) (onclient_disconnected s) (onclient_msg s).
Definition with_num_clients (n : Z) (s : luv_server_t) : luv_server_t :=
  Server (host s) (port s) (clients s) n (ids s)
    (onclient_connected s) (onclient_disconnected s) (onclient_msg s).
Definition with_ids (n : Z) (s : luv_server_t) : luv_server_t :=
  Server (host s) (port s) (clients s) (num_clients s) n
    (onclient_connected s) (onclient_disconnected s) (onclient_msg s).

Definition with_slot (n : Z) (c : luv_client_t) : luv_client_t :=
  Client (client_id c) n (client_server c).
Definition with_server (p : Z) (c : luv_client_t) : luv_client_t :=
  Client (client_id c) (client_slot c) p.
Definition with_id (n : Z) (c : luv_client_t) : luv_client_t :=
  Client n (client_slot c) (client_server c).

(** [uv_buf_init(base, len)] followed by [uv_write]: the text and the
    number of bytes of it handed to the transport. *)
Definition uv_write (uv : substrate) (h : Z) (text : string) (n : Z) : M Z :=
  emit (Uv_write h text (uint_wrap n) (r_write uv h)) >> ret (r_write uv h).

(** ** The server *)

Section Tcp_server.

(** Whether [CHECK] ends the process on the nonzero result [r] of the call
    labelled [msg]. *)
Variable CHECK_exits : Z -> string -> bool.

(** Modelled from the spec: the macro [CHECK] of [learnuv.h], which is not
    among the sources.  The spec has the failures it is applied to logged
    (a read error) or fatal (bind, listen): [CHECK r msg] passes a zero
    result, as the test on the result of [uv_accept] at line 111 does,
    reports a nonzero one, and then ends the process or returns as
    [CHECK_exits] says. *)
Definition CHECK (r : Z) (msg : string) : M unit :=
  if decide (r = 0) then ret tt
  else emit (Check_failed msg r) >>
       (if CHECK_exits r msg then exit else ret tt).

(** [luv_server_broadcast], lines 172-189.  The [n] iterations left of the
    loop, from index [i] on. *)
Fixpoint broadcast_loop (uv : substrate) (self : Z) (msg : string)
    (len : Z) (i : Z) (n : nat) : M unit :=
  match n with
  | O => ret tt
  | S n' =>
      do s <- load_server self;
      do client <- array_get (clients s) i;
      (if decide (client = NULL) then
         log_warn "Client %d was not properly initialized, cannot send message to it."
           [arg_int i]
       else
         do r <- uv_write uv client msg len;
         CHECK r "uv_write") >>
      broadcast_loop uv self msg len (int_wrap (i + 1)) n'
  end.

Definition luv_server_broadcast (uv : substrate) (self : Z) (msg : string)
    : M unit :=
  let len := int_wrap (strlen msg) in
  do s <- load_server self;
  broadcast_loop uv self msg len 0 (Z.to_nat (num_clients s)).

(** Running what a hook asked for; [self] is the [server] field of the
    record the hook was handed. *)
Definition run_app_call (uv : substrate) (self : Z) (a : app_call)
    : M unit :=
  match a with
  | app_log fmt args => log_info fmt args
  | app_broadcast msg => luv_server_broadcast uv self msg
  end.

Fixpoint run_app (uv : substrate) (self : Z) (l : list app_call) : M unit :=
  match l with
  | [] => ret tt
  | a :: l' => run_app_call uv self a >> run_app uv self l'
  end.

(** [server->onclient_connected(client, total)] and
    [server->onclient_disconnected(client, total)]. *)
Definition call_connected (uv : substrate) (s : luv_server_t) (client : Z)
    (total : Z) : M unit :=
  do c <- load_client client;
  emit (Hook_connected client total) >>
  run_app uv (client_server c) (onclient_connected s client c total).

Definition call_disconnected (uv : substrate) (s : luv_server_t)
    (client : Z) (total : Z) : M unit :=
  do c <- load_client client;
  emit (Hook_disconnected client total) >>
  run_app uv (client_server c) (onclient_disconnected s client c total).

(** [disconnect], lines 70-89. *)
Definition disconnect (uv : substrate) (client : Z) : M unit :=
  do c <- load_client client;
  let server := client_server c in
  do s <- load_server server;
  let last_slot := int_wrap (num_clients s - 1) in
  (if decide (client_slot c < last_slot) then
     do last <- array_get (clients s) last_slot;
     do a <- array_set (clients s) (client_slot c) last;
     store_server server (with_clients a s) >>
     do moved <- array_get a (client_slot c);
     do m <- load_client moved;
     do c' <- load_client client;
     store_client moved (with_slot (client_slot c') m)
   else ret tt) >>
  do s <- load_server server;
  store_server server (with_num_clients (int_wrap (num_clients s - 1)) s) >>
  do s <- load_server server;
  call_disconnected uv s client (num_clients s) >>
  emit (Uv_shutdown client (r_shutdown uv)) >>
  CHECK (r_shutdown uv) "uv_shutdown".

(** [onconnection], lines 91-128.  The listening handle [tcp] is the server
    itself; [blk] and [junk] are the block [malloc] hands out for the new
    record and what it holds. *)
Definition onconnection (uv : substrate) (tcp : Z) (status : Z)
    (blk : Z) (junk : luv_client_t) : M unit :=
  CHECK status "onconnection" >>
  let server := tcp in
  log_info "Accepting Connection" [] >>
  do s <- load_server server;
  if decide (num_clients s = MAX_CLIENTS) then
    log_info "exceeded allowed number of clients" []
  else
    do client <- malloc_client blk junk;
    emit (Uv_tcp_init client (r_tcp_init uv)) >>
    CHECK (r_tcp_init uv) "uv_tcp_init" >>
    emit (Uv_accept client (r_accept uv)) >>
    if decide (r_accept uv <> 0) then
      log_error "trying to accept connection %d" [arg_int (r_accept uv)] >>
      disconnect uv client
    else
      do s <- load_server server;
      do a <- array_set (clients s) (num_clients s) client;
      store_server server (with_clients a s) >>
      do c <- load_client client;
      store_client client (with_server server c) >>
      do s <- load_server server;
      do c <- load_client client;
      store_client client (with_slot (num_clients s) c) >>
      do s <- load_server server;
      do c <- load_client client;
      store_client client (with_id (ids s) c) >>
      store_server server (with_ids (int_wrap (ids s + 1)) s) >>
      do s <- load_server server;
      store_server server (with_num_clients (int_wrap (num_clients s + 1)) s) >>
      do s <- load_server server;
      call_connected uv s client (num_clients s) >>
      emit (Uv_read_start client (r_read_start uv)) >>
      CHECK (r_read_start uv) "uv_read_start".

(** [alloc_cb], lines 130-134; [p] is what [malloc(size)] returns and
    [junk] the bytes found in the block. *)
Definition alloc_cb (size : Z) (p : Z) (junk : string) : M uv_buf_t :=
  (fun w => if decide (p = NULL) then Done tt w
            else Done tt (set_bufs (<[p := junk]> (bufs w)) w)) >>
  (if decide (p = NULL)
   then log_error "alloc_cb buffer didn't properly initialize" []
   else ret tt) >>
  ret (Buf p size).

(** [onclient_msg_processed], lines 161-170: the responder. *)
Definition onclient_msg_processed (uv : substrate) (msg : luv_client_msg_t)
    (response : string) : M unit :=
  let len := int_wrap (strlen response) in
  do r <- uv_write uv (msg_client msg) response len;
  free (msg_buf msg).

Definition run_msg_call (uv : substrate) (self : Z)
    (msg : luv_client_msg_t) (a : msg_call) : M unit :=
  match a with
  | msg_app a => run_app_call uv self a
  | msg_respond response => onclient_msg_processed uv msg response
  end.

Fixpoint run_msg (uv : substrate) (self : Z) (msg : luv_client_msg_t)
    (l : list msg_call) : M unit :=
  match l with
  | [] => ret tt
  | a :: l' => run_msg_call uv self msg a >> run_msg uv self msg l'
  end.

(** [server->onclient_msg(msg, onclient_msg_processed)]. *)
Definition call_msg (uv : substrate) (s : luv_server_t)
    (msg : luv_client_msg_t) : M unit :=
  do c <- load_client (msg_client msg);
  do bytes <- (fun w => Done (default EmptyString (bufs w !! msg_buf msg)) w);
  emit (Hook_msg msg) >>
  run_msg uv (client_server c) msg (onclient_msg s msg bytes c).

(** [read_cb], lines 136-159. *)
Definition read_cb (uv : substrate) (stream : Z) (nread : Z)
    (buf : uv_buf_t) : M unit :=
  let client := stream in
  do c <- load_client client;
  let server := client_server c in
  if decide (nread < 0) then
    (if decide (nread <> UV_EOF) then CHECK nread "read_cb" else ret tt) >>
    free (base buf) >>
    disconnect uv client
  else if decide (nread = 0) then
    free (base buf)
  else
    let msg := Msg (base buf) nread client in
    do s <- load_server server;
    call_msg uv s msg.

(** [luv_server_create], lines 211-241.  [self] is the block [malloc]
    hands out for the server; the function sets [host], [port],
    [num_clients] and the three hooks, so [clients] and [ids] keep what the
    block held: [junk_clients] and [junk_ids]. *)
Definition array_of (l : list Z) : list Z :=
  take (Z.to_nat MAX_CLIENTS) (l ++ replicate (Z.to_nat MAX_CLIENTS) NULL).

Definition luv_server_create (uv : substrate) (self : Z)
    (junk_clients : list Z) (junk_ids : Z) (host : string) (port : Z)
    (onclient_connected onclient_disconnected : conn_hook)
    (onclient_msg : msg_hook) : result Z :=
  (emit (Uv_tcp_init self (r_tcp_init uv)) >>
   CHECK (r_tcp_init uv) "uv_tcp_init" >>
   emit (Uv_ip4_addr (r_ip4_addr uv)) >>
   CHECK (r_ip4_addr uv) "uv_ip4_addr" >>
   emit (Uv_tcp_bind self (r_tcp_bind uv)) >>
   CHECK (r_tcp_bind uv) "uv_tcp_bind" >>
   ret self)
    (World self
       (Server host port (array_of junk_clients) 0 junk_ids
          onclient_connected onclient_disconnected onclient_msg)
       ∅ ∅ []).

End Tcp_server.

(** The application of the file, lines 243-263. *)
Module App.

Definition HOST : string := "0.0.0.0".
Definition PORT : Z := 7000.

Definition onclient_connected : conn_hook :=
  fun client c total_connections =>
    [app_log "New player, %d total now." [arg_int total_connections];
     app_broadcast "Welcome player
"].

Definition onclient_disconnected : conn_hook :=
  fun client c total_connections =>
    [app_log "Player %d quit, %d total now."
       [arg_int (client_id c); arg_int total_connections];
     app_broadcast "Player quit :(
"].

Definition onclient_msg : msg_hook :=
  fun msg bytes c =>
    [msg_app (app_log "Got message %s from client %d"
                [arg_str bytes; arg_int (client_id c)]);
     msg_respond "RaceTrack: WRONG"].

End App.

(** ** The start and the teardown of the server *)

(** [free] of the block of a [luv_client_t]; [free(NULL)] does nothing. *)
Definition free_client (p : Z) : M unit :=
  fun w =>
    if decide (p = NULL) then Done tt (set_trace (trace w ++ [Free p]) w)
    else
      match heap w !! p with
      | Some _ =>
          Done tt (set_trace (trace w ++ [Free p])
                     (set_heap (delete p (heap w)) w))
      | None => Undefined
      end.

(** [close_cb], lines 48-51.  The handles closed with it are those of the
    requests of [uv_shutdown] (lines 54 and 59): records of connections. *)
Definition close_cb (client : Z) : M unit :=
  free_client client >> log_info "Closed connection" [].

(** The calls into libuv that act on the loop or on a handle as a whole.
    They are logged together with the effects of the callbacks, in order.
    [Uv_close h cb]: [cb] tells whether [close_cb] is to be called once the
    handle is closed (the other value passed in the file is [NULL]). *)
Inductive loop_event : Type :=
| Effect (e : event)
| Uv_listen (h : Z) (backlog : Z) (r : Z)
| Uv_close (h : Z) (cb : bool)
| Uv_run.

(** The process: the world of the callbacks and the log of what has been
    done, the effects of the callbacks included. *)
Record process : Type := Process {
  mem : world;
  done_so_far : list loop_event
}.

(** How a computation of the process ends, as a [result] does. *)
Inductive loop_result (A : Type) : Type :=
| LDone (a : A) (l : process)
| LExited (l : process)
| LUndefined.

Arguments LDone {A} a l.
Arguments LExited {A} l.
Arguments LUndefined {A}.

(** Computations of the process. *)
Definition L (A : Type) : Type := process -> loop_result A.

Definition lret {A : Type} (a : A) : L A := fun l => LDone a l.

Definition lbind {A B : Type} (c : L A) (k : A -> L B) : L B :=
  fun l =>
    match c l with
    | LDone a l' => k a l'
    | LExited l' => LExited l'
    | LUndefined => LUndefined
    end.

Declare Scope loop_scope.
Delimit Scope loop_scope with loop.
Notation "'do' x <- c ; k" := (lbind c (fun x => k))
  (at level 10, x name, c at level 100, k at level 200) : loop_scope.
Notation "c >> k" := (lbind c (fun _ => k))
  (at level 61, left associativity) : loop_scope.

(** The events a computation has added to the trace of [w]. *)
Definition added (w w' : world) : list loop_event :=
  map Effect (drop (length (trace w)) (trace w')).

(** A computation of the callbacks run inside the process: what it adds to
    the trace goes to the log, and the trace of the world is left as it
    was. *)
Definition lift {A : Type} (c : M A) : L A :=
  fun l =>
    let w := mem l in
    match c w with
    | Done a w' =>
        LDone a (Process (set_trace (trace w) w')
                   (done_so_far l ++ added w w'))
    | Exited w' =>
        LExited (Process (set_trace (trace w) w')
                   (done_so_far l ++ added w w'))
    | Undefined => LUndefined
    end.

(** A call into libuv that acts on the loop. *)
Definition log_call (e : loop_event) : L unit :=
  fun l => LDone tt (Process (mem l) (done_so_far l ++ [e])).

(** [uv_close(handle, close_cb)] and [uv_close(handle, NULL)]. *)
Definition uv_close (h : Z) (cb : bool) : L unit := log_call (Uv_close h cb).

(** [free] of the block of a request.  The blocks of the requests
    ([uv_write_t], [uv_shutdown_t]) are allocated one per call and handed
    to libuv, which hands each back to its callback; they are no part of
    the world, and the release of one is logged. *)
Definition free_req (req : Z) : L unit := lift (emit (Free req)).

Section Lifecycle.

Variable CHECK_exits : Z -> string -> bool.

(** The backlog [SOMAXCONN] of the system headers. *)
Variable SOMAXCONN : Z.

(** [shutdown_cb], lines 53-56; [handle] is [req->handle], the handle the
    shutdown was requested for. *)
Definition shutdown_cb (req : Z) (handle : Z) (status : Z) : L unit :=
  (uv_close handle true >> free_req req)%loop.

(** [client_shutdown_cb], lines 58-62. *)
Definition client_shutdown_cb (req : Z) (handle : Z) (status : Z) : L unit :=
  (uv_close handle true >> free_req req)%loop.

(** [luv_server_destroy], lines 191-203.  The [n] iterations left of the
    loop, from index [i] on; [shutdown h] is what [uv_shutdown] answers for
    the handle [h].  As in [disconnect], the request of each call is
    allocated and handed to libuv with the call. *)
Fixpoint destroy_loop (shutdown : Z -> Z) (self : Z) (i : Z) (n : nat)
    : L unit :=
  match n with
  | O => lret tt
  | S n' =>
      (do s <- lift (load_server self);
       do client <- lift (array_get (clients s) i);
       lift (emit (Uv_shutdown client (shutdown client))) >>
       lift (CHECK CHECK_exits (shutdown client) "uv_shutdown") >>
       destroy_loop shutdown self (int_wrap (i + 1)) n')%loop
  end.

Definition luv_server_destroy (shutdown : Z -> Z) (self : Z) : L unit :=
  (do s <- lift (load_server self);
   destroy_loop shutdown self 0 (Z.to_nat (num_clients s)) >>
   uv_close self false)%loop.



End Lifecycle.

(** * Properties *)

(** ** Worlds that differ by their trace *)

Definition extends (w : world) (evs : list event) : world :=
  set_trace (trace w ++ evs) w.

(** The end of a computation that only adds [evs] to the trace of [w] and
    either returns or ends the process. *)
Definition finish (x : bool * list event) (w : world) : result unit :=
  if x.1 then Exited (extends w x.2) else Done tt (extends w x.2).

(** The world a result carries. *)
Definition world_of {A : Type} (r : result A) : option world :=
  match r with
  | Done _ w => Some w
  | Exited w => Some w
  | Undefined => None
  end.

(** The live part of the array: [clients[0..num_clients)]. *)
Definition registry (w : world) : list Z :=
  take (Z.to_nat (num_clients (srv w))) (clients (srv w)).

(** The handles written to, in order. *)
Definition writes_of (evs : list event) : list Z :=
  omap (fun e => match e with Uv_write h _ _ _ => Some h | _ => None end) evs.

(** The indices warned about, in order. *)
Definition warnings_of (evs : list event) : list Z :=
  omap (fun e => match e with
                 | Log Warn _ [arg_int i] => Some i
                 | _ => None
                 end) evs.

(** Events a hook can cause: log lines, writes, reports of [CHECK]. *)
Definition app_event (e : event) : Prop :=
  match e with
  | Log _ _ _ | Check_failed _ _ | Uv_write _ _ _ _ => True
  | _ => False
  end.

(** Fields of an updated world. *)
Lemma heap_set_srv s w : heap (set_srv s w) = heap w.
Proof. reflexivity. Qed.
Lemma heap_set_heap h w : heap (set_heap h w) = h.
Proof. reflexivity. Qed.
Lemma heap_set_bufs b w : heap (set_bufs b w) = heap w.
Proof. reflexivity. Qed.
Lemma heap_set_trace t w : heap (set_trace t w) = heap w.
Proof. reflexivity. Qed.
Lemma heap_extends w evs : heap (extends w evs) = heap w.
Proof. reflexivity. Qed.
Lemma srv_set_srv s w : srv (set_srv s w) = s.
Proof. reflexivity. Qed.
Lemma srv_set_heap h w : srv (set_heap h w) = srv w.
Proof. reflexivity. Qed.
Lemma srv_set_bufs b w : srv (set_bufs b w) = srv w.
Proof. reflexivity. Qed.
Lemma srv_set_trace t w : srv (set_trace t w) = srv w.
Proof. reflexivity. Qed.
Lemma srv_extends w evs : srv (extends w evs) = srv w.
Proof. reflexivity. Qed.
Lemma srv_ptr_set_srv s w : srv_ptr (set_srv s w) = srv_ptr w.
Proof. reflexivity. Qed.
Lemma srv_ptr_set_heap h w : srv_ptr (set_heap h w) = srv_ptr w.
Proof. reflexivity. Qed.
Lemma srv_ptr_set_bufs b w : srv_ptr (set_bufs b w) = srv_ptr w.
Proof. reflexivity. Qed.
Lemma srv_ptr_set_trace t w : srv_ptr (set_trace t w) = srv_ptr w.
Proof. reflexivity. Qed.
Lemma srv_ptr_extends w evs : srv_ptr (extends w evs) = srv_ptr w.
Proof. reflexivity. Qed.
Lemma bufs_set_srv s w : bufs (set_srv s w) = bufs w.
Proof. reflexivity. Qed.
Lemma bufs_set_heap h w : bufs (set_heap h w) = bufs w.
Proof. reflexivity. Qed.
Lemma bufs_set_bufs b w : bufs (set_bufs b w) = b.
Proof. reflexivity. Qed.
Lemma bufs_extends w evs : bufs (extends w evs) = bufs w.
Proof. reflexivity. Qed.
Lemma trace_set_srv s w : trace (set_srv s w) = trace w.
Proof. reflexivity. Qed.
Lemma trace_set_heap h w : trace (set_heap h w) = trace w.
Proof. reflexivity. Qed.
Lemma trace_set_bufs b w : trace (set_bufs b w) = trace w.
Proof. reflexivity. Qed.
Lemma trace_extends w evs : trace (extends w evs) = trace w ++ evs.
Proof. reflexivity. Qed.
Lemma registry_extends w evs : registry (extends w evs) = registry w.
Proof. reflexivity. Qed.
Lemma registry_set_heap h w : registry (set_heap h w) = registry w.
Proof. reflexivity. Qed.

Create Rewrite HintDb world.
#[local] Hint Rewrite heap_set_srv heap_set_heap heap_set_bufs heap_set_trace
  heap_extends srv_set_srv srv_set_heap srv_set_bufs srv_set_trace
  srv_extends srv_ptr_set_srv srv_ptr_set_heap srv_ptr_set_bufs
  srv_ptr_set_trace srv_ptr_extends bufs_set_srv bufs_set_heap bufs_set_bufs
  bufs_extends trace_set_srv trace_set_heap trace_set_bufs trace_extends
  registry_extends registry_set_heap : world.

Lemma extends_nil w : extends w [] = w.
Proof. destruct w. unfold extends, set_trace. simpl. by rewrite app_nil_r. Qed.

Lemma extends_extends w a b : extends (extends w a) b = extends w (a ++ b).
Proof. unfold extends, set_trace. simpl. by rewrite app_assoc. Qed.

Lemma int_wrap_small z : INT_MIN <= z <= INT_MAX -> int_wrap z = z.
Proof.
  unfold int_wrap, INT_MIN, INT_MAX. intros H.
  rewrite Z.mod_small; lia.
Qed.

Lemma writes_of_app a b : writes_of (a ++ b) = writes_of a ++ writes_of b.
Proof. unfold writes_of. apply omap_app. Qed.

Section Broadcast.

Variable CHECK_exits : Z -> string -> bool.
Variable uv : substrate.

(** What one pass of the loop of [luv_server_broadcast] over the entries [l]
    (the first of them at index [i]) adds to the trace, and whether [CHECK]
    ends the process on the way. *)
Fixpoint loop_run (msg : string) (len : Z) (i : Z) (l : list Z)
    : bool * list event :=
  match l with
  | [] => (false, [])
  | client :: l' =>
      let rest := loop_run msg len (i + 1) l' in
      if decide (client = NULL) then
        (rest.1,
         Log Warn "Client %d was not properly initialized, cannot send message to it."
           [arg_int i] :: rest.2)
      else
        let r := r_write uv client in
        let wr := Uv_write client msg (uint_wrap len) r in
        if decide (r = 0) then (rest.1, wr :: rest.2)
        else if CHECK_exits r "uv_write"
             then (true, [wr; Check_failed "uv_write" r])
             else (rest.1, wr :: Check_failed "uv_write" r :: rest.2)
  end.

Lemma CHECK_run r msg w :
  CHECK CHECK_exits r msg w =
  finish (if decide (r = 0) then (false, [])
          else (CHECK_exits r msg, [Check_failed msg r])) w.
Proof.
  unfold CHECK, finish. case_decide; simpl.
  - by rewrite extends_nil.
  - unfold bind, emit. simpl. by destruct (CHECK_exits r msg).
Qed.

Lemma broadcast_loop_run self msg len n : forall i w,
  self = srv_ptr w ->
  length (clients (srv w)) = Z.to_nat MAX_CLIENTS ->
  0 <= i -> i + Z.of_nat n <= MAX_CLIENTS ->
  broadcast_loop CHECK_exits uv self msg len i n w =
  finish (loop_run msg len i (take n (drop (Z.to_nat i) (clients (srv w))))) w.
Proof.
  induction n as [|n IH]; intros i w Hself Hlen Hi Hn.
  - simpl. unfold finish, ret. simpl. by rewrite extends_nil.
  - unfold MAX_CLIENTS in *.
    destruct (lookup_lt_is_Some_2 (clients (srv w)) (Z.to_nat i)) as [c Hc];
      [lia|].
    rewrite (drop_S _ _ _ Hc). simpl take. simpl loop_run.
    assert (Hnext : Z.to_nat (i + 1) = S (Z.to_nat i)) by lia.
    assert (Hwrap : int_wrap (i + 1) = i + 1)
      by (apply int_wrap_small; unfold INT_MIN, INT_MAX; lia).
    simpl broadcast_loop. unfold bind at 1. unfold load_server at 1.
    rewrite decide_True by done.
    unfold bind at 1. unfold array_get at 1.
    rewrite decide_True by (unfold MAX_CLIENTS; lia). rewrite Hc.
    rewrite Hwrap. unfold bind at 1.
    case_decide as Hnull.
    + unfold log_warn, emit.
      change (set_trace _ w) with (extends w [Log Warn
        "Client %d was not properly initialized, cannot send message to it."
        [arg_int i]]).
      rewrite (IH (i + 1)); [|done|done|lia|lia]. simpl srv. rewrite Hnext.
      unfold finish. simpl. rewrite !extends_extends. done.
    + unfold bind at 1. unfold uv_write, bind at 1, emit, ret.
      set (r := r_write uv c).
      change (set_trace _ w) with
        (extends w [Uv_write c msg (uint_wrap len) r]).
      rewrite CHECK_run. unfold finish at 1.
      case_decide as Hr; simpl.
      * rewrite extends_nil.
        rewrite (IH (i + 1)); [|done|done|lia|lia]. simpl srv. rewrite Hnext.
        unfold finish. simpl. rewrite !extends_extends. done.
      * destruct (CHECK_exits r "uv_write") eqn:Hx; simpl.
        -- unfold finish. simpl. by rewrite extends_extends.
        -- rewrite extends_extends.
           rewrite (IH (i + 1)); [|done|done|lia|lia]. simpl srv. rewrite Hnext.
           unfold finish. simpl. rewrite !extends_extends. done.
Qed.

(** [luv_server_broadcast] on a server whose count is within the array. *)
Lemma luv_server_broadcast_run msg w :
  length (clients (srv w)) = Z.to_nat MAX_CLIENTS ->
  num_clients (srv w) <= MAX_CLIENTS ->
  luv_server_broadcast CHECK_exits uv (srv_ptr w) msg w =
  finish (loop_run msg (int_wrap (strlen msg)) 0 (registry w)) w.
Proof.
  intros Hlen Hn. unfold luv_server_broadcast, bind, load_server.
  rewrite decide_True by done.
  rewrite broadcast_loop_run; [|done|done|lia|unfold MAX_CLIENTS in *; lia].
  simpl. unfold registry. by rewrite drop_0.
Qed.

Lemma loop_run_app_event msg len l : forall i,
  Forall app_event (loop_run msg len i l).2.
Proof.
  induction l as [|c l IH]; intros i; simpl; [constructor|].
  repeat case_decide; simpl; try destruct (CHECK_exits _ _); simpl;
    repeat constructor; apply IH.
Qed.

Lemma loop_run_writes msg len l : forall i,
  writes_of (loop_run msg len i l).2 `prefix_of`
  filter (fun c => c <> NULL) l.
Proof.
  induction l as [|c l IH]; intros i; simpl; [done|].
  rewrite filter_cons.
  repeat case_decide; simpl; try destruct (CHECK_exits _ _); simpl;
    try done;
    first [ apply IH | apply prefix_cons, IH | apply prefix_cons, prefix_nil ].
Qed.

End Broadcast.

(** ** Stepping through a computation *)

Lemma bind_done {A B : Type} (c : M A) (k : A -> M B) w a w' :
  c w = Done a w' -> bind c k w = k a w'.
Proof. intros H. unfold bind. by rewrite H. Qed.

Lemma load_server_done p w :
  p = srv_ptr w -> load_server p w = Done (srv w) w.
Proof. intros ->. unfold load_server. by rewrite decide_True. Qed.

Lemma store_server_done p s w :
  p = srv_ptr w -> store_server p s w = Done tt (set_srv s w).
Proof. intros ->. unfold store_server. by rewrite decide_True. Qed.

Lemma load_client_done p c w :
  heap w !! p = Some c -> load_client p w = Done c w.
Proof. intros H. unfold load_client. by rewrite H. Qed.

Lemma store_client_done p c c0 w :
  heap w !! p = Some c0 ->
  store_client p c w = Done tt (set_heap (<[p := c]> (heap w)) w).
Proof. intros H. unfold store_client. by rewrite H. Qed.

Lemma array_set_done a i p w :
  0 <= i < MAX_CLIENTS -> (Z.to_nat i < length a)%nat ->
  array_set a i p w = Done (<[Z.to_nat i := p]> a) w.
Proof.
  intros Hi Hp. unfold array_set. by rewrite !decide_True by done.
Qed.

(** One step of a computation: the load or the store at its head, on the
    server or on a record that has just been written. *)
Ltac step_server :=
  first [ by apply load_server_done | by apply store_server_done ].

Ltac step_client :=
  first [ apply load_client_done | eapply store_client_done ];
  autorewrite with world; first [ eassumption | apply lookup_insert_eq ].

Ltac step := erewrite bind_done by first [ step_server | step_client ].

(** ** Sequencing of trace-only computations *)

Definition seq_run (a b : bool * list event) : bool * list event :=
  if a.1 then a else (b.1, a.2 ++ b.2).

Lemma finish_seq (c : M unit) (k : M unit) a b w :
  c w = finish a w ->
  (a.1 = false -> k (extends w a.2) = finish b (extends w a.2)) ->
  (c >> k) w = finish (seq_run a b) w.
Proof.
  intros Hc Hk. unfold bind. rewrite Hc. unfold finish, seq_run.
  destruct a as [[] ea]; simpl in *; [done|].
  rewrite Hk by done. unfold finish. rewrite !extends_extends.
  by destruct b as [[] eb].
Qed.

Lemma seq_run_events_Forall (P : event -> Prop) a b :
  Forall P a.2 -> Forall P b.2 -> Forall P (seq_run a b).2.
Proof.
  intros Ha Hb. unfold seq_run. destruct a as [[] ea]; simpl in *; [done|].
  by apply Forall_app.
Qed.

Lemma seq_run_writes a b h :
  h ∈ writes_of (seq_run a b).2 -> h ∈ writes_of a.2 \/ h ∈ writes_of b.2.
Proof.
  unfold seq_run. destruct a as [[] ea]; simpl; [by left|].
  rewrite writes_of_app, elem_of_app. tauto.
Qed.

(** Running [a] from [w], then [k] unless the process has ended. *)
Definition then_run (a : bool * list event) (w : world)
    (k : world -> result unit) : result unit :=
  if a.1 then Exited (extends w a.2) else k (extends w a.2).

Lemma then_run_bind (c : M unit) (k : unit -> M unit) a w :
  c w = finish a w -> bind c k w = then_run a w (k tt).
Proof.
  intros Hc. unfold bind, then_run. rewrite Hc. unfold finish.
  by destruct a as [[] ea].
Qed.

Lemma then_run_seq a b w k :
  then_run (seq_run a b) w k =
  then_run a w (fun w1 => then_run b w1 k).
Proof.
  unfold then_run, seq_run. destruct a as [[] ea]; simpl; [done|].
  rewrite !extends_extends. by destruct b as [[] eb].
Qed.

Lemma then_run_ext a w k k' :
  (a.1 = false -> k (extends w a.2) = k' (extends w a.2)) ->
  then_run a w k = then_run a w k'.
Proof. unfold then_run. destruct a as [[] ea]; simpl; auto. Qed.

Lemma then_run_finish a b w :
  then_run a w (finish b) = finish (seq_run a b) w.
Proof.
  unfold then_run, finish, seq_run. destruct a as [[] ea]; simpl; [done|].
  rewrite !extends_extends. by destruct b as [[] eb].
Qed.

Section Hooks.

Variable CHECK_exits : Z -> string -> bool.
Variable uv : substrate.

Definition check_run (r : Z) (msg : string) : bool * list event :=
  if decide (r = 0) then (false, [])
  else (CHECK_exits r msg, [Check_failed msg r]).

Lemma emit_run e w : emit e w = finish (false, [e]) w.
Proof. reflexivity. Qed.

Lemma CHECK_check_run r msg w :
  CHECK CHECK_exits r msg w = finish (check_run r msg) w.
Proof. apply CHECK_run. Qed.

(** What the calls [l] of a hook add to the trace when the live part of the
    array is [reg]. *)
Definition app_call_run (reg : list Z) (a : app_call) : bool * list event :=
  match a with
  | app_log fmt args => (false, [Log Info fmt args])
  | app_broadcast msg =>
      loop_run CHECK_exits uv msg (int_wrap (strlen msg)) 0 reg
  end.

Fixpoint app_run (reg : list Z) (l : list app_call) : bool * list event :=
  match l with
  | [] => (false, [])
  | a :: l' => seq_run (app_call_run reg a) (app_run reg l')
  end.

Lemma run_app_call_run a w :
  length (clients (srv w)) = Z.to_nat MAX_CLIENTS ->
  num_clients (srv w) <= MAX_CLIENTS ->
  run_app_call CHECK_exits uv (srv_ptr w) a w =
  finish (app_call_run (registry w) a) w.
Proof.
  intros Hlen Hn. destruct a as [fmt args|msg]; simpl.
  - reflexivity.
  - by apply luv_server_broadcast_run.
Qed.

Lemma run_app_run l : forall w,
  length (clients (srv w)) = Z.to_nat MAX_CLIENTS ->
  num_clients (srv w) <= MAX_CLIENTS ->
  run_app CHECK_exits uv (srv_ptr w) l w = finish (app_run (registry w) l) w.
Proof.
  induction l as [|a l IH]; intros w Hlen Hn; simpl.
  - unfold finish, ret. simpl. by rewrite extends_nil.
  - apply finish_seq.
    + by apply run_app_call_run.
    + intros _. by apply (IH (extends w _)).
Qed.

Lemma app_run_app_event reg l : Forall app_event (app_run reg l).2.
Proof.
  induction l as [|a l IH]; simpl; [constructor|].
  apply seq_run_events_Forall; [|done].
  destruct a; simpl; [by repeat constructor|apply loop_run_app_event].
Qed.

Lemma app_run_writes reg l h :
  h ∈ writes_of (app_run reg l).2 -> h ∈ reg /\ h <> NULL.
Proof.
  induction l as [|a l IH]; simpl; [by intros ?%elem_of_nil|].
  intros [Ha|Hl]%seq_run_writes; [|by apply IH].
  destruct a as [fmt args|msg]; simpl in Ha; [by apply elem_of_nil in Ha|].
  eapply elem_of_prefix in Ha; [|apply loop_run_writes].
  apply list_elem_of_filter in Ha. tauto.
Qed.

(** The process ends inside a callback only where [CHECK] ends it. *)
Definition may_exit : Prop :=
  exists r msg, r <> 0 /\ CHECK_exits r msg = true.

Lemma check_run_exit r msg : (check_run r msg).1 = true -> may_exit.
Proof.
  unfold check_run. case_decide as Hr; simpl; [done|].
  intros Hx. by exists r, msg.
Qed.

Lemma seq_run_exit a b :
  (seq_run a b).1 = true -> a.1 = true \/ b.1 = true.
Proof. unfold seq_run. destruct a as [[] ea]; simpl; auto. Qed.

Lemma loop_run_exit msg len l : forall i,
  (loop_run CHECK_exits uv msg len i l).1 = true -> may_exit.
Proof.
  induction l as [|c l IH]; intros i; simpl; [done|].
  repeat case_decide; simpl; try apply IH.
  destruct (CHECK_exits (r_write uv c) "uv_write") eqn:Hx; simpl;
    [|apply IH].
  intros _. by exists (r_write uv c), "uv_write"%string.
Qed.

Lemma app_run_exit reg l : (app_run reg l).1 = true -> may_exit.
Proof.
  induction l as [|a l IH]; simpl; [done|].
  intros [Ha|Hl]%seq_run_exit; [|by apply IH].
  destruct a; simpl in Ha; [done|]. by eapply loop_run_exit.
Qed.

End Hooks.

(** Whether [CHECK] ends the process on the result [r] of the call
    labelled [msg]. *)
Definition fatal (CHECK_exits : Z -> string -> bool) (r : Z) (msg : string)
    : bool :=
  negb (bool_decide (r = 0)) && CHECK_exits r msg.

(** ** The registry *)

(** The registry is well formed: the array has [MAX_CLIENTS] entries, the
    count is within it, and every entry of the live part points to a record
    of this server that stores its own index. *)
Record registry_ok (w : world) : Prop := Registry_ok {
  ok_length : length (clients (srv w)) = Z.to_nat MAX_CLIENTS;
  ok_count : 0 <= num_clients (srv w) <= MAX_CLIENTS;
  ok_null : heap w !! NULL = None;
  ok_slot : forall (i : nat) (a : Z),
    registry w !! i = Some a ->
    exists c, heap w !! a = Some c /\
              client_slot c = Z.of_nat i /\
              client_server c = srv_ptr w
}.

(** The registry after the removal of [client], in the words of the
    contract of the registry: if the record is not at the last live index,
    the record at the last live index moves to its place and has its [slot]
    updated; the count goes down by one. *)
Definition unregister (client : Z) (w : world) : world :=
  match heap w !! client with
  | None => w
  | Some c =>
      let s := srv w in
      let last_slot := num_clients s - 1 in
      if decide (client_slot c < last_slot) then
        match clients s !! Z.to_nat last_slot with
        | None => w
        | Some last =>
            match heap w !! last with
            | None => w
            | Some m =>
                set_heap (<[last := with_slot (client_slot c) m]> (heap w))
                  (set_srv
                     (with_num_clients last_slot
                        (with_clients
                           (<[Z.to_nat (client_slot c) := last]> (clients s))
                           s))
                     w)
            end
        end
      else set_srv (with_num_clients last_slot s) w
  end.

Lemma registry_lookup w (i : nat) a :
  registry w !! i = Some a <->
  (Z.of_nat i < num_clients (srv w) /\ clients (srv w) !! i = Some a).
Proof.
  unfold registry. rewrite lookup_take_Some. split; intros [H1 H2]; split;
    try done; lia.
Qed.

Lemma registry_ok_distinct w i j a :
  registry_ok w -> registry w !! i = Some a -> registry w !! j = Some a ->
  i = j.
Proof.
  intros Hok Hi Hj.
  destruct (ok_slot w Hok i a Hi) as (c & Hc & Hs & _).
  destruct (ok_slot w Hok j a Hj) as (c' & Hc' & Hs' & _).
  rewrite Hc in Hc'. injection Hc' as <-. lia.
Qed.

Lemma registry_ok_NoDup w : registry_ok w -> NoDup (registry w).
Proof.
  intros Hok. apply NoDup_alt. intros i j a. by apply registry_ok_distinct.
Qed.

(** The two cases of a removal. *)
Lemma unregister_inner w client (i : nat) :
  registry_ok w -> registry w !! i = Some client ->
  Z.of_nat i < num_clients (srv w) - 1 ->
  exists last m,
    registry w !! Z.to_nat (num_clients (srv w) - 1) = Some last /\
    heap w !! last = Some m /\ last <> client /\
    unregister client w =
    set_heap (<[last := with_slot (Z.of_nat i) m]> (heap w))
      (set_srv
         (with_num_clients (num_clients (srv w) - 1)
            (with_clients (<[i := last]> (clients (srv w))) (srv w)))
         w).
Proof.
  intros Hok Hi Hlt.
  destruct (ok_slot w Hok i client Hi) as (c & Hc & Hslot & Hsrv).
  pose proof (ok_count w Hok) as Hcount. pose proof (ok_length w Hok) as Hlen.
  unfold MAX_CLIENTS in *.
  destruct (lookup_lt_is_Some_2 (clients (srv w))
              (Z.to_nat (num_clients (srv w) - 1))) as [last Hlast]; [lia|].
  assert (Hrl : registry w !! Z.to_nat (num_clients (srv w) - 1) = Some last)
    by (apply registry_lookup; split; [lia|done]).
  destruct (ok_slot w Hok _ _ Hrl) as (m & Hm & Hmslot & Hmsrv).
  exists last, m. split_and!; try done.
  - intros ->. rewrite Hc in Hm. injection Hm as <-. lia.
  - unfold unregister. rewrite Hc. simpl.
    rewrite decide_True by lia. rewrite Hlast, Hm, Hslot.
    by rewrite Nat2Z.id.
Qed.

Lemma unregister_last w client (i : nat) :
  registry_ok w -> registry w !! i = Some client ->
  Z.of_nat i = num_clients (srv w) - 1 ->
  unregister client w =
  set_srv (with_num_clients (num_clients (srv w) - 1) (srv w)) w.
Proof.
  intros Hok Hi Hlt.
  destruct (ok_slot w Hok i client Hi) as (c & Hc & Hslot & Hsrv).
  unfold unregister. rewrite Hc. simpl. by rewrite decide_False by lia.
Qed.

Lemma unregister_num_clients w client i :
  registry_ok w -> registry w !! i = Some client ->
  num_clients (srv (unregister client w)) = num_clients (srv w) - 1.
Proof.
  intros Hok Hi. pose proof Hi as Hi'.
  apply registry_lookup in Hi' as [Hin _].
  destruct (decide (Z.of_nat i < num_clients (srv w) - 1)) as [Hlt|Hge].
  - destruct (unregister_inner w client i Hok Hi Hlt)
      as (last & m & _ & _ & _ & ->). done.
  - rewrite (unregister_last w client i) by (done || lia). done.
Qed.

(** The entries of the registry after a removal. *)
Lemma unregister_registry_lookup w client i (j : nat) a :
  registry_ok w -> registry w !! i = Some client ->
  registry (unregister client w) !! j = Some a <->
  (Z.of_nat j < num_clients (srv w) - 1 /\
   if decide (j = i)
   then registry w !! Z.to_nat (num_clients (srv w) - 1) = Some a
   else registry w !! j = Some a).
Proof.
  intros Hok Hi. pose proof Hi as Hi'.
  apply registry_lookup in Hi' as [Hin Hci].
  pose proof (ok_count w Hok) as Hcount. pose proof (ok_length w Hok) as Hlen.
  unfold MAX_CLIENTS in *.
  destruct (decide (Z.of_nat i < num_clients (srv w) - 1)) as [Hlt|Hge].
  - destruct (unregister_inner w client i Hok Hi Hlt)
      as (last & m & Hrl & Hm & Hne & ->).
    rewrite registry_lookup. simpl.
    case_decide as Hji.
    + subst j. rewrite list_lookup_insert_eq by lia. rewrite Hrl.
      split; intros [? ?]; split; congruence.
    + rewrite list_lookup_insert_ne by done. rewrite registry_lookup.
      split; intros [? ?]; split_and!; (done || lia || tauto).
  - rewrite (unregister_last w client i) by (done || lia).
    rewrite registry_lookup. simpl.
    split; intros [Hj Ha]; split; try done.
    + rewrite decide_False by lia. apply registry_lookup. split; [lia|done].
    + case_decide; [lia|]. by apply registry_lookup in Ha as [_ Ha].
Qed.

Lemma unregister_heap_other w client i a :
  registry_ok w -> registry w !! i = Some client ->
  registry w !! Z.to_nat (num_clients (srv w) - 1) <> Some a ->
  heap (unregister client w) !! a = heap w !! a.
Proof.
  intros Hok Hi Ha.
  destruct (decide (Z.of_nat i < num_clients (srv w) - 1)) as [Hlt|Hge].
  - destruct (unregister_inner w client i Hok Hi Hlt)
      as (last & m & Hrl & Hm & Hne & ->).
    simpl. rewrite lookup_insert_ne; [done|]. intros ->. by rewrite Hrl in Ha.
  - apply registry_lookup in Hi as Hi'. destruct Hi' as [Hin _].
    rewrite (unregister_last w client i) by (done || lia). done.
Qed.

(** A removal changes no field of a record but [slot]. *)
Lemma unregister_heap_fields w client i a c' :
  registry_ok w -> registry w !! i = Some client ->
  heap (unregister client w) !! a = Some c' ->
  exists c, heap w !! a = Some c /\ client_id c' = client_id c /\
            client_server c' = client_server c.
Proof.
  intros Hok Hi Ha.
  destruct (decide (Z.of_nat i < num_clients (srv w) - 1)) as [Hlt|Hge].
  - destruct (unregister_inner w client i Hok Hi Hlt)
      as (last & m & Hrl & Hm & Hne & Heq).
    rewrite Heq in Ha. simpl in Ha.
    destruct (decide (last = a)) as [->|Hla].
    + rewrite lookup_insert_eq in Ha. injection Ha as <-. by exists m.
    + rewrite lookup_insert_ne in Ha by done. by exists c'.
  - apply registry_lookup in Hi as Hi'. destruct Hi' as [Hin _].
    rewrite (unregister_last w client i) in Ha by (done || lia).
    by exists c'.
Qed.

Lemma unregister_heap_dom w client i a :
  registry_ok w -> registry w !! i = Some client ->
  heap (unregister client w) !! a = None <-> heap w !! a = None.
Proof.
  intros Hok Hi.
  destruct (decide (Z.of_nat i < num_clients (srv w) - 1)) as [Hlt|Hge].
  - destruct (unregister_inner w client i Hok Hi Hlt)
      as (last & m & Hrl & Hm & Hne & ->).
    simpl. rewrite lookup_insert_None. split; [tauto|].
    intros Ha. split; [done|]. intros ->. by rewrite Hm in Ha.
  - apply registry_lookup in Hi as Hi'. destruct Hi' as [Hin _].
    rewrite (unregister_last w client i) by (done || lia). done.
Qed.

Lemma unregister_frame w client :
  srv_ptr (unregister client w) = srv_ptr w /\
  bufs (unregister client w) = bufs w /\
  trace (unregister client w) = trace w /\
  ids (srv (unregister client w)) = ids (srv w) /\
  onclient_connected (srv (unregister client w)) =
    onclient_connected (srv w) /\
  onclient_disconnected (srv (unregister client w)) =
    onclient_disconnected (srv w) /\
  onclient_msg (srv (unregister client w)) = onclient_msg (srv w).
Proof.
  unfold unregister. repeat case_match; done.
Qed.

(** A removal keeps the registry well formed. *)
Lemma unregister_ok w client i :
  registry_ok w -> registry w !! i = Some client ->
  registry_ok (unregister client w).
Proof.
  intros Hok Hi. pose proof Hi as Hi'.
  apply registry_lookup in Hi' as [Hin Hci].
  pose proof (ok_count w Hok) as Hcount. pose proof (ok_length w Hok) as Hlen.
  split.
  - destruct (decide (Z.of_nat i < num_clients (srv w) - 1)) as [Hlt|Hge].
    + destruct (unregister_inner w client i Hok Hi Hlt)
        as (last & m & _ & _ & _ & ->). simpl. by rewrite length_insert.
    + rewrite (unregister_last w client i) by (done || lia). done.
  - rewrite (unregister_num_clients w client i) by done. lia.
  - rewrite (unregister_heap_dom w client i) by done. apply Hok.
  - intros j a Hj.
    apply (unregister_registry_lookup w client i) in Hj as [Hjn Hj]; try done.
    destruct (unregister_frame w client) as (-> & _).
    case_decide as Hji.
    + subst j.
      assert (Hlt : Z.of_nat i < num_clients (srv w) - 1) by lia.
      destruct (unregister_inner w client i Hok Hi Hlt)
        as (last & m & Hrl & Hm & Hne & ->).
      rewrite Hrl in Hj. injection Hj as <-. simpl.
      rewrite lookup_insert_eq. eexists. split; [done|]. simpl.
      destruct (ok_slot w Hok _ _ Hrl) as (m' & Hm' & _ & Hs).
      rewrite Hm in Hm'. injection Hm' as <-. done.
    + destruct (ok_slot w Hok j a Hj) as (c & Hc & Hs & Hp).
      exists c. split; [|done].
      rewrite (unregister_heap_other w client i); [done..|].
      intros Hla.
      assert (j = Z.to_nat (num_clients (srv w) - 1))
        by (eapply registry_ok_distinct; done).
      lia.
Qed.

(** After a removal the registry holds the entries it held, but for the
    record removed. *)
Lemma unregister_elem_of w client i a :
  registry_ok w -> registry w !! i = Some client ->
  a ∈ registry (unregister client w) <-> a ∈ registry w /\ a <> client.
Proof.
  intros Hok Hi. pose proof Hi as Hi'.
  apply registry_lookup in Hi' as [Hin Hci].
  rewrite !list_elem_of_lookup. split.
  - intros [j Hj].
    apply (unregister_registry_lookup w client i) in Hj as [Hjn Hj]; try done.
    case_decide as Hji.
    + subst j. split; [eauto|]. intros ->.
      assert (i = Z.to_nat (num_clients (srv w) - 1))
        by (eapply registry_ok_distinct; done).
      lia.
    + split; [eauto|]. intros ->. apply Hji.
      by eapply registry_ok_distinct.
  - intros [[j Hj] Hne].
    destruct (decide (Z.of_nat j = num_clients (srv w) - 1)) as [Hjl|Hjl].
    + exists i. apply (unregister_registry_lookup w client i); try done.
      assert (j <> i) by (intros ->; congruence).
      split; [lia|]. rewrite decide_True by done.
      by replace (Z.to_nat (num_clients (srv w) - 1)) with j by lia.
    + exists j. apply (unregister_registry_lookup w client i); try done.
      apply registry_lookup in Hj as Hj'. destruct Hj' as [Hjn _].
      split; [lia|]. rewrite decide_False; [done|]. intros ->. congruence.
Qed.

Section Disconnect.

Variable CHECK_exits : Z -> string -> bool.
Variable uv : substrate.

(** What the call of the disconnect hook adds to the trace. *)
Definition call_disconnected_run (client : Z) (c : luv_client_t)
    (w1 : world) : bool * list event :=
  seq_run (false, [Hook_disconnected client (num_clients (srv w1))])
    (app_run CHECK_exits uv (registry w1)
       (onclient_disconnected (srv w1) client c (num_clients (srv w1)))).

(** What [disconnect] adds to the trace once the registry is updated:
    the hook, what the hook asks for, the shutdown request. *)
Definition disconnect_run (client : Z) (c : luv_client_t) (w1 : world)
    : bool * list event :=
  seq_run
    (seq_run (call_disconnected_run client c w1)
       (false, [Uv_shutdown client (r_shutdown uv)]))
    (check_run CHECK_exits (r_shutdown uv) "uv_shutdown").

Lemma call_disconnected_eq client c w1 :
  length (clients (srv w1)) = Z.to_nat MAX_CLIENTS ->
  num_clients (srv w1) <= MAX_CLIENTS ->
  heap w1 !! client = Some c ->
  client_server c = srv_ptr w1 ->
  call_disconnected CHECK_exits uv (srv w1) client (num_clients (srv w1)) w1 =
  finish (call_disconnected_run client c w1) w1.
Proof.
  intros Hlen Hn Hc Hs.
  unfold call_disconnected. unfold bind at 1. unfold load_client.
  rewrite Hc, Hs. apply finish_seq; [apply emit_run|].
  intros _. by apply (run_app_run CHECK_exits uv _ (extends w1 _)).
Qed.

Lemma disconnect_tail client c w1 :
  length (clients (srv w1)) = Z.to_nat MAX_CLIENTS ->
  num_clients (srv w1) <= MAX_CLIENTS ->
  heap w1 !! client = Some c ->
  client_server c = srv_ptr w1 ->
  (do s <- load_server (client_server c);
   call_disconnected CHECK_exits uv s client (num_clients s) >>
   emit (Uv_shutdown client (r_shutdown uv)) >>
   CHECK CHECK_exits (r_shutdown uv) "uv_shutdown") w1 =
  finish (disconnect_run client c w1) w1.
Proof.
  intros Hlen Hn Hc Hs.
  unfold bind at 1. unfold load_server. rewrite decide_True by done.
  unfold disconnect_run.
  apply finish_seq; [|intros _; apply CHECK_check_run].
  apply finish_seq; [|intros _; apply emit_run].
  by apply call_disconnected_eq.
Qed.

Lemma disconnect_run_exit client c w1 :
  (disconnect_run client c w1).1 = true -> may_exit CHECK_exits.
Proof.
  unfold disconnect_run, call_disconnected_run.
  intros [[[H|H]%seq_run_exit|H]%seq_run_exit|H]%seq_run_exit;
    try done; eauto using app_run_exit, check_run_exit.
Qed.

Lemma disconnect_eq w client i c :
  registry_ok w -> registry w !! i = Some client ->
  heap w !! client = Some c ->
  disconnect CHECK_exits uv client w =
  finish (disconnect_run client c (unregister client w))
    (unregister client w).
Proof.
  intros Hok Hi Hc.
  destruct (ok_slot w Hok i client Hi) as (c0 & Hc0 & Hslot & Hsrv).
  rewrite Hc in Hc0. injection Hc0 as <-.
  apply registry_lookup in Hi as [Hin Hi].
  pose proof (ok_count w Hok) as Hcount. pose proof (ok_length w Hok) as Hlen.
  unfold MAX_CLIENTS in *.
  unfold disconnect. unfold bind at 1. unfold load_client at 1. rewrite Hc.
  unfold bind at 1. unfold load_server at 1. rewrite decide_True by done.
  rewrite int_wrap_small by (unfold INT_MIN, INT_MAX; lia).
  unfold unregister. rewrite Hc. simpl.
  case_decide as Hlt.
  - destruct (lookup_lt_is_Some_2 (clients (srv w))
                (Z.to_nat (num_clients (srv w) - 1))) as [last Hlast]; [lia|].
    assert (Hrl : registry w !! Z.to_nat (num_clients (srv w) - 1) = Some last)
      by (apply registry_lookup; split; [lia|done]).
    destruct (ok_slot w Hok _ _ Hrl) as (m & Hm & Hmslot & Hmsrv).
    assert (Hne : last <> client).
    { intros ->. rewrite Hc in Hm. injection Hm as <-. lia. }
    rewrite Hlast, Hm.
    set (a := <[Z.to_nat (client_slot c) := last]> (clients (srv w))).
    set (w1 := set_heap (<[last := with_slot (client_slot c) m]> (heap w))
                 (set_srv (with_clients a (srv w)) w)).
    assert (Hb :
      (do last0 <- array_get (clients (srv w)) (num_clients (srv w) - 1);
       do a <- array_set (clients (srv w)) (client_slot c) last0;
       store_server (client_server c) (with_clients a (srv w)) >>
       do moved <- array_get a (client_slot c);
       do m <- load_client moved;
       do c' <- load_client client;
       store_client moved (with_slot (client_slot c') m)) w = Done tt w1).
    { unfold bind, array_get, array_set, store_server, load_client,
        store_client, MAX_CLIENTS.
      rewrite decide_True by lia. rewrite Hlast.
      rewrite decide_True by lia. rewrite decide_True by lia.
      rewrite decide_True by done.
      rewrite decide_True by lia.
      rewrite list_lookup_insert_eq by lia.
      autorewrite with world.
      rewrite Hm. cbv beta iota. autorewrite with world. rewrite Hc.
      cbv beta iota. autorewrite with world. rewrite Hm. done. }
    unfold bind at 1. rewrite Hb.
    unfold bind at 1. unfold load_server at 1.
    rewrite decide_True by done.
    unfold bind at 1. unfold store_server at 1.
    rewrite decide_True by done.
    rewrite int_wrap_small by (unfold INT_MIN, INT_MAX; simpl; lia).
    apply disconnect_tail; simpl.
    + subst a. by rewrite length_insert.
    + unfold MAX_CLIENTS. lia.
    + by rewrite lookup_insert_ne.
    + done.
  - assert (Hb : (@ret unit tt) w = Done tt w) by done.
    unfold bind at 1. rewrite Hb.
    unfold bind at 1. unfold load_server at 1.
    rewrite decide_True by done.
    unfold bind at 1. unfold store_server at 1.
    rewrite decide_True by done.
    rewrite int_wrap_small by (unfold INT_MIN, INT_MAX; simpl; lia).
    apply disconnect_tail; simpl; [done|unfold MAX_CLIENTS; lia|done|done].
Qed.

End Disconnect.

(** ** Insertion *)

(** The registry after the insertion of the record at [blk], in the words of
    the contract of the registry: the record is appended at index
    [num_clients], stores that index, and the count goes up by one; it
    takes the next identity. *)
Definition register (blk : Z) (w : world) : world :=
  let s := srv w in
  set_heap
    (<[blk := Client (ids s) (num_clients s) (srv_ptr w)]> (heap w))
    (set_srv
       (with_num_clients (num_clients s + 1)
          (with_ids (int_wrap (ids s + 1))
             (with_clients (<[Z.to_nat (num_clients s) := blk]> (clients s))
                s)))
       w).

Lemma registry_ok_extends w evs : registry_ok (extends w evs) <-> registry_ok w.
Proof. split; intros [? ? ? ?]; by split. Qed.

(** A block handed out by [malloc] is none of the live records, so the
    registry stays well formed whatever the block holds. *)
Lemma malloc_ok w blk junk :
  registry_ok w -> blk <> NULL -> blk ∉ registry w ->
  registry_ok (set_heap (<[blk := junk]> (heap w)) w).
Proof.
  intros Hok Hblk Hfresh. split; try apply Hok.
  - simpl. rewrite lookup_insert_ne by done. apply Hok.
  - intros i a Hi. change (registry w !! i = Some a) in Hi.
    destruct (ok_slot w Hok i a Hi) as (c & Hc & Hs). exists c.
    split; [|done]. simpl. rewrite lookup_insert_ne; [done|].
    intros ->. apply Hfresh. by eapply list_elem_of_lookup_2.
Qed.

Lemma register_registry w blk :
  length (clients (srv w)) = Z.to_nat MAX_CLIENTS ->
  0 <= num_clients (srv w) < MAX_CLIENTS ->
  registry (register blk w) = registry w ++ [blk].
Proof.
  intros Hlen Hn. unfold registry, register. simpl. unfold MAX_CLIENTS in *.
  replace (Z.to_nat (num_clients (srv w) + 1))
    with (S (Z.to_nat (num_clients (srv w)))) by lia.
  erewrite take_S_r by (apply list_lookup_insert_eq; lia).
  by rewrite take_insert_ge by lia.
Qed.

(** An insertion keeps the registry well formed. *)
Lemma register_ok w blk :
  registry_ok w -> num_clients (srv w) < MAX_CLIENTS ->
  blk <> NULL -> blk ∉ registry w ->
  registry_ok (register blk w).
Proof.
  intros Hok Hn Hblk Hfresh.
  pose proof (ok_count w Hok) as Hcount. pose proof (ok_length w Hok) as Hlen.
  split.
  - unfold register. simpl. by rewrite length_insert.
  - unfold register. simpl. lia.
  - unfold register. simpl. rewrite lookup_insert_ne by done. apply Hok.
  - intros i a. rewrite register_registry by (done || lia).
    intros Hi. apply lookup_app_Some in Hi as [Hi|[Hge Hi]].
    + destruct (ok_slot w Hok i a Hi) as (c & Hc & Hs). exists c.
      split; [|done]. unfold register. simpl.
      rewrite lookup_insert_ne; [done|].
      intros ->. apply Hfresh. by eapply list_elem_of_lookup_2.
    + apply list_lookup_singleton_Some in Hi as [Hi <-].
      unfold register. simpl. rewrite lookup_insert_eq.
      eexists. split; [done|]. simpl. split; [|done].
      unfold registry in *. rewrite length_take in *.
      unfold MAX_CLIENTS in *. lia.
Qed.

Lemma register_heap_other w blk a :
  a <> blk -> heap (register blk w) !! a = heap w !! a.
Proof. intros Hne. unfold register. simpl. by rewrite lookup_insert_ne. Qed.

Lemma register_heap_new w blk :
  heap (register blk w) !! blk =
  Some (Client (ids (srv w)) (num_clients (srv w)) (srv_ptr w)).
Proof. unfold register. simpl. apply lookup_insert_eq. Qed.

(** ** Outcomes *)

(** [outcome Qd Qe r]: the computation does not run into undefined
    behaviour; [Qd] holds of the world it returns in and [Qe] of the world
    the process ends in. *)
Definition outcome {A : Type} (Qd Qe : world -> Prop) (r : result A)
    : Prop :=
  match r with
  | Done _ w => Qd w
  | Exited w => Qe w
  | Undefined => False
  end.

Lemma outcome_finish (Qd Qe : world -> Prop) a w :
  (a.1 = false -> Qd (extends w a.2)) ->
  (a.1 = true -> Qe (extends w a.2)) ->
  outcome Qd Qe (finish a w).
Proof. unfold finish. destruct a as [[] ea]; simpl; auto. Qed.

Lemma outcome_then_run (Qd Qe : world -> Prop) a w k :
  (a.1 = true -> Qe (extends w a.2)) ->
  (a.1 = false -> outcome Qd Qe (k (extends w a.2))) ->
  outcome Qd Qe (then_run a w k).
Proof. unfold then_run. destruct a as [[] ea]; simpl; auto. Qed.

Lemma outcome_weaken {A : Type} (Qd Qe Qd' Qe' : world -> Prop)
    (r : result A) :
  (forall w, Qd w -> Qd' w) -> (forall w, Qe w -> Qe' w) ->
  outcome Qd Qe r -> outcome Qd' Qe' r.
Proof. destruct r; simpl; auto. Qed.

Lemma outcome_bind {A B : Type} (Qd Qe P : world -> Prop)
    (c : M A) (k : A -> M B) w :
  outcome P Qe (c w) ->
  (forall a w', P w' -> outcome Qd Qe (k a w')) ->
  outcome Qd Qe (bind c k w).
Proof. unfold bind. destruct (c w); simpl; auto. Qed.

Section Onconnection.

Variable CHECK_exits : Z -> string -> bool.
Variable uv : substrate.

(** Lines 117-122 of [onconnection]. *)
Lemma onconnection_register w blk junk (k : M unit) :
  length (clients (srv w)) = Z.to_nat MAX_CLIENTS ->
  0 <= num_clients (srv w) < MAX_CLIENTS ->
  heap w !! blk = Some junk ->
  (do s <- load_server (srv_ptr w);
   do a <- array_set (clients s) (num_clients s) blk;
   store_server (srv_ptr w) (with_clients a s) >>
   do c <- load_client blk;
   store_client blk (with_server (srv_ptr w) c) >>
   do s <- load_server (srv_ptr w);
   do c <- load_client blk;
   store_client blk (with_slot (num_clients s) c) >>
   do s <- load_server (srv_ptr w);
   do c <- load_client blk;
   store_client blk (with_id (ids s) c) >>
   store_server (srv_ptr w) (with_ids (int_wrap (ids s + 1)) s) >>
   do s <- load_server (srv_ptr w);
   store_server (srv_ptr w)
     (with_num_clients (int_wrap (num_clients s + 1)) s) >>
   k) w = k (register blk w).
Proof.
  intros Hlen Hn Hb.
  step.
  erewrite bind_done by (apply array_set_done; unfold MAX_CLIENTS in *; lia).
  step.
  erewrite bind_done by (apply load_client_done; apply Hb).
  erewrite bind_done by (eapply store_client_done; apply Hb).
  do 5 step.
  erewrite bind_done by (step; by apply store_server_done).
  do 2 step.
  f_equal. unfold register. autorewrite with world. simpl.
  rewrite !insert_insert_eq.
  rewrite int_wrap_small
    by (unfold INT_MIN, INT_MAX, MAX_CLIENTS in *; lia).
  reflexivity.
Qed.

(** What the call of the connect hook adds to the trace. *)
Definition call_connected_run (client : Z) (c : luv_client_t) (w1 : world)
    : bool * list event :=
  seq_run (false, [Hook_connected client (num_clients (srv w1))])
    (app_run CHECK_exits uv (registry w1)
       (onclient_connected (srv w1) client c (num_clients (srv w1)))).

(** What [onconnection] adds to the trace once the record is in the
    registry: the hook, what the hook asks for, the start of the reads. *)
Definition connected_run (client : Z) (c : luv_client_t) (w1 : world)
    : bool * list event :=
  seq_run
    (seq_run (call_connected_run client c w1)
       (false, [Uv_read_start client (r_read_start uv)]))
    (check_run CHECK_exits (r_read_start uv) "uv_read_start").

(** What [onconnection] adds to the trace before it tests the count. *)
Definition entry_run (status : Z) : bool * list event :=
  seq_run (check_run CHECK_exits status "onconnection")
    (false, [Log Info "Accepting Connection" []]).

(** What it adds from the allocation of the record to the accept. *)
Definition accept_run (blk : Z) : bool * list event :=
  seq_run
    (seq_run (false, [Uv_tcp_init blk (r_tcp_init uv)])
       (check_run CHECK_exits (r_tcp_init uv) "uv_tcp_init"))
    (false, [Uv_accept blk (r_accept uv)]).

Lemma connected_run_exit client c w1 :
  (connected_run client c w1).1 = true -> may_exit CHECK_exits.
Proof.
  unfold connected_run, call_connected_run.
  intros [[[H|H]%seq_run_exit|H]%seq_run_exit|H]%seq_run_exit;
    try done; eauto using app_run_exit, check_run_exit.
Qed.

Lemma entry_run_exit status :
  (entry_run status).1 = true -> may_exit CHECK_exits.
Proof.
  unfold entry_run. intros [H|H]%seq_run_exit; [|done].
  by eapply check_run_exit.
Qed.

Lemma accept_run_exit blk :
  (accept_run blk).1 = true -> may_exit CHECK_exits.
Proof.
  unfold accept_run.
  intros [[H|H]%seq_run_exit|H]%seq_run_exit; try done.
  by eapply check_run_exit.
Qed.

Lemma call_connected_eq client c w1 :
  length (clients (srv w1)) = Z.to_nat MAX_CLIENTS ->
  num_clients (srv w1) <= MAX_CLIENTS ->
  heap w1 !! client = Some c ->
  client_server c = srv_ptr w1 ->
  call_connected CHECK_exits uv (srv w1) client (num_clients (srv w1)) w1 =
  finish (call_connected_run client c w1) w1.
Proof.
  intros Hlen Hn Hc Hs.
  unfold call_connected. unfold bind at 1. unfold load_client.
  rewrite Hc, Hs. apply finish_seq; [apply emit_run|].
  intros _. by apply (run_app_run CHECK_exits uv _ (extends w1 _)).
Qed.

Lemma onconnection_tail client c w1 :
  length (clients (srv w1)) = Z.to_nat MAX_CLIENTS ->
  num_clients (srv w1) <= MAX_CLIENTS ->
  heap w1 !! client = Some c ->
  client_server c = srv_ptr w1 ->
  (do s <- load_server (srv_ptr w1);
   call_connected CHECK_exits uv s client (num_clients s) >>
   emit (Uv_read_start client (r_read_start uv)) >>
   CHECK CHECK_exits (r_read_start uv) "uv_read_start") w1 =
  finish (connected_run client c w1) w1.
Proof.
  intros Hlen Hn Hc Hs.
  erewrite bind_done by by apply load_server_done.
  unfold connected_run.
  apply finish_seq; [|intros _; apply CHECK_check_run].
  apply finish_seq; [|intros _; apply emit_run].
  by apply call_connected_eq.
Qed.

(** [onconnection] when the server is full. *)
Lemma onconnection_full w status blk junk :
  num_clients (srv w) = MAX_CLIENTS ->
  onconnection CHECK_exits uv (srv_ptr w) status blk junk w =
  finish (seq_run (entry_run status)
            (false, [Log Info "exceeded allowed number of clients" []])) w.
Proof.
  intros Hfull. unfold onconnection, entry_run.
  rewrite <- then_run_finish, then_run_seq.
  erewrite then_run_bind by apply CHECK_check_run.
  apply then_run_ext. intros _.
  erewrite then_run_bind by apply emit_run.
  apply then_run_ext. intros _.
  erewrite bind_done by by apply load_server_done.
  autorewrite with world. rewrite decide_True by done. reflexivity.
Qed.

(** [onconnection] when the server has room and the accept succeeds. *)
Lemma onconnection_accepted w status blk junk :
  length (clients (srv w)) = Z.to_nat MAX_CLIENTS ->
  0 <= num_clients (srv w) < MAX_CLIENTS ->
  blk <> NULL -> r_accept uv = 0 ->
  onconnection CHECK_exits uv (srv_ptr w) status blk junk w =
  then_run (entry_run status) w (fun w1 =>
    then_run (accept_run blk) (set_heap (<[blk := junk]> (heap w1)) w1)
      (fun w2 =>
         finish
           (connected_run blk
              (Client (ids (srv w)) (num_clients (srv w)) (srv_ptr w))
              (register blk w2))
           (register blk w2))).
Proof.
  intros Hlen Hn Hblk Hacc. unfold onconnection, entry_run.
  rewrite then_run_seq.
  erewrite then_run_bind by apply CHECK_check_run.
  apply then_run_ext. intros _.
  erewrite then_run_bind by apply emit_run.
  apply then_run_ext. intros _.
  erewrite bind_done by by apply load_server_done.
  autorewrite with world. rewrite decide_False by lia.
  erewrite bind_done
    by (unfold malloc_client; rewrite decide_False by done; reflexivity).
  autorewrite with world.
  erewrite then_run_bind.
  2:{ unfold accept_run.
      apply finish_seq; [|intros _; apply emit_run].
      apply finish_seq; [apply emit_run|intros _; apply CHECK_check_run]. }
  apply then_run_ext. intros _.
  rewrite decide_False by lia.
  match goal with |- _ ?w2 = _ => set (w' := w2) end.
  change (srv_ptr w) with (srv_ptr w').
  erewrite onconnection_register;
    [|done|done|subst w'; autorewrite with world; apply lookup_insert_eq].
  change (srv_ptr w') with (srv_ptr (register blk w')).
  apply onconnection_tail.
  - unfold register. simpl. by rewrite length_insert.
  - unfold register. simpl. lia.
  - unfold register. simpl. apply lookup_insert_eq.
  - reflexivity.
Qed.

End Onconnection.

(** ** Sequences of insertions and removals *)

(** An operation on the registry: a connection event on which the accept
    succeeds when the server has room, or the disconnection of a record. *)
Inductive op : Type :=
| Connect (uv : substrate) (status : Z) (blk : Z) (junk : luv_client_t)
| Disconnect (uv : substrate) (client : Z).

Definition run_op (CHECK_exits : Z -> string -> bool) (o : op) : M unit :=
  match o with
  | Connect uv status blk junk =>
      fun w => onconnection CHECK_exits uv (srv_ptr w) status blk junk w
  | Disconnect uv client => disconnect CHECK_exits uv client
  end.

Fixpoint run_ops (CHECK_exits : Z -> string -> bool) (l : list op)
    : M unit :=
  match l with
  | [] => ret tt
  | o :: l' => run_op CHECK_exits o >> run_ops CHECK_exits l'
  end.

(** The connections of a run, as the specification counts them: those
    accepted so far, in the order of their acceptance, and those of them
    that are live (accepted and not yet disconnected). *)
Record history : Type := History {
  accepted : list Z;
  live : list Z
}.

Definition record_op (o : op) (h : history) : history :=
  match o with
  | Connect _ _ blk _ =>
      if decide (Z.of_nat (length (live h)) < MAX_CLIENTS)
      then History (accepted h ++ [blk]) (live h ++ [blk])
      else h
  | Disconnect _ client =>
      History (accepted h) (filter (fun a => a <> client) (live h))
  end.

Definition history_of (l : list op) : history :=
  foldl (fun h o => record_op o h) (History [] []) l.

(** What the environment guarantees of an operation: when the server has
    room the accept succeeds and the allocator hands out a block that is
    not null and not one it handed out before (no record is released by
    these operations); a record that is disconnected is live. *)
Definition op_valid (o : op) (h : history) : Prop :=
  match o with
  | Connect uv _ blk _ =>
      Z.of_nat (length (live h)) < MAX_CLIENTS ->
      r_accept uv = 0 /\ blk <> NULL /\ blk ∉ accepted h
  | Disconnect _ client => client ∈ live h
  end.

Fixpoint ops_valid (l : list op) (h : history) : Prop :=
  match l with
  | [] => True
  | o :: l' => op_valid o h /\ ops_valid l' (record_op o h)
  end.

(** No two live records share a slot, or an identity. *)
Definition slots_distinct (w : world) : Prop :=
  forall a b ca cb,
    a ∈ registry w -> b ∈ registry w ->
    heap w !! a = Some ca -> heap w !! b = Some cb ->
    client_slot ca = client_slot cb -> a = b.

Definition ids_distinct (w : world) : Prop :=
  forall a b ca cb,
    a ∈ registry w -> b ∈ registry w ->
    heap w !! a = Some ca -> heap w !! b = Some cb ->
    client_id ca = client_id cb -> a = b.

(** What holds between the operations of a run that started with the
    counter [ids] at [i0]. *)
Record run_inv (i0 : Z) (h : history) (w : world) : Prop := Run_inv {
  inv_ok : registry_ok w;
  inv_live : registry w ≡ₚ live h;
  inv_accepted : forall a, a ∈ live h -> a ∈ accepted h;
  inv_nodup : NoDup (accepted h);
  inv_heap : forall a, is_Some (heap w !! a) -> a ∈ accepted h;
  inv_ids : ids (srv w) = int_wrap (i0 + Z.of_nat (length (accepted h)));
  inv_id : forall (j : nat) a,
    accepted h !! j = Some a ->
    exists c, heap w !! a = Some c /\
              client_id c = int_wrap (i0 + Z.of_nat j)
}.

Lemma run_inv_extends i0 h w evs :
  run_inv i0 h (extends w evs) <-> run_inv i0 h w.
Proof.
  split; intros [Hok ? ? ? ? ? ?]; constructor; try assumption.
  - by apply registry_ok_extends in Hok.
  - by apply registry_ok_extends.
Qed.

Lemma registry_ok_slots_distinct w : registry_ok w -> slots_distinct w.
Proof.
  intros Hok a b ca cb [i Hi]%list_elem_of_lookup [j Hj]%list_elem_of_lookup
    Ha Hb Hs.
  destruct (ok_slot w Hok i a Hi) as (c & Hc & Hsa & _).
  destruct (ok_slot w Hok j b Hj) as (c' & Hc' & Hsb & _).
  rewrite Ha in Hc. rewrite Hb in Hc'.
  injection Hc as <-. injection Hc' as <-.
  assert (i = j) by lia. subst j. rewrite Hi in Hj. by injection Hj.
Qed.

Lemma int_wrap_inj_window i0 j k :
  0 <= j < 2 ^ 32 -> 0 <= k < 2 ^ 32 ->
  int_wrap (i0 + j) = int_wrap (i0 + k) -> j = k.
Proof.
  unfold int_wrap. change (2 ^ 32) with 4294967296.
  change (2 ^ 31) with 2147483648. intros Hj Hk H.
  pose proof (Z.div_mod (i0 + j + 2147483648) 4294967296).
  pose proof (Z.div_mod (i0 + k + 2147483648) 4294967296).
  lia.
Qed.

Lemma run_inv_ids_distinct i0 h w :
  run_inv i0 h w -> Z.of_nat (length (accepted h)) <= 2 ^ 32 ->
  ids_distinct w.
Proof.
  intros Hinv Hbound a b ca cb Ha Hb Hca Hcb Hid.
  rewrite (inv_live _ _ _ Hinv) in Ha, Hb.
  apply (inv_accepted _ _ _ Hinv) in Ha, Hb.
  apply list_elem_of_lookup in Ha as [j Hj].
  apply list_elem_of_lookup in Hb as [k Hk].
  destruct (inv_id _ _ _ Hinv j a Hj) as (c & Hc & Hcid).
  destruct (inv_id _ _ _ Hinv k b Hk) as (c' & Hc' & Hcid').
  rewrite Hca in Hc. rewrite Hcb in Hc'.
  injection Hc as <-. injection Hc' as <-.
  apply lookup_lt_Some in Hj as Hjlt. apply lookup_lt_Some in Hk as Hklt.
  assert (Z.of_nat j = Z.of_nat k).
  { apply (int_wrap_inj_window i0); [lia|lia|congruence]. }
  assert (j = k) by lia. subst k. rewrite Hj in Hk. by injection Hk.
Qed.

Lemma registry_length w :
  registry_ok w -> Z.of_nat (length (registry w)) = num_clients (srv w).
Proof.
  intros Hok. pose proof (ok_count w Hok). pose proof (ok_length w Hok).
  unfold registry. rewrite length_take. unfold MAX_CLIENTS in *. lia.
Qed.

Lemma int_wrap_succ z : int_wrap (int_wrap z + 1) = int_wrap (z + 1).
Proof.
  unfold int_wrap. change (2 ^ 32) with 4294967296.
  change (2 ^ 31) with 2147483648.
  replace ((z + 2147483648) mod 4294967296 - 2147483648 + 1 + 2147483648)
    with ((z + 2147483648) mod 4294967296 + 1) by lia.
  replace (z + 1 + 2147483648) with ((z + 2147483648) + 1) by lia.
  by rewrite Zplus_mod_idemp_l.
Qed.

Lemma register_after_malloc w blk junk e1 e2 :
  register blk
    (extends
       (set_heap (<[blk := junk]> (heap (extends w e1))) (extends w e1)) e2) =
  extends (register blk w) (e1 ++ e2).
Proof.
  unfold register, extends, set_heap, set_srv, set_trace. simpl.
  rewrite insert_insert_eq. by rewrite app_assoc.
Qed.

Lemma register_inv i0 h w blk :
  run_inv i0 h w -> num_clients (srv w) < MAX_CLIENTS ->
  blk <> NULL -> blk ∉ accepted h ->
  run_inv i0 (History (accepted h ++ [blk]) (live h ++ [blk]))
    (register blk w).
Proof.
  intros Hinv Hn Hblk Hfresh.
  pose proof (inv_ok _ _ _ Hinv) as Hok.
  pose proof (ok_count w Hok) as Hcount. pose proof (ok_length w Hok) as Hlen.
  assert (Hnotin : blk ∉ registry w).
  { rewrite (inv_live _ _ _ Hinv). intros Hin.
    by apply Hfresh, (inv_accepted _ _ _ Hinv). }
  split; cbn [accepted live].
  - by apply register_ok.
  - rewrite register_registry by (done || lia).
    by rewrite (inv_live _ _ _ Hinv).
  - intros a. rewrite !elem_of_app. intros [Ha|Ha]; [left|by right].
    by apply (inv_accepted _ _ _ Hinv).
  - apply NoDup_app. split_and!.
    + apply (inv_nodup _ _ _ Hinv).
    + intros a Ha ->%list_elem_of_singleton. done.
    + apply NoDup_singleton.
  - intros a Ha. rewrite elem_of_app, list_elem_of_singleton.
    destruct (decide (a = blk)) as [->|Hne]; [by right|left].
    rewrite register_heap_other in Ha by done.
    by apply (inv_heap _ _ _ Hinv).
  - unfold register. simpl. rewrite (inv_ids _ _ _ Hinv), length_app.
    simpl. rewrite int_wrap_succ. f_equal. lia.
  - intros j a Hj. apply lookup_app_Some in Hj as [Hj|[Hge Hj]].
    + destruct (inv_id _ _ _ Hinv j a Hj) as (c & Hc & Hid).
      exists c. split; [|done]. rewrite register_heap_other; [done|].
      intros ->. apply Hfresh. by eapply list_elem_of_lookup_2.
    + apply list_lookup_singleton_Some in Hj as [Hj <-].
      rewrite register_heap_new. eexists. split; [done|]. simpl.
      rewrite (inv_ids _ _ _ Hinv). f_equal. lia.
Qed.

Lemma unregister_inv i0 h w client i :
  run_inv i0 h w -> registry w !! i = Some client ->
  run_inv i0
    (History (accepted h) (filter (fun a => a <> client) (live h)))
    (unregister client w).
Proof.
  intros Hinv Hi.
  pose proof (inv_ok _ _ _ Hinv) as Hok.
  assert (Hok' : registry_ok (unregister client w))
    by by eapply unregister_ok.
  destruct (unregister_frame w client) as (Hp & _ & _ & Hids & _).
  split; cbn [accepted live].
  - done.
  - apply NoDup_Permutation.
    + by apply registry_ok_NoDup.
    + apply NoDup_filter. rewrite <- (inv_live _ _ _ Hinv).
      by apply registry_ok_NoDup.
    + intros a. rewrite (unregister_elem_of w client i) by done.
      rewrite list_elem_of_filter, (inv_live _ _ _ Hinv). tauto.
  - intros a [_ Ha]%list_elem_of_filter. by apply (inv_accepted _ _ _ Hinv).
  - apply (inv_nodup _ _ _ Hinv).
  - intros a Ha. apply (inv_heap _ _ _ Hinv).
    rewrite <- not_eq_None_Some in *.
    by rewrite <- (unregister_heap_dom w client i).
  - rewrite Hids. apply (inv_ids _ _ _ Hinv).
  - intros j a Hj.
    destruct (inv_id _ _ _ Hinv j a Hj) as (c & Hc & Hid).
    destruct (heap (unregister client w) !! a) as [c'|] eqn:Hc'.
    + destruct (unregister_heap_fields w client i a c' Hok Hi Hc')
        as (c0 & Hc0 & Hid0 & _).
      rewrite Hc in Hc0. injection Hc0 as <-.
      exists c'. split; [done|congruence].
    + apply (unregister_heap_dom w client i) in Hc'; [|done..].
      by rewrite Hc in Hc'.
Qed.

(** One operation keeps the invariant of the run; if the process ends in
    it, it ends in [CHECK] and with a well-formed registry. *)
Lemma run_op_inv CHECK_exits i0 h w o :
  run_inv i0 h w -> op_valid o h ->
  outcome (run_inv i0 (record_op o h))
    (fun w' => registry_ok w' /\ may_exit CHECK_exits)
    (run_op CHECK_exits o w).
Proof.
  intros Hinv Hvalid.
  pose proof (inv_ok _ _ _ Hinv) as Hok.
  pose proof (ok_count w Hok) as Hcount. pose proof (ok_length w Hok) as Hlen.
  assert (Hll : Z.of_nat (length (live h)) = num_clients (srv w)).
  { rewrite <- (inv_live _ _ _ Hinv). by apply registry_length. }
  destruct o as [uv status blk junk|uv client]; simpl in *.
  - rewrite Hll in *. case_decide as Hroom.
    + destruct (Hvalid Hroom) as (Hacc & Hblk & Hfresh).
      assert (Hnotin : blk ∉ registry w).
      { rewrite (inv_live _ _ _ Hinv). intros Hin.
        by apply Hfresh, (inv_accepted _ _ _ Hinv). }
      rewrite onconnection_accepted by (done || lia).
      apply outcome_then_run.
      { intros Hx%entry_run_exit. split; [|done].
        by apply (proj2 (registry_ok_extends _ _)). }
      intros _. apply outcome_then_run.
      { intros Hx%accept_run_exit. split; [|done].
        apply (proj2 (registry_ok_extends _ _)), malloc_ok; try done.
        by apply (proj2 (registry_ok_extends _ _)). }
      intros _. rewrite register_after_malloc.
      apply outcome_finish; rewrite extends_extends.
      * intros _. apply (proj2 (run_inv_extends i0 _ (register blk w) _)).
        by apply register_inv.
      * intros Hx%connected_run_exit. split; [|done].
        apply (proj2 (registry_ok_extends (register blk w) _)).
        by apply register_ok.
    + rewrite onconnection_full by lia.
      apply outcome_finish.
      * intros _. by apply (proj2 (run_inv_extends _ _ _ _)).
      * intros [Hx%entry_run_exit|Hx]%seq_run_exit; [|done].
        split; [|done]. by apply (proj2 (registry_ok_extends _ _)).
  - assert (Hin : client ∈ registry w) by by rewrite (inv_live _ _ _ Hinv).
    apply list_elem_of_lookup in Hin as [i Hi].
    destruct (ok_slot w Hok i client Hi) as (c & Hc & _).
    rewrite (disconnect_eq CHECK_exits uv w client i c) by done.
    apply outcome_finish.
    + intros _. apply (proj2 (run_inv_extends i0 _ (unregister client w) _)).
      by eapply unregister_inv.
    + intros Hx%disconnect_run_exit. split; [|done].
      apply (proj2 (registry_ok_extends (unregister client w) _)).
      by eapply unregister_ok.
Qed.

Lemma run_ops_inv CHECK_exits i0 l : forall h w,
  run_inv i0 h w -> ops_valid l h ->
  outcome (run_inv i0 (foldl (fun h o => record_op o h) h l))
    (fun w' => registry_ok w' /\ may_exit CHECK_exits)
    (run_ops CHECK_exits l w).
Proof.
  induction l as [|o l IH]; intros h w Hinv Hvalid; simpl.
  - done.
  - destruct Hvalid as [Ho Hl].
    eapply outcome_bind; [by apply run_op_inv|].
    intros [] w' Hinv'. by apply IH.
Qed.

(** The world [luv_server_create] returns in. *)
Lemma luv_server_create_done CHECK_exits uv self junk_clients junk_ids
    host port hc hd hm p w0 :
  luv_server_create CHECK_exits uv self junk_clients junk_ids host port
    hc hd hm = Done p w0 ->
  p = self /\ srv_ptr w0 = self /\
  srv w0 = Server host port (array_of junk_clients) 0 junk_ids hc hd hm /\
  heap w0 = ∅ /\ bufs w0 = ∅.
Proof.
  unfold luv_server_create, bind, CHECK, emit, ret, exit.
  repeat (case_decide; simpl);
    repeat (match goal with
            | |- context [CHECK_exits ?r ?m] => destruct (CHECK_exits r m)
            end; simpl);
    intros Heq; try discriminate Heq; by injection Heq as <- <-.
Qed.

Lemma array_of_length l : length (array_of l) = Z.to_nat MAX_CLIENTS.
Proof.
  unfold array_of. rewrite length_take, length_app, length_replicate. lia.
Qed.

Lemma created_inv CHECK_exits uv self junk_clients junk_ids host port
    hc hd hm p w0 :
  INT_MIN <= junk_ids <= INT_MAX ->
  luv_server_create CHECK_exits uv self junk_clients junk_ids host port
    hc hd hm = Done p w0 ->
  run_inv junk_ids (History [] []) w0.
Proof.
  intros Hint (-> & Hp & Hs & Hh & Hb)%luv_server_create_done.
  assert (Hreg : registry w0 = []) by (unfold registry; by rewrite Hs).
  split; simpl; try done.
  - split.
    + rewrite Hs. apply array_of_length.
    + rewrite Hs. simpl. unfold MAX_CLIENTS. lia.
    + by rewrite Hh.
    + intros i a. by rewrite Hreg.
  - by rewrite Hreg.
  - constructor.
  - intros a. rewrite Hh, lookup_empty. by intros [? ?].
  - rewrite Hs. simpl. rewrite Z.add_0_r. by rewrite int_wrap_small.
Qed.

(** * The properties of the specification *)

(** ** Sample worlds *)

Module Sample.

Definition returns : Z -> string -> bool := fun _ _ => false.
Definition exits : Z -> string -> bool := fun _ _ => true.

Definition uv_ok : substrate := Substrate 0 0 0 0 0 0 (fun _ => 0).

(** Every write but those to handle [2] succeeds. *)
Definition uv_write_fails : substrate :=
  Substrate 0 0 0 0 0 0 (fun h => if decide (h = 2) then (-32) else 0).

(** The accept fails. *)
Definition uv_accept_fails : substrate :=
  Substrate 0 0 0 (-24) 0 0 (fun _ => 0).

Definition junk : luv_client_t := Client 0 0 0.

Definition server (a : list Z) (n i : Z) : luv_server_t :=
  Server App.HOST App.PORT a n i
    App.onclient_connected App.onclient_disconnected App.onclient_msg.

(** Three clients, at the blocks 1, 2 and 3, and one read buffer. *)
Definition three : world :=
  World 1000 (server [1; 2; 3; 0; 0] 3 3)
    (<[1 := Client 0 0 1000]>
       (<[2 := Client 1 1 1000]> (<[3 := Client 2 2 1000]> ∅)))
    (<[500 := "go"%string]> ∅) [].

(** The same server with a null entry in the live part of its array. *)
Definition gap : world :=
  World 1000 (server [1; 0; 3; 2; 0] 4 4)
    (<[1 := Client 0 0 1000]>
       (<[2 := Client 1 3 1000]> (<[3 := Client 2 2 1000]> ∅)))
    ∅ [].

(** A full server. *)
Definition full : world :=
  World 1000 (server [1; 2; 3; 4; 5] 5 5)
    (<[1 := Client 0 0 1000]>
       (<[2 := Client 1 1 1000]>
          (<[3 := Client 2 2 1000]>
             (<[4 := Client 3 3 1000]> (<[5 := Client 4 4 1000]> ∅)))))
    ∅ [].

(** The server as [luv_server_create] returns it when the block held
    nothing but zeroes. *)
Definition created : world :=
  World 1000 (server [0; 0; 0; 0; 0] 0 0) ∅ ∅
    [Uv_tcp_init 1000 0; Uv_ip4_addr 0; Uv_tcp_bind 1000 0].

(** Two connections, then the disconnection of the first. *)
Definition ops : list op :=
  [Connect uv_ok 0 1 junk; Connect uv_ok 0 2 junk; Disconnect uv_ok 1].

Lemma created_by_luv_server_create :
  luv_server_create returns uv_ok 1000 [] 0 App.HOST App.PORT
    App.onclient_connected App.onclient_disconnected App.onclient_msg =
  Done 1000 created.
Proof. reflexivity. Qed.

Lemma ops_ok : ops_valid ops (History [] []).
Proof.
  simpl. split_and!; try done; try (intros _; split_and!; try done).
  - apply not_elem_of_nil.
  - by intros ?%list_elem_of_singleton.
  - by left.
Qed.

Lemma three_ok : registry_ok three.
Proof.
  split; try done.
  intros i a Hi.
  destruct i as [|[|[|i]]]; simpl in Hi; inversion Hi; subst;
    eexists; (split; [reflexivity|done]).
Qed.

End Sample.

(** ** C2: capacity *)

(** Events that are lines of the log or reports of [CHECK]. *)
Definition log_event (e : event) : Prop :=
  match e with
  | Log _ _ _ | Check_failed _ _ => True
  | _ => False
  end.

(** C2. When [num_clients] equals [MAX_CLIENTS], [onconnection] rejects the
    connection: it does not run into undefined behaviour, the world it ends
    in has the server (so [num_clients] and the array) and the heap (so
    every record and its [slot]) it started with, no record is allocated,
    and all it adds to the trace are log lines and reports of [CHECK], so
    the connect hook is not called. *)
Theorem full_server_rejects CHECK_exits uv w status blk junk :
  num_clients (srv w) = MAX_CLIENTS ->
  exists w' evs,
    world_of (onconnection CHECK_exits uv (srv_ptr w) status blk junk w)
      = Some w' /\
    srv w' = srv w /\ heap w' = heap w /\ bufs w' = bufs w /\
    trace w' = trace w ++ evs /\
    Forall log_event evs /\
    (forall c total, Hook_connected c total ∉ evs).
Proof.
  intros Hfull. rewrite onconnection_full by done.
  set (a := seq_run _ _).
  assert (Hlog : Forall log_event a.2).
  { subst a. apply seq_run_events_Forall; [|by repeat constructor].
    unfold entry_run. apply seq_run_events_Forall; [|by repeat constructor].
    unfold check_run. case_decide; by repeat constructor. }
  exists (extends w a.2), a.2. split_and!; try done.
  - unfold finish. by destruct a as [[] ea].
  - intros c total Hin. rewrite Forall_forall in Hlog. by apply Hlog in Hin.
Qed.

Lemma full_server_rejects_witness :
  exists w' evs,
    world_of (onconnection Sample.returns Sample.uv_ok (srv_ptr Sample.full)
                (-1) 6 Sample.junk Sample.full) = Some w' /\
    srv w' = srv Sample.full /\ heap w' = heap Sample.full /\
    bufs w' = bufs Sample.full /\
    trace w' = trace Sample.full ++ evs /\
    Forall log_event evs /\
    (forall c total, Hook_connected c total ∉ evs).
Proof.
  apply (full_server_rejects Sample.returns Sample.uv_ok Sample.full).
  reflexivity.
Defined.

(** ** C3: removal by slot swap *)

Lemma disconnect_world_of CHECK_exits uv w client i c :
  registry_ok w -> registry w !! i = Some client ->
  heap w !! client = Some c ->
  world_of (disconnect CHECK_exits uv client w) =
  Some (extends (unregister client w)
          (disconnect_run CHECK_exits uv client c (unregister client w)).2).
Proof.
  intros Hok Hi Hc. rewrite (disconnect_eq CHECK_exits uv w client i c) by done.
  unfold finish. by destruct (disconnect_run _ _ _ _ _) as [[] e].
Qed.

(** C3. [disconnect] of the live record at index [i] does not run into
    undefined behaviour and leaves [num_clients] one lower.  If [i] is not
    the last live index, the record that was at the last live index, and
    no other, moves: the live part of the array is the old one cut by one
    with that record at [i], and the heap is the old one but for that
    record, whose [slot] field, which held the last live index, now holds
    [i], with its [id] and [server] fields as they were.  If [i] is the
    last live index the live part is the old one cut by one and the heap is
    unchanged. *)
Theorem disconnect_slot_swap CHECK_exits uv w client (i : nat) :
  registry_ok w -> registry w !! i = Some client ->
  exists w',
    world_of (disconnect CHECK_exits uv client w) = Some w' /\
    num_clients (srv w') = num_clients (srv w) - 1 /\
    (Z.of_nat i < num_clients (srv w) - 1 ->
     exists last m,
       registry w !! Z.to_nat (num_clients (srv w) - 1) = Some last /\
       last <> client /\ heap w !! last = Some m /\
       client_slot m = num_clients (srv w) - 1 /\
       registry w' =
         <[i := last]> (take (Z.to_nat (num_clients (srv w) - 1)) (registry w)) /\
       heap w' =
         <[last := Client (client_id m) (Z.of_nat i) (client_server m)]>
           (heap w)) /\
    (Z.of_nat i = num_clients (srv w) - 1 ->
     registry w' = take (Z.to_nat (num_clients (srv w) - 1)) (registry w) /\
     heap w' = heap w).
Proof.
  intros Hok Hi.
  destruct (ok_slot w Hok i client Hi) as (c & Hc & _).
  pose proof (ok_count w Hok) as Hcount. pose proof (ok_length w Hok) as Hlen.
  apply registry_lookup in Hi as Hi'. destruct Hi' as [Hin _].
  eexists. split; [by eapply disconnect_world_of|].
  autorewrite with world. split_and!.
  - by eapply unregister_num_clients.
  - intros Hlt.
    destruct (unregister_inner w client i Hok Hi Hlt)
      as (last & m & Hrl & Hm & Hne & ->).
    destruct (ok_slot w Hok _ _ Hrl) as (m' & Hm' & Hslot & _).
    rewrite Hm in Hm'. injection Hm' as <-.
    exists last, m. split_and!; try done.
    + rewrite Hslot. lia.
    + unfold registry. simpl. rewrite take_take.
      rewrite Nat.min_l by lia.
      unfold MAX_CLIENTS in *. by rewrite take_insert_lt by lia.
  - intros Hlast. rewrite (unregister_last w client i) by done.
    split; [|done]. unfold registry. simpl. rewrite take_take.
    by rewrite Nat.min_l by lia.
Qed.

Lemma disconnect_slot_swap_witness :
  exists w',
    world_of (disconnect Sample.returns Sample.uv_ok 1 Sample.three)
      = Some w' /\
    num_clients (srv w') = 2 /\
    registry w' = [3; 2] /\
    heap w' = <[3 := Client 2 0 1000]> (heap Sample.three).
Proof.
  destruct (disconnect_slot_swap Sample.returns Sample.uv_ok Sample.three 1 0)
    as (w' & Hrun & Hnum & Hswap & _).
  - exact Sample.three_ok.
  - reflexivity.
  - destruct Hswap as (last & m & Hlast & _ & Hm & _ & Hreg & Hheap);
      [reflexivity|].
    injection Hlast as <-. injection Hm as <-.
    exists w'. split; [exact Hrun|]. split; [exact Hnum|].
    split; [exact Hreg|exact Hheap].
Defined.

(** ** C4: the order of the effects of a disconnection *)

(** The records handed to the disconnect hook, in order. *)
Definition disconnect_hooks (evs : list event) : list Z :=
  omap (fun e => match e with
                 | Hook_disconnected c _ => Some c
                 | _ => None
                 end) evs.

(** The handles a shutdown was requested for, in order. *)
Definition shutdowns_of (evs : list event) : list Z :=
  omap (fun e => match e with Uv_shutdown h _ => Some h | _ => None end) evs.

Lemma disconnect_hooks_app a b :
  disconnect_hooks (a ++ b) = disconnect_hooks a ++ disconnect_hooks b.
Proof. apply omap_app. Qed.

Lemma shutdowns_of_app a b :
  shutdowns_of (a ++ b) = shutdowns_of a ++ shutdowns_of b.
Proof. apply omap_app. Qed.

Lemma app_event_no_hook evs :
  Forall app_event evs -> disconnect_hooks evs = [] /\ shutdowns_of evs = [].
Proof.
  induction 1 as [|e evs He _ [IH1 IH2]]; [done|].
  destruct e; try done.
Qed.

Lemma log_event_no_hook evs :
  Forall log_event evs -> disconnect_hooks evs = [] /\ shutdowns_of evs = [].
Proof.
  induction 1 as [|e evs He _ [IH1 IH2]]; [done|].
  destruct e; try done.
Qed.

Lemma check_run_log_event CHECK_exits r msg :
  Forall log_event (check_run CHECK_exits r msg).2.
Proof. unfold check_run. case_decide; by repeat constructor. Qed.

(** The shape of what [disconnect] adds to the trace once the registry is
    updated: the call of the hook, what the hook asks for, and the shutdown
    request with the report of [CHECK], unless the process ended inside the
    hook. *)
Lemma disconnect_run_shape CHECK_exits uv client c w1 :
  let hook := app_run CHECK_exits uv (registry w1)
                (onclient_disconnected (srv w1) client c
                   (num_clients (srv w1))) in
  let chk := check_run CHECK_exits (r_shutdown uv) "uv_shutdown" in
  let x := if hook.1 then true else chk.1 in
  let rest := if hook.1 then []
              else Uv_shutdown client (r_shutdown uv) :: chk.2 in
  let evs := Hook_disconnected client (num_clients (srv w1))
               :: hook.2 ++ rest in
  disconnect_run CHECK_exits uv client c w1 = (x, evs) /\
  disconnect_hooks evs = [client] /\
  (x = false -> shutdowns_of rest = [client]) /\
  shutdowns_of (Hook_disconnected client (num_clients (srv w1)) :: hook.2)
    = [].
Proof.
  intros hook chk x rest evs.
  assert (Happ : Forall app_event hook.2) by apply app_run_app_event.
  pose proof (check_run_log_event CHECK_exits (r_shutdown uv) "uv_shutdown")
    as Hchk.
  fold chk in Hchk. subst x rest evs. split_and!.
  - unfold disconnect_run, call_disconnected_run. fold hook chk.
    unfold seq_run. simpl. destruct hook as [[] he]; simpl.
    + by rewrite app_nil_r.
    + by rewrite <- app_assoc.
  - match goal with
    | |- disconnect_hooks (_ :: ?l) = _ =>
        change (client :: disconnect_hooks l = [client])
    end.
    rewrite disconnect_hooks_app, (proj1 (app_event_no_hook _ Happ)).
    f_equal. destruct hook.1; [done|].
    change (disconnect_hooks chk.2 = []).
    apply (proj1 (log_event_no_hook _ Hchk)).
  - destruct hook.1; [done|]. intros _.
    change (client :: shutdowns_of chk.2 = [client]).
    by rewrite (proj2 (log_event_no_hook _ Hchk)).
  - change (shutdowns_of hook.2 = []).
    apply (proj2 (app_event_no_hook _ Happ)).
Qed.

(** C4. [disconnect] of a live record adds to the trace, in this order: the
    call of the disconnect hook, what the hook asks for, and then the
    shutdown request for the record (unless [CHECK] ended the process
    inside the hook).  The hook is called once, with the registry already
    updated: the record is no entry of it and the count is one lower.  No
    write the hook causes goes to the record, and no broadcast made in the
    world [disconnect] ends in does. *)
Theorem disconnect_order CHECK_exits uv w client (i : nat) c :
  registry_ok w -> registry w !! i = Some client ->
  heap w !! client = Some c ->
  exists x hook_evs rest,
    let w1 := unregister client w in
    let evs := Hook_disconnected client (num_clients (srv w1))
                 :: hook_evs ++ rest in
    disconnect CHECK_exits uv client w = finish (x, evs) w1 /\
    (client ∉ registry w1) /\
    num_clients (srv w1) = num_clients (srv w) - 1 /\
    hook_evs =
      (app_run CHECK_exits uv (registry w1)
         (onclient_disconnected (srv w1) client c (num_clients (srv w1)))).2 /\
    (client ∉ writes_of hook_evs) /\
    disconnect_hooks evs = [client] /\
    (x = false -> shutdowns_of rest = [client]) /\
    shutdowns_of (Hook_disconnected client (num_clients (srv w1))
                    :: hook_evs) = [] /\
    (forall uv' msg,
       exists x' evs',
         luv_server_broadcast CHECK_exits uv' (srv_ptr w1) msg
           (extends w1 evs) = finish (x', evs') (extends w1 evs) /\
         client ∉ writes_of evs').
Proof.
  intros Hok Hi Hc.
  assert (Hok1 : registry_ok (unregister client w))
    by by eapply unregister_ok.
  assert (Hout : client ∉ registry (unregister client w)).
  { rewrite (unregister_elem_of w client i) by done. tauto. }
  set (w1 := unregister client w) in *.
  set (hook := app_run CHECK_exits uv (registry w1)
                 (onclient_disconnected (srv w1) client c
                    (num_clients (srv w1)))).
  assert (Hwr : client ∉ writes_of hook.2).
  { intros Hin. by apply app_run_writes in Hin as [Hin _]. }
  set (chk := check_run CHECK_exits (r_shutdown uv) "uv_shutdown").
  destruct (disconnect_run_shape CHECK_exits uv client c w1)
    as (Hshape & Hhooks & Hdown & Hnone).
  fold hook chk in Hshape, Hhooks, Hdown, Hnone.
  exists (if hook.1 then true else chk.1), hook.2,
    (if hook.1 then [] else Uv_shutdown client (r_shutdown uv) :: chk.2).
  cbv zeta. split_and!; try done.
  - rewrite (disconnect_eq CHECK_exits uv w client i c) by done.
    fold w1. by rewrite Hshape.
  - by eapply unregister_num_clients.
  - intros uv' msg. eexists _, _. split.
    + apply (luv_server_broadcast_run CHECK_exits uv' msg (extends w1 _));
        apply Hok1.
    + simpl. intros Hin.
      eapply elem_of_prefix in Hin; [|apply loop_run_writes].
      apply list_elem_of_filter in Hin as [_ Hin]. done.
Qed.

Lemma disconnect_order_witness :
  exists x evs,
    disconnect Sample.returns Sample.uv_ok 1 Sample.three =
      finish (x, evs) (unregister 1 Sample.three) /\
    disconnect_hooks evs = [1] /\
    (x = false -> shutdowns_of evs = [1]).
Proof.
  destruct (disconnect_order Sample.returns Sample.uv_ok Sample.three 1 0
              (Client 0 0 1000) Sample.three_ok eq_refl eq_refl)
    as (x & hook_evs & rest & Hrun & _ & _ & _ & _ & Hhooks & Hdown & Hnone
        & _).
  exists x, (Hook_disconnected 1 (num_clients (srv (unregister 1 Sample.three)))
             :: hook_evs ++ rest).
  split; [exact Hrun|]. split; [exact Hhooks|].
  intros Hx.
  rewrite (app_comm_cons hook_evs rest), shutdowns_of_app, Hnone.
  exact (Hdown Hx).
Defined.

(** ** C5: broadcast *)

(** The indices of the null entries of [l], whose first entry is at index
    [i]. *)
Fixpoint null_slots (i : Z) (l : list Z) : list Z :=
  match l with
  | [] => []
  | c :: l' =>
      if decide (c = NULL) then i :: null_slots (i + 1) l'
      else null_slots (i + 1) l'
  end.

Lemma writes_of_write h text n r evs :
  writes_of (Uv_write h text n r :: evs) = h :: writes_of evs.
Proof. reflexivity. Qed.

Lemma writes_of_log lvl fmt args evs :
  writes_of (Log lvl fmt args :: evs) = writes_of evs.
Proof. reflexivity. Qed.

Lemma writes_of_check msg r evs :
  writes_of (Check_failed msg r :: evs) = writes_of evs.
Proof. reflexivity. Qed.

Lemma warnings_of_warn fmt i evs :
  warnings_of (Log Warn fmt [arg_int i] :: evs) = i :: warnings_of evs.
Proof. reflexivity. Qed.

Lemma warnings_of_write h text n r evs :
  warnings_of (Uv_write h text n r :: evs) = warnings_of evs.
Proof. reflexivity. Qed.

Lemma warnings_of_check msg r evs :
  warnings_of (Check_failed msg r :: evs) = warnings_of evs.
Proof. reflexivity. Qed.

Lemma fatal_zero CHECK_exits r msg : r = 0 -> fatal CHECK_exits r msg = false.
Proof. intros Hr. unfold fatal. by rewrite (bool_decide_eq_true_2 _ Hr). Qed.

Lemma fatal_nonzero CHECK_exits r msg :
  r <> 0 -> fatal CHECK_exits r msg = CHECK_exits r msg.
Proof. intros Hr. unfold fatal. by rewrite (bool_decide_eq_false_2 _ Hr). Qed.

Lemma warnings_of_app a b :
  warnings_of (a ++ b) = warnings_of a ++ warnings_of b.
Proof. unfold warnings_of. apply omap_app. Qed.

(** Where one pass of the loop stops: at the first entry that is not null
    and whose write fails with [CHECK] ending the process, if there is
    one. *)
Lemma loop_run_stops CHECK_exits uv msg len l : forall i,
  let run := loop_run CHECK_exits uv msg len i l in
  let is_fatal h := fatal CHECK_exits (r_write uv h) "uv_write" in
  (forall h text n r,
     Uv_write h text n r ∈ run.2 -> text = msg /\ r = r_write uv h) /\
  if run.1
  then exists before c after,
         l = before ++ c :: after /\ c <> NULL /\ is_fatal c = true /\
         (forall h, h ∈ before -> h <> NULL -> is_fatal h = false) /\
         writes_of run.2 = filter (fun h => h <> NULL) before ++ [c] /\
         warnings_of run.2 = null_slots i before
  else (forall h, h ∈ l -> h <> NULL -> is_fatal h = false) /\
       writes_of run.2 = filter (fun h => h <> NULL) l /\
       warnings_of run.2 = null_slots i l.
Proof.
  induction l as [|c l IH]; intros i; cbv zeta.
  - split; [by intros ???? ?%elem_of_nil|]. simpl.
    split; [by intros ? ?%elem_of_nil|done].
  - destruct (IH (i + 1)) as [Ht IHl]. cbv zeta in IHl.
    cbn [loop_run].
    set (rest := loop_run CHECK_exits uv msg len (i + 1) l) in *.
    set (is_fatal h := fatal CHECK_exits (r_write uv h) "uv_write"%string)
      in *.
    assert (Hcons : forall pre,
      (c = NULL /\ writes_of pre = [] /\ warnings_of pre = [i] \/
       c <> NULL /\ is_fatal c = false /\
       writes_of pre = [c] /\ warnings_of pre = []) ->
      if rest.1
      then exists before c0 after,
             c :: l = before ++ c0 :: after /\ c0 <> NULL /\
             is_fatal c0 = true /\
             (forall h, h ∈ before -> h <> NULL -> is_fatal h = false) /\
             writes_of (pre ++ rest.2) =
               filter (fun h => h <> NULL) before ++ [c0] /\
             warnings_of (pre ++ rest.2) = null_slots i before
      else (forall h, h ∈ c :: l -> h <> NULL -> is_fatal h = false) /\
           writes_of (pre ++ rest.2) = filter (fun h => h <> NULL) (c :: l) /\
           warnings_of (pre ++ rest.2) = null_slots i (c :: l)).
    { intros pre Hpre. rewrite writes_of_app, warnings_of_app.
      assert (Hc : forall h, h = c -> h <> NULL -> is_fatal h = false).
      { intros h -> Hnn. by destruct Hpre as [[? _]|(_ & ? & _)]. }
      assert (Hw : forall t,
        writes_of pre ++ filter (fun h => h <> NULL) t =
        filter (fun h => h <> NULL) (c :: t)).
      { intros t. rewrite filter_cons.
        destruct Hpre as [(Hnull & -> & _)|(Hnn & _ & -> & _)].
        - by rewrite decide_False by (by intros ?).
        - by rewrite decide_True by done. }
      assert (Hn : forall t,
        warnings_of pre ++ null_slots (i + 1) t = null_slots i (c :: t)).
      { intros t. cbn [null_slots].
        destruct Hpre as [(Hnull & _ & ->)|(Hnn & _ & _ & ->)].
        - by rewrite decide_True by done.
        - by rewrite decide_False by done. }
      destruct rest.1.
      - destruct IHl as (before & c0 & after & -> & Hc0 & Hf & Hb & -> & ->).
        exists (c :: before), c0, after. split_and!; try done.
        + intros h [->|Hh]%elem_of_cons Hnn; [by apply Hc|by apply Hb].
        + by rewrite app_assoc, Hw.
      - destruct IHl as (Hb & -> & ->). split_and!; try done.
        intros h [->|Hh]%elem_of_cons Hnn; [by apply Hc|by apply Hb]. }
    destruct (decide (c = NULL)) as [Hnull|Hnull].
    + cbn [fst snd]. split.
      * intros h text n r [Heq|Hin]%elem_of_cons; [done|]. by eapply Ht.
      * apply (Hcons [_]). by left.
    + destruct (decide (r_write uv c = 0)) as [Hr|Hr]; cbn [fst snd].
      * split.
        -- intros h text n r [Heq|Hin]%elem_of_cons; [|by eapply Ht].
           by injection Heq as -> -> -> ->.
        -- apply (Hcons [_]). right. split_and!; try done.
           by apply fatal_zero.
      * destruct (CHECK_exits (r_write uv c) "uv_write"%string) eqn:Hx;
          cbn [fst snd].
        -- split.
           ++ intros h text n r [Heq|Hin]%elem_of_cons.
              ** by injection Heq as -> -> -> ->.
              ** by apply list_elem_of_singleton in Hin.
           ++ exists [], c, l. split_and!; try done.
              ** unfold is_fatal. by rewrite fatal_nonzero.
              ** by intros h ?%elem_of_nil.
        -- split.
           ++ intros h text n r [Heq|[Heq|Hin]%elem_of_cons]%elem_of_cons;
                [|done|by eapply Ht].
              by injection Heq as -> -> -> ->.
           ++ apply (Hcons [_; _]). right. split_and!; try done.
              unfold is_fatal. by rewrite fatal_nonzero.
Qed.

(** C5 (amended). On a server whose count is within its array,
    [luv_server_broadcast] changes nothing but the trace and goes through
    [clients[0..num_clients)] in the order of the array: an entry that is
    null gets a warning in the log, with its index, and nothing else; an
    entry that is not null gets one write, which carries the message, and
    the result of the write goes to [CHECK].  A write that fails with
    [CHECK] returning keeps no later entry from its write: when no failure
    is fatal the call returns with one write per entry that is not null.
    A write that fails with [CHECK] ending the process is the last effect:
    the entries [before] it were treated as said, the entries [after] it
    get neither a write nor a warning. *)
Theorem broadcast_fan_out CHECK_exits uv w msg :
  length (clients (srv w)) = Z.to_nat MAX_CLIENTS ->
  num_clients (srv w) <= MAX_CLIENTS ->
  let is_fatal h := fatal CHECK_exits (r_write uv h) "uv_write" in
  exists evs,
    Forall app_event evs /\
    (forall h text n r,
       Uv_write h text n r ∈ evs -> text = msg /\ r = r_write uv h) /\
    (luv_server_broadcast CHECK_exits uv (srv_ptr w) msg w =
       Done tt (extends w evs) /\
     (forall h, h ∈ registry w -> h <> NULL -> is_fatal h = false) /\
     writes_of evs = filter (fun h => h <> NULL) (registry w) /\
     warnings_of evs = null_slots 0 (registry w)
     \/
     luv_server_broadcast CHECK_exits uv (srv_ptr w) msg w =
       Exited (extends w evs) /\
     exists before c after,
       registry w = before ++ c :: after /\ c <> NULL /\
       is_fatal c = true /\
       (forall h, h ∈ before -> h <> NULL -> is_fatal h = false) /\
       writes_of evs = filter (fun h => h <> NULL) before ++ [c] /\
       warnings_of evs = null_slots 0 before).
Proof.
  intros Hlen Hn is_fatal.
  destruct (loop_run_stops CHECK_exits uv msg (int_wrap (strlen msg))
              (registry w) 0) as [Ht Hstop].
  cbv zeta in Hstop. fold is_fatal in Hstop.
  rewrite luv_server_broadcast_run by done.
  set (run := loop_run CHECK_exits uv msg (int_wrap (strlen msg)) 0
                (registry w)) in *.
  exists run.2. split; [apply loop_run_app_event|]. split; [exact Ht|].
  unfold finish. destruct run.1; [right|left]; by split.
Qed.

Lemma broadcast_fan_out_witness :
  exists evs,
    luv_server_broadcast Sample.returns Sample.uv_write_fails
      (srv_ptr Sample.three) "hello"%string Sample.three =
      Done tt (extends Sample.three evs) /\
    r_write Sample.uv_write_fails 2 = -32 /\
    writes_of evs = [1; 2; 3] /\
    warnings_of evs = [].
Proof.
  destruct (broadcast_fan_out Sample.returns Sample.uv_write_fails
              Sample.three "hello"%string)
    as (evs & _ & _ & [(Hrun & _ & Hw & Hn)|(_ & _ & c & _ & _ & _ & Hf & _)]).
  - reflexivity.
  - vm_compute. discriminate.
  - exists evs. split; [exact Hrun|]. split; [reflexivity|].
    split; [exact Hw|exact Hn].
  - unfold fatal, Sample.returns in Hf. rewrite andb_false_r in Hf.
    discriminate Hf.
Defined.

(** C5, as stated, fails: with a [CHECK] that ends the process, as the one
    that makes a failure of [uv_tcp_bind] or [uv_listen] fatal, a write
    that fails does keep the later entries from their write.  The record
    at block 3 is live and not null, and its write is not issued once the
    write to the record at block 2 has failed. *)
Example broadcast_cut_short_when_CHECK_exits :
  exists w',
    luv_server_broadcast Sample.exits Sample.uv_write_fails
      (srv_ptr Sample.three) "hello"%string Sample.three = Exited w' /\
    writes_of (trace w') = [1; 2] /\
    3 ∈ registry Sample.three /\ 3 <> NULL /\ 3 ∉ writes_of (trace w').
Proof.
  eexists. split; [reflexivity|]. split; [reflexivity|].
  split; [|split; [done|]].
  - apply list_elem_of_lookup. by exists 2%nat.
  - intros [H|[H|H%elem_of_nil]%elem_of_cons]%elem_of_cons; done.
Qed.

(** ** Read buffers *)

(** The buffers once the one at [p] is released. *)
Definition release (p : Z) (w : world) : world :=
  if decide (p = NULL) then w else set_bufs (delete p (bufs w)) w.

(** [p] is a buffer [alloc_cb] handed out and nobody released: the block is
    allocated, or [p] is null because the allocation failed. *)
Definition buffer_held (p : Z) (w : world) : Prop :=
  p = NULL \/ is_Some (bufs w !! p).

Lemma free_done p w :
  buffer_held p w -> free p w = Done tt (extends (release p w) [Free p]).
Proof.
  unfold free, release. intros [->|[b Hb]].
  - by rewrite !decide_True.
  - case_decide; [done|]. by rewrite Hb.
Qed.

Lemma release_frame p w :
  srv (release p w) = srv w /\ heap (release p w) = heap w /\
  srv_ptr (release p w) = srv_ptr w /\ trace (release p w) = trace w.
Proof. unfold release. by case_decide. Qed.

Lemma registry_ok_release p w : registry_ok (release p w) <-> registry_ok w.
Proof.
  unfold release. case_decide; [done|].
  split; intros [? ? ? ?]; by split.
Qed.

Lemma release_extends p w evs :
  release p (extends w evs) = extends (release p w) evs.
Proof. unfold release. by case_decide. Qed.

(** ** C10: a read of zero bytes *)

(** C10. On a read event of zero bytes for a connection whose record is
    allocated, [read_cb] returns; it releases the buffer and records that
    release in the trace, and does nothing else: no message, no call of a
    hook, and the server (its count and array) and the heap (every record)
    are the ones it started with. *)
Theorem read_cb_zero CHECK_exits uv w stream buf c :
  heap w !! stream = Some c -> buffer_held (base buf) w ->
  exists w',
    read_cb CHECK_exits uv stream 0 buf w = Done tt w' /\
    w' = extends (release (base buf) w) [Free (base buf)] /\
    srv w' = srv w /\ heap w' = heap w /\
    trace w' = trace w ++ [Free (base buf)] /\
    (base buf <> NULL -> bufs w' !! base buf = None).
Proof.
  intros Hc Hbuf. eexists. split.
  - unfold read_cb. erewrite bind_done by by apply load_client_done.
    rewrite decide_False by lia. rewrite decide_True by done.
    by apply free_done.
  - destruct (release_frame (base buf) w) as (Hs & Hh & Hp & Ht).
    split_and!; try done.
    + simpl. by rewrite Ht.
    + intros Hn. unfold release. rewrite decide_False by done.
      simpl. apply lookup_delete_eq.
Qed.

Lemma read_cb_zero_witness :
  exists w',
    read_cb Sample.returns Sample.uv_ok 2 0 (Buf 500 65536) Sample.three
      = Done tt w' /\
    srv w' = srv Sample.three /\ heap w' = heap Sample.three /\
    trace w' = trace Sample.three ++ [Free 500].
Proof.
  destruct (read_cb_zero Sample.returns Sample.uv_ok Sample.three 2
              (Buf 500 65536) (Client 1 1 1000))
    as (w' & Hrun & _ & Hs & Hh & Ht & _).
  - reflexivity.
  - right. by eexists.
  - exists w'. split; [exact Hrun|]. split; [exact Hs|].
    split; [exact Hh|exact Ht].
Defined.

(** ** C7: a read error *)

Lemma unregister_extends client w evs :
  unregister client (extends w evs) = extends (unregister client w) evs.
Proof. unfold unregister. simpl. by repeat case_match. Qed.

Lemma disconnect_run_extends CHECK_exits uv client c w evs :
  disconnect_run CHECK_exits uv client c (extends w evs) =
  disconnect_run CHECK_exits uv client c w.
Proof. reflexivity. Qed.

(** [read_cb] on an end of file: the buffer is released and the record is
    disconnected. *)
Lemma read_cb_eof CHECK_exits uv w stream (i : nat) c buf :
  registry_ok w -> registry w !! i = Some stream ->
  heap w !! stream = Some c -> buffer_held (base buf) w ->
  let w2 := unregister stream (release (base buf) w) in
  read_cb CHECK_exits uv stream UV_EOF buf w =
  finish (seq_run (false, [Free (base buf)])
            (disconnect_run CHECK_exits uv stream c w2)) w2.
Proof.
  intros Hok Hi Hc Hbuf w2. unfold read_cb.
  erewrite bind_done by by apply load_client_done.
  rewrite decide_True by done. rewrite decide_False by (by intros ?).
  destruct (release_frame (base buf) w) as (Hs & Hh & Hp & Ht).
  assert (Hok2 : registry_ok (release (base buf) w))
    by by apply registry_ok_release.
  assert (Hi2 : registry (release (base buf) w) !! i = Some stream)
    by (unfold registry; by rewrite Hs).
  assert (Hc2 : heap (release (base buf) w) !! stream = Some c)
    by by rewrite Hh.
  erewrite bind_done by (erewrite bind_done by reflexivity;
                         by apply free_done).
  rewrite (disconnect_eq CHECK_exits uv _ stream i c);
    [|by apply (proj2 (registry_ok_extends _ _))|done|done].
  rewrite unregister_extends, disconnect_run_extends. fold w2.
  unfold finish, seq_run. simpl. rewrite !extends_extends.
  by destruct (disconnect_run _ _ _ _ _).1.
Qed.

(** C7 (amended). On a read error (a negative result that is not
    [UV_EOF]) for a live connection, [read_cb] hands the error to [CHECK],
    which reports it.  When [CHECK] returns, [read_cb] then does what it
    does on an end of file: it ends in the same world but for the report in
    the trace, after the same effects in the same order, namely the release
    of the read buffer and the disconnect sequence (the record leaves the
    registry, the disconnect hook is called once, the shutdown is
    requested).  When [CHECK] ends the process, the report is the only
    effect: the buffer is not released and the world is otherwise the one
    [read_cb] started in. *)
Theorem read_error_like_eof CHECK_exits uv w stream (i : nat) c buf nread :
  registry_ok w -> registry w !! i = Some stream ->
  heap w !! stream = Some c -> buffer_held (base buf) w ->
  nread < 0 -> nread <> UV_EOF ->
  exists x evs,
    let w2 := unregister stream (release (base buf) w) in
    read_cb CHECK_exits uv stream UV_EOF buf w =
      finish (x, Free (base buf) :: evs) w2 /\
    read_cb CHECK_exits uv stream nread buf w =
      (if CHECK_exits nread "read_cb"%string
       then Exited (extends w [Check_failed "read_cb" nread])
       else finish (x, Check_failed "read_cb" nread :: Free (base buf) :: evs)
              w2) /\
    (CHECK_exits nread "read_cb"%string = false ->
     read_cb CHECK_exits uv stream nread buf w =
       read_cb CHECK_exits uv stream UV_EOF buf
         (extends w [Check_failed "read_cb" nread])) /\
    (stream ∉ registry w2) /\
    num_clients (srv w2) = num_clients (srv w) - 1 /\
    disconnect_hooks evs = [stream] /\
    (x = false -> shutdowns_of evs = [stream]).
Proof.
  intros Hok Hi Hc Hbuf Hneg Hneof.
  destruct (release_frame (base buf) w) as (Hs & Hh & Hp & Ht).
  assert (Hok2 : registry_ok (release (base buf) w))
    by by apply registry_ok_release.
  assert (Hi2 : registry (release (base buf) w) !! i = Some stream)
    by (unfold registry; by rewrite Hs).
  assert (Hc2 : heap (release (base buf) w) !! stream = Some c)
    by by rewrite Hh.
  set (w2 := unregister stream (release (base buf) w)).
  assert (Herr : read_cb CHECK_exits uv stream nread buf w =
                 if CHECK_exits nread "read_cb"%string
                 then Exited (extends w [Check_failed "read_cb" nread])
                 else read_cb CHECK_exits uv stream UV_EOF buf
                        (extends w [Check_failed "read_cb" nread])).
  { unfold read_cb.
    erewrite bind_done by by apply load_client_done.
    erewrite (bind_done (load_client stream))
      by by apply (load_client_done _ _ (extends w _)).
    rewrite (decide_True (P := nread < 0)) by done.
    rewrite (decide_True (P := UV_EOF < 0)) by done.
    rewrite (decide_True (P := nread <> UV_EOF)) by done.
    rewrite (decide_False (P := UV_EOF <> UV_EOF)) by (by intros ?).
    unfold bind. rewrite CHECK_run.
    rewrite (decide_False (P := nread = 0)) by lia.
    by destruct (CHECK_exits nread "read_cb"%string). }
  assert (Hout : stream ∉ registry w2).
  { subst w2. rewrite (unregister_elem_of _ stream i) by done. tauto. }
  assert (Hnum : num_clients (srv w2) =
                 num_clients (srv (release (base buf) w)) - 1)
    by by eapply unregister_num_clients.
  destruct (disconnect_run_shape CHECK_exits uv stream c w2)
    as (Hrun' & Hhooks & Hdown & Hnone).
  cbv zeta in Hrun', Hhooks, Hdown, Hnone.
  set (hook := app_run CHECK_exits uv (registry w2)
                 (onclient_disconnected (srv w2) stream c
                    (num_clients (srv w2)))) in *.
  set (chk := check_run CHECK_exits (r_shutdown uv) "uv_shutdown") in *.
  set (hook_evs := hook.2) in *.
  set (rest := if hook.1 then []
               else Uv_shutdown stream (r_shutdown uv) :: chk.2) in *.
  set (x := if hook.1 then true else chk.1) in *.
  exists x, (Hook_disconnected stream (num_clients (srv w2))
             :: hook_evs ++ rest).
  cbv zeta. fold w2.
  assert (Heof : forall w0,
             registry_ok w0 -> registry w0 !! i = Some stream ->
             heap w0 !! stream = Some c -> buffer_held (base buf) w0 ->
             read_cb CHECK_exits uv stream UV_EOF buf w0 =
             finish (seq_run (false, [Free (base buf)])
                       (disconnect_run CHECK_exits uv stream c
                          (unregister stream (release (base buf) w0))))
               (unregister stream (release (base buf) w0)))
    by (intros; by apply (read_cb_eof _ _ _ _ i)).
  split_and!.
  - rewrite Heof by done. fold w2. rewrite Hrun'. reflexivity.
  - rewrite Herr. destruct (CHECK_exits nread "read_cb"%string); [done|].
    rewrite Heof;
      [|by apply (proj2 (registry_ok_extends _ _))|done|done|done].
    rewrite release_extends, unregister_extends, disconnect_run_extends.
    fold w2. rewrite Hrun'. unfold finish, seq_run. simpl.
    rewrite !extends_extends. by destruct x.
  - intros Hchk. by rewrite Herr, Hchk.
  - exact Hout.
  - by rewrite Hnum, Hs.
  - exact Hhooks.
  - intros Hx.
    rewrite (app_comm_cons hook_evs rest), shutdowns_of_app, Hnone.
    exact (Hdown Hx).
Qed.

Lemma read_error_like_eof_witness :
  exists x evs,
    read_cb Sample.returns Sample.uv_ok 2 UV_EOF (Buf 500 65536) Sample.three
      = finish (x, Free 500 :: evs)
          (unregister 2 (release 500 Sample.three)) /\
    read_cb Sample.returns Sample.uv_ok 2 (-104) (Buf 500 65536) Sample.three
      = finish (x, Check_failed "read_cb" (-104) :: Free 500 :: evs)
          (unregister 2 (release 500 Sample.three)) /\
    disconnect_hooks evs = [2].
Proof.
  destruct (read_error_like_eof Sample.returns Sample.uv_ok Sample.three 2 1
              (Client 1 1 1000) (Buf 500 65536) (-104))
    as (x & evs & Heof & Herr & _ & _ & _ & Hhooks & _).
  - exact Sample.three_ok.
  - reflexivity.
  - reflexivity.
  - right. by eexists.
  - lia.
  - unfold UV_EOF. lia.
  - exists x, evs. split; [exact Heof|]. split; [exact Herr|exact Hhooks].
Defined.

(** C7, as stated, fails: with a [CHECK] that ends the process, as the one
    that makes a failure of [uv_tcp_bind] or [uv_listen] fatal, a read
    error does not reach the disconnect sequence.  The process ends with
    the report, the buffer still allocated and the record still in the
    registry. *)
Example read_error_ends_process_when_CHECK_exits :
  exists w',
    read_cb Sample.exits Sample.uv_ok 2 (-104) (Buf 500 65536) Sample.three
      = Exited w' /\
    trace w' = [Check_failed "read_cb" (-104)] /\
    registry w' = [1; 2; 3] /\
    bufs w' !! 500 = Some "go"%string.
Proof. eexists. split_and!; [vm_compute; reflexivity|reflexivity..]. Qed.

(** ** C6: the responder *)











(** ** C8: a failed accept *)

(** [preserves R c]: whenever [c] does not run into undefined behaviour,
    the world it ends in is related by [R] to the one it started in. *)
Definition ends_in {A : Type} (Q : world -> Prop) (r : result A) : Prop :=
  match r with
  | Done _ w | Exited w => Q w
  | Undefined => True
  end.

Definition preserves {A : Type} (R : world -> world -> Prop) (c : M A)
    : Prop :=
  forall w, ends_in (R w) (c w).

(** The server is the same object with the same count. *)
Definition same_count (w w' : world) : Prop :=
  srv_ptr w' = srv_ptr w /\ num_clients (srv w') = num_clients (srv w).

Lemma preserves_bind {A B : Type} (c : M A) (k : A -> M B) :
  preserves same_count c -> (forall a, preserves same_count (k a)) ->
  preserves same_count (bind c k).
Proof.
  intros Hc Hk w. unfold bind. specialize (Hc w).
  destruct (c w) as [a w1|w1|]; simpl in *; [|done..].
  specialize (Hk a w1). destruct Hc as [Hp Hn].
  destruct (k a w1) as [b w2|w2|]; simpl in *; [..|done];
    destruct Hk as [Hp' Hn']; split; congruence.
Qed.

Lemma preserves_ret {A : Type} (a : A) : preserves same_count (ret a).
Proof. by intros w. Qed.

Lemma preserves_emit e : preserves same_count (emit e).
Proof. by intros w. Qed.

Lemma preserves_CHECK CHECK_exits r msg :
  preserves same_count (CHECK CHECK_exits r msg).
Proof.
  unfold CHECK. case_decide; [apply preserves_ret|].
  apply preserves_bind; [apply preserves_emit|]. intros _.
  destruct (CHECK_exits r msg); intros w; by split.
Qed.

Lemma preserves_load_server p : preserves same_count (load_server p).
Proof. intros w. unfold load_server. case_decide; [by split|done]. Qed.

Lemma preserves_load_client p : preserves same_count (load_client p).
Proof. intros w. unfold load_client. by destruct (heap w !! p). Qed.

Lemma preserves_store_client p c : preserves same_count (store_client p c).
Proof. intros w. unfold store_client. by destruct (heap w !! p). Qed.

Lemma preserves_array_get a i : preserves same_count (array_get a i).
Proof. intros w. unfold array_get. by repeat case_match. Qed.

Lemma preserves_array_set a i p : preserves same_count (array_set a i p).
Proof. intros w. unfold array_set. by repeat case_match. Qed.

Lemma preserves_uv_write uv h text n :
  preserves same_count (uv_write uv h text n).
Proof.
  unfold uv_write. apply preserves_bind; [apply preserves_emit|].
  intros _. apply preserves_ret.
Qed.

Create HintDb preserves discriminated.
#[local] Hint Resolve preserves_ret preserves_emit preserves_CHECK
  preserves_load_server preserves_load_client preserves_store_client
  preserves_array_get preserves_array_set preserves_uv_write : preserves.

Lemma preserves_broadcast_loop CHECK_exits uv self msg len n : forall i,
  preserves same_count (broadcast_loop CHECK_exits uv self msg len i n).
Proof.
  induction n as [|n IH]; intros i; simpl; [apply preserves_ret|].
  apply preserves_bind; [auto with preserves|]. intros s.
  apply preserves_bind; [auto with preserves|]. intros client.
  apply preserves_bind; [|intros _; apply IH].
  case_decide; [apply preserves_emit|].
  apply preserves_bind; auto with preserves.
Qed.

Lemma preserves_run_app CHECK_exits uv self l :
  preserves same_count (run_app CHECK_exits uv self l).
Proof.
  induction l as [|a l IH]; simpl; [apply preserves_ret|].
  apply preserves_bind; [|by intros _].
  destruct a; simpl; [apply preserves_emit|].
  unfold luv_server_broadcast.
  apply preserves_bind; [auto with preserves|]. intros s.
  apply preserves_broadcast_loop.
Qed.

Lemma preserves_call_disconnected CHECK_exits uv s client total :
  preserves same_count (call_disconnected CHECK_exits uv s client total).
Proof.
  unfold call_disconnected.
  apply preserves_bind; [auto with preserves|]. intros c.
  apply preserves_bind; [auto with preserves|]. intros _.
  apply preserves_run_app.
Qed.

(** Whatever record it is handed, [disconnect] decrements the count of the
    server the record names, if that is the server. *)
Lemma disconnect_decrements CHECK_exits uv client w :
  ends_in
    (fun w' => num_clients (srv w') = int_wrap (num_clients (srv w) - 1))
    (disconnect CHECK_exits uv client w).
Proof.
  unfold disconnect.
  unfold bind at 1. unfold load_client at 1.
  destruct (heap w !! client) as [c|]; [|done].
  unfold bind at 1. unfold load_server at 1.
  case_decide as Hsrv; [|done].
  set (compact := if decide (client_slot c < _) then _ else _).
  assert (Hcompact : match compact w with
                     | Done _ w1 => same_count w w1
                     | Exited _ => False
                     | Undefined => True
                     end).
  { subst compact. case_decide; [|by split].
    unfold bind, array_get, array_set, store_server, load_client,
      store_client.
    repeat case_match; simplify_eq; simpl; try done. }
  unfold bind at 1.
  destruct (compact w) as [[] w1|w1|]; [|done..].
  - destruct Hcompact as [Hp Hn].
    unfold bind at 1. unfold load_server at 1.
    case_decide as Hsrv1; [|done].
    unfold bind at 1. unfold store_server at 1.
    rewrite decide_True by done.
    unfold bind at 1. unfold load_server at 1.
    rewrite decide_True by (autorewrite with world; done).
    autorewrite with world.
    set (w2 := set_srv _ w1).
    assert (Hrest : preserves same_count
      (call_disconnected CHECK_exits uv
         (with_num_clients (int_wrap (num_clients (srv w1) - 1)) (srv w1))
         client
         (num_clients
            (with_num_clients (int_wrap (num_clients (srv w1) - 1))
               (srv w1))) >>
       emit (Uv_shutdown client (r_shutdown uv)) >>
       CHECK CHECK_exits (r_shutdown uv) "uv_shutdown")).
    { apply preserves_bind; [|intros _; auto with preserves].
      apply preserves_bind; [|intros _; auto with preserves].
      apply preserves_call_disconnected. }
    specialize (Hrest w2).
    destruct ((_ >> _ >> _) w2) as [[] w3|w3|]; simpl in *; [..|done];
      destruct Hrest as [_ ->]; subst w2; simpl; by rewrite Hn.
Qed.

Lemma bind_Done_inv {A B : Type} (c : M A) (k : A -> M B) w b w' :
  bind c k w = Done b w' ->
  exists a w1, c w = Done a w1 /\ k a w1 = Done b w'.
Proof.
  unfold bind. destruct (c w) as [a w1|w1|]; [|done..]. intros H. eauto.
Qed.

Lemma preserves_Done {A : Type} (c : M A) w a w1 :
  preserves same_count c -> c w = Done a w1 -> same_count w w1.
Proof. intros Hc Hrun. specialize (Hc w). by rewrite Hrun in Hc. Qed.

Lemma same_count_trans w1 w2 w3 :
  same_count w1 w2 -> same_count w2 w3 -> same_count w1 w3.
Proof. intros [? ?] [? ?]. split; congruence. Qed.

(** On a failed accept [onconnection] never returns with the count it
    started with: it runs into undefined behaviour, or the process ends,
    or the count has gone down by one. *)
Lemma accept_failure_changes_count CHECK_exits uv w status blk junk w' :
  num_clients (srv w) <> MAX_CLIENTS -> r_accept uv <> 0 ->
  onconnection CHECK_exits uv (srv_ptr w) status blk junk w = Done tt w' ->
  num_clients (srv w') = int_wrap (num_clients (srv w) - 1) /\
  num_clients (srv w') <> num_clients (srv w).
Proof.
  intros Hroom Hacc Hrun.
  assert (Hdec : num_clients (srv w') = int_wrap (num_clients (srv w) - 1)).
  { unfold onconnection in Hrun.
    apply bind_Done_inv in Hrun as ([] & w1 & H1 & Hrun).
    apply preserves_Done in H1 as Hs1; [|auto with preserves].
    apply bind_Done_inv in Hrun as ([] & w2 & H2 & Hrun).
    apply preserves_Done in H2 as Hs2; [|apply preserves_emit].
    apply bind_Done_inv in Hrun as (s & w3 & H3 & Hrun).
    pose proof (same_count_trans _ _ _ Hs1 Hs2) as [Hp2 Hn2].
    unfold load_server in H3. rewrite decide_True in H3 by done.
    injection H3 as <- <-.
    rewrite decide_False in Hrun by by rewrite Hn2.
    apply bind_Done_inv in Hrun as (client & w4 & H4 & Hrun).
    assert (Hs4 : same_count w2 w4 /\ client = blk).
    { unfold malloc_client in H4.
      destruct (decide (blk = NULL)); by injection H4 as <- <-. }
    destruct Hs4 as [Hs4 ->].
    apply bind_Done_inv in Hrun as ([] & w5 & H5 & Hrun).
    apply preserves_Done in H5 as Hs5.
    2:{ apply preserves_bind; [|intros _; auto with preserves].
        apply preserves_bind; [|intros _; auto with preserves].
        auto with preserves. }
    rewrite decide_True in Hrun by done.
    apply bind_Done_inv in Hrun as ([] & w6 & H6 & Hrun).
    apply preserves_Done in H6 as Hs6; [|apply preserves_emit].
    pose proof (disconnect_decrements CHECK_exits uv blk w6) as Hd.
    rewrite Hrun in Hd. simpl in Hd. rewrite Hd.
    destruct Hs4 as [_ Hn4]. destruct Hs5 as [_ Hn5].
    destruct Hs6 as [_ Hn6]. congruence. }
  split; [exact Hdec|]. rewrite Hdec. unfold int_wrap.
  change (2 ^ 32) with 4294967296. change (2 ^ 31) with 2147483648.
  pose proof (Z.div_mod (num_clients (srv w) - 1 + 2147483648) 4294967296).
  pose proof (Z.mod_pos_bound (num_clients (srv w) - 1 + 2147483648)
                4294967296).
  lia.
Qed.

(** C8.  When the accept fails, [onconnection] hands to [disconnect] the
    record it has just allocated, whose [server] and [slot] were never set,
    so the registry does not stay as it was.  Here
    the block is a recycled one that still holds the address of the server
    and slot 0, and three clients are connected: the record at slot 0 is
    overwritten in the array by the last one, the count drops to two and
    the disconnect hook is called for a connection that was never
    announced, while the record that was at slot 0 is still connected. *)
Example accept_failure_runs_disconnect :
  exists w',
    onconnection Sample.returns Sample.uv_accept_fails 1000 0 4
      (Client 7 0 1000) Sample.three = Done tt w' /\
    num_clients (srv Sample.three) = 3 /\ registry Sample.three = [1; 2; 3] /\
    num_clients (srv w') = 2 /\ registry w' = [3; 2] /\
    client_slot <$> heap w' !! 3 = Some 0 /\
    disconnect_hooks (trace w') = [4] /\
    shutdowns_of (trace w') = [4].
Proof. eexists. split_and!; [vm_compute; reflexivity|reflexivity..]. Qed.

(** With a block whose [server] field holds anything else, [disconnect]
    reads the count of the server through a wild pointer. *)
Example accept_failure_wild_pointer :
  onconnection Sample.returns Sample.uv_accept_fails 1000 0 4
    (Client 7 0 424242) Sample.three = Undefined.
Proof. vm_compute. reflexivity. Qed.

(** ** C9: identities *)

(** C9 (amended). In a run from the creation of the server, the record
    accepted as the [j]-th holds as identity the value the counter [ids]
    had at that accept, which is the value [ids] held at creation plus
    [j], wrapped to an [int]; the counter is then one further.  So of two
    accepted connections the later has the strictly greater identity as
    long as the counter has not wrapped around by the later accept, and
    two connections fewer than 2^32 accepts apart have different
    identities. *)
Theorem identities_increase_until_wrap CHECK_exits uv self junk_clients
    junk_ids host port hc hd hm w0 ops :
  INT_MIN <= junk_ids <= INT_MAX ->
  luv_server_create CHECK_exits uv self junk_clients junk_ids host port
    hc hd hm = Done self w0 ->
  ops_valid ops (History [] []) ->
  outcome
    (fun w =>
       let acc := accepted (history_of ops) in
       ids (srv w) = int_wrap (junk_ids + Z.of_nat (length acc)) /\
       forall (j k : nat) a b,
         acc !! j = Some a -> acc !! k = Some b -> (j < k)%nat ->
         exists ca cb,
           heap w !! a = Some ca /\ heap w !! b = Some cb /\
           client_id ca = int_wrap (junk_ids + Z.of_nat j) /\
           client_id cb = int_wrap (junk_ids + Z.of_nat k) /\
           (junk_ids + Z.of_nat k <= INT_MAX ->
            client_id ca < client_id cb) /\
           (Z.of_nat k - Z.of_nat j < 2 ^ 32 ->
            client_id ca <> client_id cb))
    (fun _ => True)
    (run_ops CHECK_exits ops w0).
Proof.
  intros Hint Hcreate Hvalid.
  eapply outcome_weaken;
    [| |apply (run_ops_inv CHECK_exits junk_ids ops (History [] []) w0);
        [by eapply created_inv|done]]; [|done].
  intros w Hinv. cbv zeta. fold (history_of ops) in Hinv.
  split; [apply (inv_ids _ _ _ Hinv)|].
  intros j k a b Hj Hk Hjk.
  destruct (inv_id _ _ _ Hinv j a Hj) as (ca & Hca & Hida).
  destruct (inv_id _ _ _ Hinv k b Hk) as (cb & Hcb & Hidb).
  exists ca, cb. split_and!; try done.
  - intros Hmax. rewrite Hida, Hidb.
    rewrite !int_wrap_small by (unfold INT_MIN, INT_MAX in *; lia). lia.
  - intros Hnear. rewrite Hida, Hidb. intros Heq.
    replace (junk_ids + Z.of_nat k)
      with ((junk_ids + Z.of_nat j) + (Z.of_nat k - Z.of_nat j)) in Heq
      by lia.
    replace (junk_ids + Z.of_nat j)
      with ((junk_ids + Z.of_nat j) + 0) in Heq at 1 by lia.
    apply int_wrap_inj_window in Heq; lia.
Qed.

Lemma identities_increase_until_wrap_witness :
  outcome
    (fun w =>
       exists ca cb,
         heap w !! 1 = Some ca /\ heap w !! 2 = Some cb /\
         client_id ca < client_id cb)
    (fun _ => True)
    (run_ops Sample.returns Sample.ops Sample.created).
Proof.
  eapply outcome_weaken;
    [| |apply (identities_increase_until_wrap Sample.returns Sample.uv_ok
                 1000 [] 0 App.HOST App.PORT App.onclient_connected
                 App.onclient_disconnected App.onclient_msg Sample.created
                 Sample.ops)].
  - intros w [_ H].
    destruct (H 0%nat 1%nat 1 2 eq_refl eq_refl (Nat.lt_0_succ 0))
      as (ca & cb & Ha & Hb & _ & _ & Hlt & _).
    exists ca, cb. split; [exact Ha|]. split; [exact Hb|].
    apply Hlt. unfold INT_MAX. lia.
  - intros w H. exact H.
  - unfold INT_MIN, INT_MAX. lia.
  - exact Sample.created_by_luv_server_create.
  - exact Sample.ops_ok.
Defined.

(** C9, as stated, fails: [luv_server_create] leaves [ids] as the block
    held it; when that is [INT_MAX], the first connection gets [INT_MAX]
    and the second, accepted later, gets [INT_MIN]. *)
Lemma later_identity_smaller_after_wrap :
  exists w0 w ca cb,
    luv_server_create Sample.returns Sample.uv_ok 1000 [] INT_MAX
      App.HOST App.PORT App.onclient_connected App.onclient_disconnected
      App.onclient_msg = Done 1000 w0 /\
    run_ops Sample.returns
      [Connect Sample.uv_ok 0 1 Sample.junk;
       Connect Sample.uv_ok 0 2 Sample.junk] w0 = Done tt w /\
    heap w !! 1 = Some ca /\ heap w !! 2 = Some cb /\
    client_id ca = INT_MAX /\ client_id cb = INT_MIN /\
    ~ client_id ca < client_id cb.
Proof.
  eexists _, _, _, _.
  split; [reflexivity|]. split; [vm_compute; reflexivity|].
  split; [reflexivity|]. split; [reflexivity|].
  split; [reflexivity|]. split; [reflexivity|].
  vm_compute. discriminate.
Qed.

(** ** C1: the invariant of the registry *)

Lemma ops_valid_app l1 l2 h :
  ops_valid (l1 ++ l2) h <->
  ops_valid l1 h /\ ops_valid l2 (foldl (fun h o => record_op o h) h l1).
Proof.
  revert h. induction l1 as [|o l1 IH]; intros h; simpl; [tauto|].
  rewrite IH. tauto.
Qed.

Lemma ops_valid_take l h n : ops_valid l h -> ops_valid (take n l) h.
Proof.
  intros Hvalid. rewrite <- (take_drop n l) in Hvalid.
  by apply ops_valid_app in Hvalid as [Hvalid _].
Qed.

(** C1 (amended). In every run of insertions and removals from the
    creation of the server, nothing runs into undefined behaviour, and
    after each operation (after the first [n], for every [n]): the
    registry is well formed ([num_clients] is at most [MAX_CLIENTS], every
    entry of [clients[0..num_clients)] points to a record that stores its
    own index); its entries are exactly the live connections, each once;
    no two live records share a slot; and, as long as no more than 2^32
    connections have been accepted, no two live records share an identity.
    Should [CHECK] end the process inside an operation, the registry is
    well formed then too. *)
Theorem registry_invariant CHECK_exits uv self junk_clients junk_ids
    host port hc hd hm w0 ops (n : nat) :
  INT_MIN <= junk_ids <= INT_MAX ->
  luv_server_create CHECK_exits uv self junk_clients junk_ids host port
    hc hd hm = Done self w0 ->
  ops_valid ops (History [] []) ->
  outcome
    (fun w =>
       registry_ok w /\
       registry w ≡ₚ live (history_of (take n ops)) /\
       NoDup (registry w) /\
       slots_distinct w /\
       (Z.of_nat (length (accepted (history_of (take n ops)))) <= 2 ^ 32 ->
        ids_distinct w))
    (fun w => registry_ok w /\ NoDup (registry w) /\ slots_distinct w)
    (run_ops CHECK_exits (take n ops) w0).
Proof.
  intros Hint Hcreate Hvalid%(ops_valid_take _ _ n).
  revert Hvalid. generalize (take n ops). clear ops. intros ops Hvalid.
  eapply outcome_weaken;
    [| |apply (run_ops_inv CHECK_exits junk_ids ops (History [] []) w0);
        [by eapply created_inv|done]].
  - intros w Hinv. fold (history_of ops) in Hinv.
    pose proof (inv_ok _ _ _ Hinv) as Hok.
    split_and!; try done.
    + apply (inv_live _ _ _ Hinv).
    + by apply registry_ok_NoDup.
    + by apply registry_ok_slots_distinct.
    + intros Hbound. by eapply run_inv_ids_distinct.
  - intros w [Hok _]. split_and!; try done.
    + by apply registry_ok_NoDup.
    + by apply registry_ok_slots_distinct.
Qed.

Lemma registry_invariant_witness :
  outcome
    (fun w => registry_ok w /\ registry w ≡ₚ [2] /\ ids_distinct w)
    (fun w => registry_ok w)
    (run_ops Sample.returns Sample.ops Sample.created).
Proof.
  eapply outcome_weaken;
    [| |apply (registry_invariant Sample.returns Sample.uv_ok
                 1000 [] 0 App.HOST App.PORT App.onclient_connected
                 App.onclient_disconnected App.onclient_msg Sample.created
                 Sample.ops 3)].
  - intros w (Hok & Hlive & _ & _ & Hids).
    split; [exact Hok|]. split; [exact Hlive|].
    apply Hids. vm_compute. discriminate.
  - intros w (Hok & _). exact Hok.
  - unfold INT_MIN, INT_MAX. lia.
  - exact Sample.created_by_luv_server_create.
  - exact Sample.ops_ok.
Defined.

(** *** A run on which two live records share an identity *)

Module Wrap.

(** One connection comes, at the block [k + 2], and goes. *)
Definition visit (k : nat) : list op :=
  [Connect Sample.uv_ok 0 (Z.of_nat k + 2) Sample.junk;
   Disconnect Sample.uv_ok (Z.of_nat k + 2)].

(** [n] such visits, the first at the block [s + 2]. *)
Definition visits (s n : nat) : list op := flat_map visit (seq s n).

(** A connection that stays, [n] visits, and one more connection. *)
Definition ops (n : nat) : list op :=
  Connect Sample.uv_ok 0 1 Sample.junk
  :: visits 0 n ++ [Connect Sample.uv_ok 0 (Z.of_nat n + 2) Sample.junk].

Lemma visits_history n : forall s acc,
  Forall (fun a => a < Z.of_nat s + 2) acc ->
  ops_valid (visits s n) (History acc [1]) /\
  exists acc',
    foldl (fun h o => record_op o h) (History acc [1]) (visits s n) =
      History (acc ++ acc') [1] /\
    length acc' = n /\
    Forall (fun a => a < Z.of_nat (s + n) + 2) (acc ++ acc').
Proof.
  induction n as [|n IH]; intros s acc Hacc.
  - split; [done|]. exists []. rewrite app_nil_r, Nat.add_0_r. done.
  - unfold visits. cbn [seq flat_map]. fold (visits (S s) n).
    assert (Hfresh : Z.of_nat s + 2 ∉ acc).
    { intros Hin. rewrite Forall_forall in Hacc. apply Hacc in Hin. lia. }
    assert (Hacc' : Forall (fun a => a < Z.of_nat (S s) + 2)
                      (acc ++ [Z.of_nat s + 2])).
    { apply Forall_app. split.
      - eapply Forall_impl; [exact Hacc|]. intros a Ha. simpl in Ha. lia.
      - constructor; [lia|constructor]. }
    destruct (IH (S s) _ Hacc') as (Hvalid & acc' & Hfold & Hlen & Hall).
    assert (Hstep :
      foldl (fun h o => record_op o h) (History acc [1]) (visit s) =
      History (acc ++ [Z.of_nat s + 2]) [1]).
    { simpl. f_equal.
      rewrite filter_cons, decide_True by lia.
      rewrite filter_cons, decide_False by (by intros ?). done. }
    split.
    + apply ops_valid_app. rewrite Hstep. split; [|exact Hvalid].
      simpl. split_and!; try done.
      * intros _. split_and!; [done|unfold NULL; lia|done].
      * right. by left.
    + exists (Z.of_nat s + 2 :: acc').
      rewrite foldl_app, Hstep, Hfold. split_and!.
      * by rewrite <- app_assoc.
      * simpl. by rewrite Hlen.
      * replace (s + S n)%nat with (S s + n)%nat by lia.
        by rewrite <- app_assoc in Hall.
Qed.

Lemma ops_history n :
  ops_valid (ops n) (History [] []) /\
  exists acc,
    history_of (ops n) = History (1 :: acc ++ [Z.of_nat n + 2])
                           [1; Z.of_nat n + 2] /\
    length acc = n.
Proof.
  destruct (visits_history n 0 [1]) as (Hvalid & acc & Hfold & Hlen & Hall).
  { constructor; [lia|constructor]. }
  assert (Hfresh : Z.of_nat n + 2 ∉ [1] ++ acc).
  { intros Hin. rewrite Forall_forall in Hall. apply Hall in Hin. lia. }
  unfold ops, history_of. split.
  - simpl. split.
    + intros _. split_and!; [done|done|apply not_elem_of_nil].
    + apply ops_valid_app. split; [exact Hvalid|].
      rewrite Hfold. simpl. split; [|done].
      intros _. split_and!; [done|unfold NULL; lia|done].
  - exists acc. split; [|done].
    cbn [foldl]. change (record_op _ (History [] [])) with (History [1] [1]).
    rewrite foldl_app, Hfold. simpl. done.
Qed.

(** When the visits and the last connection wrap the counter around, the
    last connection gets the identity of the one that stayed. *)
Lemma shares_identity (n : nat) :
  Z.of_nat n + 1 = 2 ^ 32 ->
  exists w a b ca cb,
    ops_valid (ops n) (History [] []) /\
    run_ops Sample.returns (ops n) Sample.created = Done tt w /\
    a ∈ registry w /\ b ∈ registry w /\ a <> b /\
    heap w !! a = Some ca /\ heap w !! b = Some cb /\
    client_id ca = client_id cb.
Proof.
  intros Hn. destruct (ops_history n) as (Hvalid & acc & Hhist & Hlen).
  pose proof (run_ops_inv Sample.returns 0 (ops n) (History [] [])
                Sample.created) as Hrun.
  fold (history_of (ops n)) in Hrun. rewrite Hhist in Hrun.
  assert (Hc : run_inv 0 (History [] []) Sample.created).
  { eapply created_inv; [|exact Sample.created_by_luv_server_create].
    unfold INT_MIN, INT_MAX. lia. }
  specialize (Hrun Hc Hvalid).
  destruct (run_ops Sample.returns (ops n) Sample.created)
    as [[] w|w|]; simpl in Hrun; [|by destruct Hrun as (_ & ? & ? & ? & ?)|done].
  destruct (inv_id _ _ _ Hrun 0%nat 1 eq_refl) as (ca & Hca & Hida).
  destruct (inv_id _ _ _ Hrun (S n) (Z.of_nat n + 2)) as (cb & Hcb & Hidb).
  { simpl. rewrite lookup_app_r by lia. by rewrite Hlen, Nat.sub_diag. }
  exists w, 1, (Z.of_nat n + 2), ca, cb.
  split_and!; try done.
  - rewrite (inv_live _ _ _ Hrun). simpl. by left.
  - rewrite (inv_live _ _ _ Hrun). simpl. right. by left.
  - lia.
  - rewrite Hida, Hidb.
    replace (0 + Z.of_nat (S n)) with (2 ^ 32) by lia. reflexivity.
Qed.

End Wrap.

(** C1, as stated, fails: after the run [Wrap.ops] with 2^32 - 1 visits,
    which accepts 2^32 + 1 connections, the two live records hold the
    same identity. *)
Lemma identity_shared_after_wrap :
  exists w a b ca cb,
    ops_valid (Wrap.ops (Z.to_nat (2 ^ 32 - 1))) (History [] []) /\
    run_ops Sample.returns (Wrap.ops (Z.to_nat (2 ^ 32 - 1))) Sample.created
      = Done tt w /\
    a ∈ registry w /\ b ∈ registry w /\ a <> b /\
    heap w !! a = Some ca /\ heap w !! b = Some cb /\
    client_id ca = client_id cb.
Proof.
  apply Wrap.shares_identity.
  rewrite Z2Nat.id; [reflexivity|]. discriminate.
Qed.

(** * Further properties of the code *)

(** ** [luv_server_create] *)

(** The events but for the reports of [CHECK]. *)
Definition without_reports (evs : list event) : list event :=
  omap (fun e => match e with Check_failed _ _ => None | _ => Some e end) evs.

(** The three ways [CHECK] takes a result. *)
Lemma check_run_cases CHECK_exits r msg :
  (check_run CHECK_exits r msg = (false, []) /\
   fatal CHECK_exits r msg = false) \/
  (check_run CHECK_exits r msg = (false, [Check_failed msg r]) /\
   fatal CHECK_exits r msg = false) \/
  (check_run CHECK_exits r msg = (true, [Check_failed msg r]) /\
   fatal CHECK_exits r msg = true).
Proof.
  unfold check_run, fatal.
  destruct (decide (r = 0)) as [Hr|Hr].
  - rewrite (bool_decide_eq_true_2 _ Hr). by left.
  - rewrite (bool_decide_eq_false_2 _ Hr).
    destruct (CHECK_exits r msg); simpl; auto.
Qed.

Section Create.

Variable CHECK_exits : Z -> string -> bool.
Variable uv : substrate.

(** What [luv_server_create] adds to the trace. *)
Definition create_run (self : Z) : bool * list event :=
  seq_run
    (seq_run
       (seq_run (false, [Uv_tcp_init self (r_tcp_init uv)])
          (check_run CHECK_exits (r_tcp_init uv) "uv_tcp_init"))
       (seq_run (false, [Uv_ip4_addr (r_ip4_addr uv)])
          (check_run CHECK_exits (r_ip4_addr uv) "uv_ip4_addr")))
    (seq_run (false, [Uv_tcp_bind self (r_tcp_bind uv)])
       (check_run CHECK_exits (r_tcp_bind uv) "uv_tcp_bind")).

Lemma luv_server_create_run self junk_clients junk_ids host port hc hd hm :
  let w0 := World self
              (Server host port (array_of junk_clients) 0 junk_ids hc hd hm)
              ∅ ∅ [] in
  luv_server_create CHECK_exits uv self junk_clients junk_ids host port
    hc hd hm =
  if (create_run self).1 then Exited (extends w0 (create_run self).2)
  else Done self (extends w0 (create_run self).2).
Proof.
  cbv zeta. unfold luv_server_create, create_run, check_run, seq_run.
  unfold bind, CHECK, emit, ret, exit.
  repeat first
    [ case_decide
    | match goal with
      | |- context [CHECK_exits ?r ?m] => destruct (CHECK_exits r m)
      end ];
    reflexivity.
Qed.

End Create.

(** X1.  When the allocation of the server succeeds, [luv_server_create] makes
    its three calls into libuv in the order init, address, bind, and stops
    at the first whose failure [CHECK] takes as fatal: the later calls are
    then not made and no server is returned.  Otherwise it returns the
    block it was given, set up as a server with no client, the given host,
    port and hooks, and with the array and the counter [ids] as the block
    held them. *)
Theorem luv_server_create_outcome CHECK_exits uv self junk_clients junk_ids
    host port hc hd hm :
  self <> NULL ->
  let init := Uv_tcp_init self (r_tcp_init uv) in
  let addr := Uv_ip4_addr (r_ip4_addr uv) in
  let bnd := Uv_tcp_bind self (r_tcp_bind uv) in
  let f1 := fatal CHECK_exits (r_tcp_init uv) "uv_tcp_init" in
  let f2 := fatal CHECK_exits (r_ip4_addr uv) "uv_ip4_addr" in
  let f3 := fatal CHECK_exits (r_tcp_bind uv) "uv_tcp_bind" in
  match luv_server_create CHECK_exits uv self junk_clients junk_ids host port
          hc hd hm with
  | Done p w =>
      f1 = false /\ f2 = false /\ f3 = false /\
      p = self /\ srv_ptr w = self /\
      srv w = Server host port (array_of junk_clients) 0 junk_ids hc hd hm /\
      registry w = [] /\ heap w = ∅ /\ bufs w = ∅ /\
      without_reports (trace w) = [init; addr; bnd]
  | Exited w =>
      (f1 = true /\ without_reports (trace w) = [init]) \/
      (f1 = false /\ f2 = true /\ without_reports (trace w) = [init; addr]) \/
      (f1 = false /\ f2 = false /\ f3 = true /\
       without_reports (trace w) = [init; addr; bnd])
  | Undefined => False
  end.
Proof.
  intros _. cbv zeta. rewrite luv_server_create_run. cbv zeta.
  unfold create_run.
  destruct (check_run_cases CHECK_exits (r_tcp_init uv) "uv_tcp_init")
    as [[-> ->]|[[-> ->]|[-> ->]]];
    destruct (check_run_cases CHECK_exits (r_ip4_addr uv) "uv_ip4_addr")
      as [[-> ->]|[[-> ->]|[-> ->]]];
    destruct (check_run_cases CHECK_exits (r_tcp_bind uv) "uv_tcp_bind")
      as [[-> ->]|[[-> ->]|[-> ->]]];
    cbn;
    first [ by split_and! | by left | by (right; left) | by (right; right) ].
Qed.

Lemma luv_server_create_outcome_witness :
  match luv_server_create Sample.exits Sample.uv_ok 1000 [7; 8] 41
          App.HOST App.PORT App.onclient_connected
          App.onclient_disconnected App.onclient_msg with
  | Done p w =>
      fatal Sample.exits (r_tcp_init Sample.uv_ok) "uv_tcp_init" = false /\
      fatal Sample.exits (r_ip4_addr Sample.uv_ok) "uv_ip4_addr" = false /\
      fatal Sample.exits (r_tcp_bind Sample.uv_ok) "uv_tcp_bind" = false /\
      p = 1000 /\ srv_ptr w = 1000 /\
      srv w = Server App.HOST App.PORT (array_of [7; 8]) 0 41
                App.onclient_connected App.onclient_disconnected
                App.onclient_msg /\
      registry w = [] /\ heap w = ∅ /\ bufs w = ∅ /\
      without_reports (trace w) =
        [Uv_tcp_init 1000 (r_tcp_init Sample.uv_ok);
         Uv_ip4_addr (r_ip4_addr Sample.uv_ok);
         Uv_tcp_bind 1000 (r_tcp_bind Sample.uv_ok)]
  | Exited w =>
      (fatal Sample.exits (r_tcp_init Sample.uv_ok) "uv_tcp_init" = true /\
       without_reports (trace w) =
         [Uv_tcp_init 1000 (r_tcp_init Sample.uv_ok)]) \/
      (fatal Sample.exits (r_tcp_init Sample.uv_ok) "uv_tcp_init" = false /\
       fatal Sample.exits (r_ip4_addr Sample.uv_ok) "uv_ip4_addr" = true /\
       without_reports (trace w) =
         [Uv_tcp_init 1000 (r_tcp_init Sample.uv_ok);
          Uv_ip4_addr (r_ip4_addr Sample.uv_ok)]) \/
      (fatal Sample.exits (r_tcp_init Sample.uv_ok) "uv_tcp_init" = false /\
       fatal Sample.exits (r_ip4_addr Sample.uv_ok) "uv_ip4_addr" = false /\
       fatal Sample.exits (r_tcp_bind Sample.uv_ok) "uv_tcp_bind" = true /\
       without_reports (trace w) =
         [Uv_tcp_init 1000 (r_tcp_init Sample.uv_ok);
          Uv_ip4_addr (r_ip4_addr Sample.uv_ok);
          Uv_tcp_bind 1000 (r_tcp_bind Sample.uv_ok)])
  | Undefined => False
  end.
Proof.
  apply (luv_server_create_outcome Sample.exits Sample.uv_ok 1000 [7; 8] 41).
  discriminate.
Defined.

(** ** [luv_server_broadcast] in any state *)

(** What a broadcast of the first [len] bytes of [msg] may add to the trace
    when the array of the server is [a]: warnings, reports of [CHECK], and
    writes of those bytes to entries of [a] that are not null. *)
Definition broadcast_event (msg : string) (len : Z) (a : list Z) (e : event)
    : Prop :=
  match e with
  | Uv_write h text n _ =>
      text = msg /\ n = uint_wrap len /\ h ∈ a /\ h <> NULL
  | Log Warn _ _ | Check_failed _ _ => True
  | _ => False
  end.

(** [only_adds P w r]: the result [r] of a computation started in [w], if
    the computation did not run into undefined behaviour, is [w] with events
    that satisfy [P] added to its trace. *)
Definition only_adds {A : Type} (P : event -> Prop) (w : world)
    (r : result A) : Prop :=
  ends_in (fun w' => exists evs, w' = extends w evs /\ Forall P evs) r.

Lemma only_adds_more {A : Type} (P : event -> Prop) w e1 (r : result A) :
  Forall P e1 -> only_adds P (extends w e1) r -> only_adds P w r.
Proof.
  intros H1. unfold only_adds.
  destruct r as [a w'|w'|]; simpl; [..|done];
    intros (e2 & -> & H2); exists (e1 ++ e2);
    (split; [by rewrite extends_extends|by apply Forall_app]).
Qed.

Lemma broadcast_loop_only_adds CHECK_exits uv self msg len n : forall i w,
  only_adds (broadcast_event msg len (clients (srv w))) w
    (broadcast_loop CHECK_exits uv self msg len i n w).
Proof.
  induction n as [|n IH]; intros i w; simpl.
  - exists []. by rewrite extends_nil.
  - unfold bind at 1. unfold load_server.
    case_decide as Hself; [|done].
    unfold bind at 1. unfold array_get.
    case_decide as Hi; [|done].
    destruct (clients (srv w) !! Z.to_nat i) as [client|] eqn:Hc; [|done].
    assert (Hin : client ∈ clients (srv w))
      by by eapply list_elem_of_lookup_2.
    unfold bind at 1. case_decide as Hnull.
    + unfold log_warn, emit.
      eapply only_adds_more; [|apply (IH _ (extends w [_]))].
      by repeat constructor.
    + unfold bind at 1. unfold uv_write, bind at 1, emit, ret.
      rewrite CHECK_run. unfold finish at 1.
      set (wr := Uv_write client msg _ _).
      assert (Hwr : broadcast_event msg len (clients (srv w)) wr) by done.
      change (set_trace (trace w ++ [wr]) w) with (extends w [wr]).
      case_decide as Hr; simpl; rewrite ?extends_extends.
      * eapply only_adds_more; [|apply (IH _ (extends w _))].
           by repeat constructor.
      * destruct (CHECK_exits _ _); simpl.
        -- eexists. split; [done|]. by repeat constructor.
        -- eapply only_adds_more; [|apply (IH _ (extends w _))].
           by repeat constructor.
Qed.

(** X2.  Whatever the state of the server and whatever [CHECK] does, a call of
    [luv_server_broadcast] that does not run into undefined behaviour
    changes nothing but the trace (not the count, the array, a record or a
    buffer), calls no hook, and writes nothing but [msg], its length taken
    through [int] and [unsigned int], and only to entries of the array that
    are not null. *)
Theorem broadcast_only_writes CHECK_exits uv self msg w :
  only_adds
    (broadcast_event msg (int_wrap (strlen msg)) (clients (srv w))) w
    (luv_server_broadcast CHECK_exits uv self msg w).
Proof.
  unfold luv_server_broadcast. unfold bind at 1. unfold load_server.
  case_decide; [|done]. apply broadcast_loop_only_adds.
Qed.

(** ** The buffer of a message *)

(** The calls of a message hook but for those of the responder. *)
Definition app_calls_of (l : list msg_call) : list app_call :=
  omap (fun a => match a with msg_app a' => Some a' | _ => None end) l.

Lemma run_msg_no_response CHECK_exits uv self msg l :
  (forall r, msg_respond r ∉ l) ->
  run_msg CHECK_exits uv self msg l =
  run_app CHECK_exits uv self (app_calls_of l).
Proof.
  induction l as [|a l IH]; intros Hno; [done|].
  destruct a as [a|r]; [|by destruct (Hno r); left].
  simpl. rewrite IH; [done|]. intros r Hin. apply (Hno r). by right.
Qed.

(** X4.  [read_cb] on a read of [nread > 0] bytes hands the message (the buffer,
    the count, the connection) to the message hook, once.  When the hook
    does not call the responder, all that is added to the trace after the
    call of the hook are log lines, writes and reports of [CHECK]: the
    buffer is not released, by [read_cb] or by anything it calls, and is
    still allocated in the world [read_cb] ends in. *)
Theorem unanswered_message_keeps_buffer CHECK_exits uv w stream c nread buf :
  length (clients (srv w)) = Z.to_nat MAX_CLIENTS ->
  num_clients (srv w) <= MAX_CLIENTS ->
  heap w !! stream = Some c -> client_server c = srv_ptr w ->
  0 < nread ->
  (forall r,
     msg_respond r ∉
       onclient_msg (srv w) (Msg (base buf) nread stream)
         (default EmptyString (bufs w !! base buf)) c) ->
  exists x evs w',
    read_cb CHECK_exits uv stream nread buf w =
      finish (x, Hook_msg (Msg (base buf) nread stream) :: evs) w /\
    Forall app_event evs /\
    world_of (read_cb CHECK_exits uv stream nread buf w) = Some w' /\
    bufs w' = bufs w /\ srv w' = srv w /\ heap w' = heap w.
Proof.
  intros Hlen Hn Hc Hsrv Hread Hno.
  set (msg := Msg (base buf) nread stream) in *.
  set (l := app_calls_of
              (onclient_msg (srv w) msg
                 (default EmptyString (bufs w !! base buf)) c)).
  set (run := app_run CHECK_exits uv (registry w) l).
  assert (Hrun : read_cb CHECK_exits uv stream nread buf w =
                 finish (run.1, Hook_msg msg :: run.2) w).
  { unfold read_cb. erewrite bind_done by by apply load_client_done.
    rewrite decide_False by lia. rewrite decide_False by lia.
    erewrite bind_done by by apply load_server_done.
    unfold call_msg. erewrite bind_done by by apply load_client_done.
    erewrite bind_done by reflexivity. fold msg.
    rewrite run_msg_no_response by done. fold l. rewrite Hsrv.
    change (finish (run.1, Hook_msg msg :: run.2) w)
      with (finish (seq_run (false, [Hook_msg msg]) run) w).
    apply finish_seq; [apply emit_run|]. intros _.
    by apply (run_app_run CHECK_exits uv l (extends w _)). }
  exists run.1, run.2, (extends w (Hook_msg msg :: run.2)).
  split_and!; try done.
  - apply app_run_app_event.
  - rewrite Hrun. unfold finish. simpl. by destruct run.1.
Qed.

Lemma unanswered_message_keeps_buffer_witness :
  exists x evs w',
    read_cb Sample.returns Sample.uv_ok 2 2 (Buf 500 65536)
      (set_srv
         (Server App.HOST App.PORT [1; 2; 3; 0; 0] 3 3
            App.onclient_connected App.onclient_disconnected
            (fun _ _ _ => [msg_app (app_broadcast "go on")]))
         Sample.three) =
      finish (x, Hook_msg (Msg 500 2 2) :: evs)
        (set_srv
           (Server App.HOST App.PORT [1; 2; 3; 0; 0] 3 3
              App.onclient_connected App.onclient_disconnected
              (fun _ _ _ => [msg_app (app_broadcast "go on")]))
           Sample.three) /\
    Forall app_event evs /\
    world_of
      (read_cb Sample.returns Sample.uv_ok 2 2 (Buf 500 65536)
         (set_srv
            (Server App.HOST App.PORT [1; 2; 3; 0; 0] 3 3
               App.onclient_connected App.onclient_disconnected
               (fun _ _ _ => [msg_app (app_broadcast "go on")]))
            Sample.three)) = Some w' /\
    bufs w' !! 500 = Some "go"%string.
Proof.
  destruct (unanswered_message_keeps_buffer Sample.returns Sample.uv_ok
              (set_srv
                 (Server App.HOST App.PORT [1; 2; 3; 0; 0] 3 3
                    App.onclient_connected App.onclient_disconnected
                    (fun _ _ _ => [msg_app (app_broadcast "go on")]))
                 Sample.three)
              2 (Client 1 1 1000) 2 (Buf 500 65536))
    as (x & evs & w' & Hrun & Hev & Hw & Hb & _).
  - reflexivity.
  - vm_compute. discriminate.
  - reflexivity.
  - reflexivity.
  - lia.
  - intros r Hin. apply list_elem_of_singleton in Hin. discriminate.
  - exists x, evs, w'. split; [exact Hrun|]. split; [exact Hev|].
    split; [exact Hw|]. rewrite Hb. reflexivity.
Defined.

(** [read_cb] on a read of [nread > 0] bytes when the message hook logs a
    line and calls the responder once. *)
Lemma read_cb_logs_and_responds CHECK_exits uv w stream c nread buf fmt args
    response :
  heap w !! stream = Some c -> client_server c = srv_ptr w ->
  0 < nread -> buffer_held (base buf) w ->
  onclient_msg (srv w) (Msg (base buf) nread stream)
    (default EmptyString (bufs w !! base buf)) c =
    [msg_app (app_log fmt args); msg_respond response] ->
  read_cb CHECK_exits uv stream nread buf w =
    Done tt
      (extends (release (base buf) w)
         [Hook_msg (Msg (base buf) nread stream);
          Log Info fmt args;
          Uv_write stream response (uint_wrap (int_wrap (strlen response)))
            (r_write uv stream);
          Free (base buf)]).
Proof.
  intros Hc Hsrv Hread Hbuf Hhook.
  unfold read_cb. erewrite bind_done by by apply load_client_done.
  rewrite decide_False by lia. rewrite decide_False by lia.
  erewrite bind_done by by apply load_server_done.
  unfold call_msg. erewrite bind_done by by apply load_client_done.
  erewrite bind_done by reflexivity.
  cbn [msg_buf]. rewrite Hhook.
  cbn [run_msg run_msg_call run_app_call].
  unfold onclient_msg_processed, uv_write, log_info, bind, emit, ret.
  cbn [msg_client msg_buf].
  rewrite free_done by (destruct Hbuf; [by left|by right]).
  unfold release. case_decide; unfold extends, set_trace; simpl;
    by rewrite <- !app_assoc.
Qed.

(** X5.  With the message hook of the file, lines 260-263: a read of
    [nread > 0] bytes from a connection is logged with the bytes of the
    buffer and the identity of the sender, answered with one write of the 16
    bytes of "RaceTrack: WRONG" to the sender and to nobody else, and the
    buffer is then released.  The result of the write is not looked at: the
    callback returns whether or not the write failed. *)
Theorem app_message_answered CHECK_exits uv w stream c nread buf bytes :
  heap w !! stream = Some c -> client_server c = srv_ptr w ->
  onclient_msg (srv w) = App.onclient_msg ->
  0 < nread -> bufs w !! base buf = Some bytes ->
  read_cb CHECK_exits uv stream nread buf w =
    Done tt
      (extends (release (base buf) w)
         [Hook_msg (Msg (base buf) nread stream);
          Log Info "Got message %s from client %d"
            [arg_str bytes; arg_int (client_id c)];
          Uv_write stream "RaceTrack: WRONG" 16 (r_write uv stream);
          Free (base buf)]).
Proof.
  intros Hc Hsrv Hhook Hread Hbuf.
  rewrite (read_cb_logs_and_responds CHECK_exits uv w stream c nread buf
             "Got message %s from client %d"
             [arg_str bytes; arg_int (client_id c)] "RaceTrack: WRONG");
    try done.
  - right. by eexists.
  - by rewrite Hhook, Hbuf.
Qed.

Lemma app_message_answered_witness :
  read_cb Sample.returns Sample.uv_ok 2 2 (Buf 500 65536) Sample.three =
    Done tt
      (extends (release 500 Sample.three)
         [Hook_msg (Msg 500 2 2);
          Log Info "Got message %s from client %d" [arg_str "go"; arg_int 1];
          Uv_write 2 "RaceTrack: WRONG" 16 0;
          Free 500]).
Proof.
  apply (app_message_answered Sample.returns Sample.uv_ok Sample.three 2
           (Client 1 1 1000) 2 (Buf 500 65536) "go").
  - reflexivity.
  - reflexivity.
  - reflexivity.
  - lia.
  - reflexivity.
Defined.

(** ** The buffer of a read *)


(** X6.  [alloc_cb] hands out the block [malloc] returned with the size asked
    for: [base] is the pointer and [len] is [size], also when the
    allocation failed and the pointer is null, in which case the failure is
    logged and [len] is not set to zero.  A read of zero bytes that comes
    back with that buffer releases it again: the two callbacks in a row
    leave the buffers as they were, and the release of the null pointer
    does nothing. *)
Theorem alloc_then_empty_read CHECK_exits uv w stream c size p junk :
  heap w !! stream = Some c -> bufs w !! p = None ->
  exists b wa,
    alloc_cb size p junk w = Done b wa /\
    base b = p /\ len b = size /\
    wa = (if decide (p = NULL)
          then extends w
                 [Log Error "alloc_cb buffer didn't properly initialize" []]
          else set_bufs (<[p := junk]> (bufs w)) w) /\
    read_cb CHECK_exits uv stream 0 b wa =
      Done tt (extends (set_bufs (bufs w) wa) [Free p]) /\
    (do b <- alloc_cb size p junk; read_cb CHECK_exits uv stream 0 b) w =
      Done tt
        (extends w
           (if decide (p = NULL)
            then [Log Error "alloc_cb buffer didn't properly initialize" [];
                  Free NULL]
            else [Free p])).
Proof.
  intros Hc Hp.
  exists (Buf p size),
    (if decide (p = NULL)
     then extends w
            [Log Error "alloc_cb buffer didn't properly initialize" []]
     else set_bufs (<[p := junk]> (bufs w)) w).
  split_and!.
  - unfold alloc_cb, log_error, bind, emit, ret.
    destruct (decide (p = NULL)); reflexivity.
  - reflexivity.
  - reflexivity.
  - reflexivity.
  - unfold read_cb, bind, ret.
    destruct (decide (p = NULL)) as [->|Hnull]; simpl.
    + unfold load_client. simpl. rewrite Hc.
      unfold free. rewrite decide_True by done.
      unfold extends, set_trace. by destruct w.
    + unfold load_client. simpl. rewrite Hc.
      unfold free. rewrite decide_False by done. simpl.
      rewrite lookup_insert_eq. rewrite delete_insert_id by done.
      by destruct w.
  - unfold alloc_cb, read_cb, log_error, bind, emit, ret.
    destruct (decide (p = NULL)) as [->|Hnull]; simpl.
    + unfold load_client. simpl. rewrite Hc.
      unfold free. rewrite decide_True by done.
      unfold extends, set_trace. simpl. by rewrite <- app_assoc.
    + unfold load_client. simpl. rewrite Hc.
      unfold free. rewrite decide_False by done. simpl.
      rewrite lookup_insert_eq. rewrite delete_insert_id by done.
      by destruct w.
Qed.

Lemma alloc_then_empty_read_witness :
  exists b wa,
    alloc_cb 65536 NULL "" Sample.three = Done b wa /\
    base b = NULL /\ len b = 65536 /\
    read_cb Sample.returns Sample.uv_ok 2 0 b wa =
      Done tt (extends (set_bufs (bufs Sample.three) wa) [Free NULL]) /\
    bufs wa = bufs Sample.three.
Proof.
  destruct (alloc_then_empty_read Sample.returns Sample.uv_ok Sample.three 2
              (Client 1 1 1000) 65536 NULL ""%string)
    as (b & wa & Hrun & Hbase & Hlen & Hwa & Hread & _).
  - reflexivity.
  - reflexivity.
  - exists b, wa. split; [exact Hrun|]. split; [exact Hbase|].
    split; [exact Hlen|]. split; [exact Hread|]. by rewrite Hwa.
Defined.

(** ** The application of the file *)

Lemma registry_ok_not_null w h :
  registry_ok w -> h ∈ registry w -> h <> NULL.
Proof.
  intros Hok [i Hi]%list_elem_of_lookup ->.
  destruct (ok_slot w Hok i NULL Hi) as (c & Hc & _).
  by rewrite (ok_null w Hok) in Hc.
Qed.

(** The loop of a broadcast over entries none of which is null and each of
    whose writes succeeds: one write each, in order. *)
Lemma loop_run_all_written CHECK_exits uv msg len l : forall i,
  (forall h, h ∈ l -> h <> NULL /\ r_write uv h = 0) ->
  loop_run CHECK_exits uv msg len i l =
  (false, map (fun h => Uv_write h msg (uint_wrap len) 0) l).
Proof.
  induction l as [|c l IH]; intros i Hl; [done|].
  destruct (Hl c) as [Hc Hr]; [by left|].
  cbn [loop_run map]. rewrite decide_False by done.
  rewrite Hr. rewrite decide_True by done.
  rewrite IH; [done|]. intros h Hh. apply Hl. by right.
Qed.

(** X7.  With the connect hook of the file, lines 250-253, and every call into
    libuv succeeding: a connection accepted when [n] clients are connected
    is announced in the log with the total [n + 1], and the 15 bytes of the
    welcome are written once to each client, in the order of the array,
    the newcomer last; only then are the reads of the newcomer started. *)
Theorem app_welcomes_everyone CHECK_exits uv w blk junk :
  registry_ok w -> num_clients (srv w) < MAX_CLIENTS -> blk <> NULL ->
  onclient_connected (srv w) = App.onclient_connected ->
  r_tcp_init uv = 0 -> r_accept uv = 0 -> r_read_start uv = 0 ->
  (forall h, h ∈ registry w ++ [blk] -> r_write uv h = 0) ->
  onconnection CHECK_exits uv (srv_ptr w) 0 blk junk w =
    Done tt
      (extends (register blk w)
         ([Log Info "Accepting Connection" [];
           Uv_tcp_init blk 0; Uv_accept blk 0;
           Hook_connected blk (num_clients (srv w) + 1);
           Log Info "New player, %d total now."
             [arg_int (num_clients (srv w) + 1)]] ++
          map (fun h => Uv_write h "Welcome player
" 15 0) (registry w ++ [blk]) ++
          [Uv_read_start blk 0])).
Proof.
  intros Hok Hn Hblk Hhook Hinit Hacc Hread Hwrite.
  pose proof (ok_count w Hok) as Hcount. pose proof (ok_length w Hok) as Hlen.
  rewrite onconnection_accepted by (done || lia).
  unfold entry_run, accept_run, check_run. rewrite Hinit, Hacc.
  unfold then_run. simpl.
  pose proof (register_after_malloc w blk junk
                [Log Info "Accepting Connection" []]
                [Uv_tcp_init blk 0; Uv_accept blk 0]) as Hreg.
  rewrite heap_extends in Hreg. rewrite Hreg. clear Hreg. simpl app.
  unfold connected_run, call_connected_run, check_run.
  rewrite Hread. rewrite decide_True by done.
  change (onclient_connected (srv (extends (register blk w) _)))
    with (onclient_connected (srv w)).
  rewrite Hhook. unfold App.onclient_connected.
  cbn [app_run app_call_run]. autorewrite with world.
  rewrite register_registry by (done || lia).
  rewrite loop_run_all_written.
  2:{ intros h Hh. split; [|by apply Hwrite].
      apply elem_of_app in Hh as [Hh|Hh%list_elem_of_singleton].
      - by apply (registry_ok_not_null w).
      - by subst. }
  unfold finish, seq_run. simpl. rewrite extends_extends.
  do 2 f_equal. simpl. by rewrite !app_nil_r.
Qed.

Lemma app_welcomes_everyone_witness :
  onconnection Sample.returns Sample.uv_ok (srv_ptr Sample.three) 0 4
    Sample.junk Sample.three =
    Done tt
      (extends (register 4 Sample.three)
         ([Log Info "Accepting Connection" [];
           Uv_tcp_init 4 0; Uv_accept 4 0;
           Hook_connected 4 (num_clients (srv Sample.three) + 1);
           Log Info "New player, %d total now."
             [arg_int (num_clients (srv Sample.three) + 1)]] ++
          map (fun h => Uv_write h "Welcome player
" 15 0) (registry Sample.three ++ [4]) ++
          [Uv_read_start 4 0])).
Proof.
  apply (app_welcomes_everyone Sample.returns Sample.uv_ok Sample.three 4
           Sample.junk).
  - exact Sample.three_ok.
  - reflexivity.
  - discriminate.
  - reflexivity.
  - reflexivity.
  - reflexivity.
  - reflexivity.
  - intros h _. reflexivity.
Defined.

(** X8.  With the disconnect hook of the file, lines 255-258, and every call
    into libuv succeeding: the disconnection of a live record is announced
    in the log with the identity of the record and the total that remains,
    and the 15 bytes of the notice are written once to each client that
    remains, in the order of the array after the removal, and not to the
    one that left; the shutdown of the record is requested last. *)
Theorem app_announces_departure CHECK_exits uv w client (i : nat) c :
  registry_ok w -> registry w !! i = Some client ->
  heap w !! client = Some c ->
  onclient_disconnected (srv w) = App.onclient_disconnected ->
  r_shutdown uv = 0 ->
  (forall h, h ∈ registry w -> r_write uv h = 0) ->
  let w1 := unregister client w in
  disconnect CHECK_exits uv client w =
    Done tt
      (extends w1
         ([Hook_disconnected client (num_clients (srv w) - 1);
           Log Info "Player %d quit, %d total now."
             [arg_int (client_id c); arg_int (num_clients (srv w) - 1)]] ++
          map (fun h => Uv_write h "Player quit :(
" 15 0) (registry w1) ++
          [Uv_shutdown client 0])) /\
  (forall h, h ∈ registry w1 <-> h ∈ registry w /\ h <> client).
Proof.
  intros Hok Hi Hc Hhook Hshut Hwrite w1.
  assert (Hok1 : registry_ok w1) by by eapply unregister_ok.
  assert (Hin : forall h, h ∈ registry w1 <-> h ∈ registry w /\ h <> client)
    by (intros h; by eapply unregister_elem_of).
  split; [|exact Hin].
  rewrite (disconnect_eq CHECK_exits uv w client i c) by done. fold w1.
  unfold disconnect_run, call_disconnected_run, check_run.
  rewrite Hshut. rewrite decide_True by done.
  destruct (unregister_frame w client) as (_ & _ & _ & _ & _ & Hd & _).
  fold w1 in Hd. rewrite Hd, Hhook. unfold App.onclient_disconnected.
  cbn [app_run app_call_run].
  rewrite loop_run_all_written.
  2:{ intros h Hh. split; [by eapply registry_ok_not_null|].
      apply Hwrite. by apply Hin in Hh as [Hh _]. }
  subst w1. rewrite (unregister_num_clients w client i) by done.
  unfold finish, seq_run. simpl. do 2 f_equal. by rewrite !app_nil_r.
Qed.

Lemma app_announces_departure_witness :
  disconnect Sample.returns Sample.uv_ok 1 Sample.three =
    Done tt
      (extends (unregister 1 Sample.three)
         [Hook_disconnected 1 2;
          Log Info "Player %d quit, %d total now." [arg_int 0; arg_int 2];
          Uv_write 3 "Player quit :(
" 15 0;
          Uv_write 2 "Player quit :(
" 15 0;
          Uv_shutdown 1 0]).
Proof.
  apply (app_announces_departure Sample.returns Sample.uv_ok Sample.three 1
           0 (Client 0 0 1000)).
  - exact Sample.three_ok.
  - reflexivity.
  - reflexivity.
  - reflexivity.
  - reflexivity.
  - intros h _. reflexivity.
Defined.

(** ** A connection that comes and goes *)

Lemma fresh_block_not_registered w blk :
  registry_ok w -> heap w !! blk = None -> blk ∉ registry w.
Proof.
  intros Hok Hblk [i Hi]%list_elem_of_lookup.
  destruct (ok_slot w Hok i blk Hi) as (c & Hc & _). by rewrite Hblk in Hc.
Qed.

(** The removal of the record that was just inserted undoes the
    insertion. *)
Lemma unregister_register w blk :
  registry_ok w -> num_clients (srv w) < MAX_CLIENTS ->
  blk <> NULL -> blk ∉ registry w ->
  let w' := unregister blk (register blk w) in
  registry_ok w' /\ registry w' = registry w /\
  num_clients (srv w') = num_clients (srv w) /\
  ids (srv w') = int_wrap (ids (srv w) + 1) /\
  (forall a, a <> blk -> heap w' !! a = heap w !! a).
Proof.
  intros Hok Hn Hblk Hfresh w'.
  pose proof (ok_count w Hok) as Hcount. pose proof (ok_length w Hok) as Hlen.
  assert (Hok1 : registry_ok (register blk w)) by by apply register_ok.
  assert (Hi : registry (register blk w)
                 !! Z.to_nat (num_clients (srv w)) = Some blk).
  { rewrite register_registry by (done || lia).
    rewrite lookup_app_r;
      [|pose proof (registry_length w Hok); lia].
    replace (Z.to_nat (num_clients (srv w)) - length (registry w))%nat
      with 0%nat by (pose proof (registry_length w Hok); lia).
    done. }
  assert (Heq : w' = set_srv (with_num_clients (num_clients (srv w))
                                (srv (register blk w))) (register blk w)).
  { subst w'.
    rewrite (unregister_last _ blk (Z.to_nat (num_clients (srv w))))
      by (done || (simpl; lia)).
    simpl. do 2 f_equal. lia. }
  split_and!.
  - by eapply unregister_ok.
  - rewrite Heq. unfold registry. simpl. unfold MAX_CLIENTS in *.
    by rewrite take_insert_ge by lia.
  - by rewrite Heq.
  - by rewrite Heq.
  - intros a Ha. rewrite Heq. simpl. by rewrite lookup_insert_ne.
Qed.

(** X9.  A connection accepted into a block that was not in use and then
    disconnected leaves the registry as it was before the two: the same
    entries in the same order, the same count, every other record
    untouched.  What does not come back is the identity: the counter [ids]
    is one further. *)
Theorem connect_then_disconnect CHECK_exits uv uv' w status blk junk :
  registry_ok w -> num_clients (srv w) < MAX_CLIENTS ->
  blk <> NULL -> heap w !! blk = None -> r_accept uv = 0 ->
  outcome
    (fun w' =>
       registry_ok w' /\ registry w' = registry w /\
       num_clients (srv w') = num_clients (srv w) /\
       ids (srv w') = int_wrap (ids (srv w) + 1) /\
       (forall a, a <> blk -> heap w' !! a = heap w !! a))
    (fun _ => may_exit CHECK_exits)
    ((onconnection CHECK_exits uv (srv_ptr w) status blk junk >>
      disconnect CHECK_exits uv' blk) w).
Proof.
  intros Hok Hn Hblk Hheap Hacc.
  pose proof (ok_count w Hok) as Hcount. pose proof (ok_length w Hok) as Hlen.
  assert (Hfresh : blk ∉ registry w)
    by by apply fresh_block_not_registered.
  destruct (unregister_register w blk Hok Hn Hblk Hfresh)
    as (Hok' & Hreg' & Hnum' & Hids' & Hheap').
  unfold bind. rewrite onconnection_accepted by (done || lia).
  unfold then_run.
  destruct (entry_run CHECK_exits status) as [[] e1] eqn:He1; simpl.
  { eapply entry_run_exit. by rewrite He1. }
  destruct (accept_run CHECK_exits uv blk) as [[] e2] eqn:He2; simpl.
  { eapply accept_run_exit. by rewrite He2. }
  pose proof (register_after_malloc w blk junk e1 e2) as Hreg.
  rewrite heap_extends in Hreg. rewrite Hreg. clear Hreg.
  set (c := Client (ids (srv w)) (num_clients (srv w)) (srv_ptr w)).
  destruct (connected_run CHECK_exits uv blk c (extends (register blk w) _))
    as [[] e3] eqn:He3; unfold finish; simpl.
  { eapply connected_run_exit. by rewrite He3. }
  rewrite extends_extends.
  rewrite (disconnect_eq CHECK_exits uv' _ blk
             (Z.to_nat (num_clients (srv w))) c).
  - rewrite unregister_extends. apply outcome_finish.
    + intros _. rewrite extends_extends. split_and!; try done.
      by apply registry_ok_extends.
    + apply disconnect_run_exit.
  - apply registry_ok_extends. by apply register_ok.
  - autorewrite with world. rewrite register_registry by (done || lia).
    rewrite lookup_app_r;
      [|pose proof (registry_length w Hok); lia].
    replace (Z.to_nat (num_clients (srv w)) - length (registry w))%nat
      with 0%nat by (pose proof (registry_length w Hok); lia).
    done.
  - autorewrite with world. apply register_heap_new.
Qed.

Lemma connect_then_disconnect_witness :
  outcome
    (fun w' =>
       registry w' = [1; 2; 3] /\ num_clients (srv w') = 3 /\
       ids (srv w') = 4)
    (fun _ => may_exit Sample.returns)
    ((onconnection Sample.returns Sample.uv_ok (srv_ptr Sample.three) 0 4
        Sample.junk >>
      disconnect Sample.returns Sample.uv_ok 4) Sample.three).
Proof.
  eapply outcome_weaken;
    [| |apply (connect_then_disconnect Sample.returns Sample.uv_ok
                 Sample.uv_ok Sample.three 0 4 Sample.junk)].
  - intros w' (_ & Hreg & Hnum & Hids & _).
    split; [exact Hreg|]. split; [exact Hnum|exact Hids].
  - intros w' H. exact H.
  - exact Sample.three_ok.
  - reflexivity.
  - discriminate.
  - reflexivity.
  - reflexivity.
Defined.

(** ** A failed allocation *)

(** The computation does not return. *)
Definition never_returns {A : Type} (r : result A) : Prop :=
  match r with
  | Done _ _ => False
  | Exited _ | Undefined => True
  end.

(** X10.  [onconnection] does not test what [malloc] returns (line 106).  When
    the server has room and the allocation of the record fails, it hands
    the null pointer on as the record: the callback does not return, it
    reads or writes through the null pointer (or [CHECK] ends the process
    before that). *)
Theorem onconnection_allocation_failure CHECK_exits uv w tcp status junk :
  num_clients (srv w) <> MAX_CLIENTS -> heap w !! NULL = None ->
  never_returns (onconnection CHECK_exits uv tcp status NULL junk w).
Proof.
  intros Hroom Hnull. unfold onconnection.
  erewrite then_run_bind by apply CHECK_check_run.
  unfold then_run. destruct (check_run CHECK_exits status _).1; [done|].
  erewrite then_run_bind by apply emit_run.
  unfold then_run. cbn [fst snd].
  unfold bind at 1. unfold load_server at 1.
  case_decide as Htcp; [|done]. autorewrite with world.
  rewrite decide_False by done.
  unfold bind at 1. unfold malloc_client. rewrite decide_True by done.
  rewrite (then_run_bind _ _ (accept_run CHECK_exits uv NULL)).
  2:{ unfold accept_run.
      apply finish_seq; [|intros _; apply emit_run].
      apply finish_seq; [apply emit_run|intros _; apply CHECK_check_run]. }
  unfold then_run. destruct (accept_run CHECK_exits uv NULL).1; [done|].
  case_decide as Hacc.
  - unfold bind at 1. unfold log_error, emit.
    unfold disconnect. unfold bind at 1. unfold load_client.
    autorewrite with world. by rewrite Hnull.
  - unfold bind at 1. unfold load_server at 1.
    case_decide; [|done].
    unfold bind at 1. unfold array_set.
    repeat (case_decide; [|done]).
    unfold bind at 1. unfold store_server at 1.
    case_decide; [|done].
    unfold bind at 1. unfold load_client at 1.
    autorewrite with world. by rewrite Hnull.
Qed.

Lemma onconnection_allocation_failure_witness :
  never_returns
    (onconnection Sample.returns Sample.uv_ok 1000 0 NULL Sample.junk
       Sample.three).
Proof.
  apply (onconnection_allocation_failure Sample.returns Sample.uv_ok
           Sample.three 1000 0 Sample.junk).
  - discriminate.
  - reflexivity.
Defined.

(** ** Room after a removal *)

(** X11.  The capacity bounds the connections that are live, not those ever
    accepted: on a full server, once a live record is disconnected, the
    next connection whose accept succeeds is registered, at the end of the
    live part of the array, and the server is full again. *)
Theorem full_server_accepts_after_disconnect CHECK_exits uv uv' w client
    (i : nat) status blk junk :
  registry_ok w -> num_clients (srv w) = MAX_CLIENTS ->
  registry w !! i = Some client ->
  blk <> NULL -> heap w !! blk = None -> r_accept uv' = 0 ->
  outcome
    (fun w' =>
       registry_ok w' /\
       registry w' = registry (unregister client w) ++ [blk] /\
       num_clients (srv w') = MAX_CLIENTS /\
       (client ∉ registry w'))
    (fun _ => may_exit CHECK_exits)
    ((disconnect CHECK_exits uv client >>
      onconnection CHECK_exits uv' (srv_ptr w) status blk junk) w).
Proof.
  intros Hok Hfull Hi Hblk Hheap Hacc.
  destruct (ok_slot w Hok i client Hi) as (c & Hc & _).
  set (w1 := unregister client w).
  assert (Hok1 : registry_ok w1) by by eapply unregister_ok.
  assert (Hn1 : num_clients (srv w1) = MAX_CLIENTS - 1).
  { subst w1. rewrite (unregister_num_clients w client i) by done. lia. }
  assert (Hheap1 : heap w1 !! blk = None)
    by by apply (unregister_heap_dom w client i).
  assert (Hfresh1 : blk ∉ registry w1)
    by by apply fresh_block_not_registered.
  assert (Hout : client ∉ registry w1).
  { subst w1. rewrite (unregister_elem_of w client i) by done. tauto. }
  assert (Hne : client <> blk) by (intros ->; by rewrite Hheap in Hc).
  destruct (unregister_frame w client) as (Hptr & _).
  pose proof (ok_count w1 Hok1) as Hcount.
  pose proof (ok_length w1 Hok1) as Hlen.
  unfold bind. rewrite (disconnect_eq CHECK_exits uv w client i c) by done.
  fold w1. unfold finish.
  destruct (disconnect_run CHECK_exits uv client c w1) as [[] e0] eqn:He0;
    simpl.
  { eapply disconnect_run_exit. by rewrite He0. }
  rewrite <- Hptr. fold w1.
  change (srv_ptr w1) with (srv_ptr (extends w1 e0)).
  rewrite onconnection_accepted
    by (autorewrite with world;
        first [done | unfold MAX_CLIENTS in *; lia]).
  apply outcome_then_run; [apply entry_run_exit|]. intros _.
  apply outcome_then_run; [apply accept_run_exit|]. intros _.
  rewrite !heap_extends.
  pose proof (register_after_malloc (extends w1 e0) blk junk
                (entry_run CHECK_exits status).2
                (accept_run CHECK_exits uv' blk).2) as Hreg.
  rewrite heap_extends in Hreg. rewrite !heap_extends in Hreg.
  rewrite Hreg. clear Hreg.
  apply outcome_finish; [|apply connected_run_exit].
  intros _. autorewrite with world.
  assert (Hok2 : registry_ok (register blk w1))
    by (apply register_ok; (done || (unfold MAX_CLIENTS in *; lia))).
  assert (Hreg2 : registry (register blk w1) = registry w1 ++ [blk])
    by (apply register_registry; (done || (unfold MAX_CLIENTS in *; lia))).
  split_and!.
  - apply registry_ok_extends. apply registry_ok_extends.
    change (register blk (extends w1 e0)) with (extends (register blk w1) e0).
    by apply registry_ok_extends.
  - exact Hreg2.
  - simpl. lia.
  - change (client ∉ registry (register blk w1)). rewrite Hreg2.
    rewrite elem_of_app, list_elem_of_singleton. tauto.
Qed.

Lemma full_server_accepts_after_disconnect_witness :
  outcome
    (fun w' => registry w' = [5; 2; 3; 4; 6] /\ num_clients (srv w') = 5)
    (fun _ => may_exit Sample.returns)
    ((disconnect Sample.returns Sample.uv_ok 1 >>
      onconnection Sample.returns Sample.uv_ok (srv_ptr Sample.full) 0 6
        Sample.junk) Sample.full).
Proof.
  eapply outcome_weaken;
    [| |apply (full_server_accepts_after_disconnect Sample.returns
                 Sample.uv_ok Sample.uv_ok Sample.full 1 0 0 6 Sample.junk)].
  - intros w' (_ & Hreg & Hnum & _). split; [exact Hreg|exact Hnum].
  - intros w' H. exact H.
  - split; try done.
    intros j a Hj.
    destruct j as [|[|[|[|[|j]]]]]; simpl in Hj; inversion Hj; subst;
      eexists; (split; [reflexivity|done]).
  - reflexivity.
  - reflexivity.
  - discriminate.
  - reflexivity.
  - reflexivity.
Defined.

(** ** The order of the effects of an accepted connection *)

(** The records handed to the connect hook, in order. *)
Definition connect_hooks (evs : list event) : list Z :=
  omap (fun e => match e with
                 | Hook_connected c _ => Some c
                 | _ => None
                 end) evs.

(** The handles whose reads were started, in order. *)
Definition read_starts (evs : list event) : list Z :=
  omap (fun e => match e with Uv_read_start h _ => Some h | _ => None end)
    evs.

(** Events of [onconnection] up to the accept. *)
Definition accept_event (e : event) : Prop :=
  match e with
  | Log _ _ _ | Check_failed _ _ | Uv_tcp_init _ _ | Uv_accept _ _ => True
  | _ => False
  end.

Lemma connect_hooks_app a b :
  connect_hooks (a ++ b) = connect_hooks a ++ connect_hooks b.
Proof. apply omap_app. Qed.

Lemma read_starts_app a b :
  read_starts (a ++ b) = read_starts a ++ read_starts b.
Proof. apply omap_app. Qed.

Lemma accept_event_no_hook evs :
  Forall accept_event evs -> connect_hooks evs = [] /\ read_starts evs = [].
Proof.
  induction 1 as [|e evs He _ [IH1 IH2]]; [done|].
  destruct e; try done.
Qed.

Lemma app_event_no_connect evs :
  Forall app_event evs -> connect_hooks evs = [] /\ read_starts evs = [].
Proof.
  induction 1 as [|e evs He _ [IH1 IH2]]; [done|].
  destruct e; try done.
Qed.

Lemma check_run_accept_event CHECK_exits r msg :
  Forall accept_event (check_run CHECK_exits r msg).2.
Proof. unfold check_run. case_decide; by repeat constructor. Qed.

Lemma entry_run_accept_event CHECK_exits status :
  Forall accept_event (entry_run CHECK_exits status).2.
Proof.
  unfold entry_run. apply seq_run_events_Forall; [|by repeat constructor].
  apply check_run_accept_event.
Qed.

Lemma accept_run_accept_event CHECK_exits uv blk :
  Forall accept_event (accept_run CHECK_exits uv blk).2.
Proof.
  unfold accept_run. apply seq_run_events_Forall; [|by repeat constructor].
  apply seq_run_events_Forall; [by repeat constructor|].
  apply check_run_accept_event.
Qed.

(** What [onconnection] adds to the trace once the record is registered,
    when it returns. *)
Lemma connected_run_shape CHECK_exits uv client c w1 :
  let hook := app_run CHECK_exits uv (registry w1)
                (onclient_connected (srv w1) client c
                   (num_clients (srv w1))) in
  let chk := check_run CHECK_exits (r_read_start uv) "uv_read_start" in
  (connected_run CHECK_exits uv client c w1).1 = false ->
  (connected_run CHECK_exits uv client c w1).2 =
    Hook_connected client (num_clients (srv w1))
    :: hook.2 ++ Uv_read_start client (r_read_start uv) :: chk.2.
Proof.
  intros hook chk. unfold connected_run, call_connected_run.
  fold hook chk. unfold seq_run. simpl.
  destruct hook as [[] he]; simpl; [done|].
  destruct chk as [[] ce]; simpl; [done|]. intros _.
  by rewrite <- app_assoc.
Qed.

(** X12.  A connection that finds room and whose accept succeeds is registered
    before the application hears of it.  When [onconnection] returns, the
    record is the last live entry of the array, with the count as its slot,
    the value of [ids] as its identity and the server in its [server]
    field; the count and [ids] are one further; no other record has
    changed; the registry is well formed.  The connect hook was called
    once, after the registration, with the new total, so that what it
    broadcasts reaches the newcomer too; and the reads of the connection
    were started once, after the hook had returned. *)
Theorem accepted_connection_registered CHECK_exits uv w status blk junk :
  registry_ok w -> num_clients (srv w) < MAX_CLIENTS ->
  blk <> NULL -> heap w !! blk = None -> r_accept uv = 0 ->
  let n := num_clients (srv w) in
  let c := Client (ids (srv w)) n (srv_ptr w) in
  outcome
    (fun w' =>
       exists pre hook_evs post,
         w' = extends (register blk w)
                (pre ++ Hook_connected blk (n + 1) :: hook_evs ++ post) /\
         connect_hooks pre = [] /\ read_starts pre = [] /\
         hook_evs =
           (app_run CHECK_exits uv (registry w ++ [blk])
              (onclient_connected (srv w) blk c (n + 1))).2 /\
         connect_hooks hook_evs = [] /\ read_starts hook_evs = [] /\
         connect_hooks post = [] /\ read_starts post = [blk] /\
         registry w' = registry w ++ [blk] /\
         heap w' = <[blk := c]> (heap w) /\
         num_clients (srv w') = n + 1 /\
         ids (srv w') = int_wrap (ids (srv w) + 1) /\
         registry_ok w')
    (fun _ => may_exit CHECK_exits)
    (onconnection CHECK_exits uv (srv_ptr w) status blk junk w).
Proof.
  intros Hok Hn Hblk Hheap Hacc n c.
  pose proof (ok_count w Hok) as Hcount. pose proof (ok_length w Hok) as Hlen.
  assert (Hfresh : blk ∉ registry w) by by apply fresh_block_not_registered.
  assert (Hreg : registry (register blk w) = registry w ++ [blk])
    by (apply register_registry; (done || lia)).
  assert (Hok1 : registry_ok (register blk w)) by by apply register_ok.
  rewrite onconnection_accepted by (done || lia).
  apply outcome_then_run; [apply entry_run_exit|]. intros _.
  apply outcome_then_run; [apply accept_run_exit|]. intros _.
  rewrite (register_after_malloc w blk junk). fold n c.
  set (pre := (entry_run CHECK_exits status).2 ++
              (accept_run CHECK_exits uv blk).2).
  apply outcome_finish; [|apply connected_run_exit].
  intros Hx. rewrite (connected_run_shape _ _ _ _ _ Hx).
  autorewrite with world. rewrite Hreg.
  change (num_clients (srv (register blk w))) with (n + 1).
  change (onclient_connected (srv (register blk w)))
    with (onclient_connected (srv w)).
  set (hook := app_run CHECK_exits uv (registry w ++ [blk])
                 (onclient_connected (srv w) blk c (n + 1))).
  set (chk := check_run CHECK_exits (r_read_start uv) "uv_read_start").
  assert (Hpre : Forall accept_event pre).
  { apply Forall_app. split;
      [apply entry_run_accept_event|apply accept_run_accept_event]. }
  assert (Hhook : Forall app_event hook.2) by apply app_run_app_event.
  assert (Hchk : Forall accept_event chk.2) by apply check_run_accept_event.
  exists pre, hook.2, (Uv_read_start blk (r_read_start uv) :: chk.2).
  rewrite extends_extends. split_and!; try done.
  - apply (accept_event_no_hook _ Hpre).
  - apply (accept_event_no_hook _ Hpre).
  - apply (app_event_no_connect _ Hhook).
  - apply (app_event_no_connect _ Hhook).
  - change (connect_hooks chk.2 = []). apply (accept_event_no_hook _ Hchk).
  - change (blk :: read_starts chk.2 = [blk]).
    by rewrite (proj2 (accept_event_no_hook _ Hchk)).
  - by apply registry_ok_extends.
Qed.

Lemma accepted_connection_registered_witness :
  outcome
    (fun w' =>
       registry w' = [1; 2; 3; 4] /\
       heap w' !! 4 = Some (Client 3 3 1000) /\
       num_clients (srv w') = 4 /\ ids (srv w') = 4 /\
       connect_hooks (trace w') = [4] /\ read_starts (trace w') = [4])
    (fun _ => may_exit Sample.returns)
    (onconnection Sample.returns Sample.uv_ok (srv_ptr Sample.three) 0 4
       Sample.junk Sample.three).
Proof.
  eapply outcome_weaken;
    [| |apply (accepted_connection_registered Sample.returns Sample.uv_ok
                 Sample.three 0 4 Sample.junk)].
  - intros w' (pre & hook_evs & post & -> & Hp1 & Hp2 & _ & Hh1 & Hh2
               & Hq1 & Hq2 & Hreg & Hheap & Hnum & Hids & _).
    split; [exact Hreg|]. split; [by rewrite Hheap|].
    split; [exact Hnum|]. split; [exact Hids|].
    rewrite trace_extends.
    change (trace (register 4 Sample.three)) with (@nil event).
    rewrite app_nil_l, connect_hooks_app, read_starts_app, Hp1, Hp2.
    change (4 :: connect_hooks (hook_evs ++ post) = [4] /\
            read_starts (hook_evs ++ post) = [4]).
    by rewrite connect_hooks_app, read_starts_app, Hh1, Hh2, Hq1, Hq2.
  - intros w' H. exact H.
  - exact Sample.three_ok.
  - reflexivity.
  - discriminate.
  - reflexivity.
  - reflexivity.
Defined.

(** ** The buffer of every read *)

(** The world once [alloc_cb] has run: the buffer at [p] is allocated, or
    the failure of the allocation is logged. *)
Definition allocated (p : Z) (junk : string) (w : world) : world :=
  if decide (p = NULL)
  then extends w [Log Error "alloc_cb buffer didn't properly initialize" []]
  else set_bufs (<[p := junk]> (bufs w)) w.

Lemma alloc_cb_done size p junk w :
  alloc_cb size p junk w = Done (Buf p size) (allocated p junk w).
Proof.
  unfold alloc_cb, allocated, bind, log_error, emit, ret.
  by case_decide.
Qed.

Lemma allocated_frame p junk w :
  srv (allocated p junk w) = srv w /\ heap (allocated p junk w) = heap w /\
  srv_ptr (allocated p junk w) = srv_ptr w /\
  buffer_held p (allocated p junk w) /\
  (bufs w !! p = None -> bufs (release p (allocated p junk w)) = bufs w).
Proof.
  unfold allocated, release, buffer_held. case_decide as Hp.
  - split_and!; try done. by left.
  - split_and!; try done.
    + right. simpl. rewrite lookup_insert_eq. by eexists.
    + intros Hfree. simpl. by apply delete_insert_id.
Qed.

Lemma registry_ok_allocated p junk w :
  registry_ok (allocated p junk w) <-> registry_ok w.
Proof.
  unfold allocated. case_decide; [apply registry_ok_extends|].
  split; intros [? ? ? ?]; by split.
Qed.

(** A read error, once reported, is handled as an end of file. *)
Lemma read_cb_error CHECK_exits uv w stream c buf nread :
  heap w !! stream = Some c -> nread < 0 -> nread <> UV_EOF ->
  read_cb CHECK_exits uv stream nread buf w =
  then_run (check_run CHECK_exits nread "read_cb") w
    (read_cb CHECK_exits uv stream UV_EOF buf).
Proof.
  intros Hc Hneg Hneof. unfold read_cb.
  erewrite bind_done by by apply load_client_done.
  rewrite (decide_True (P := nread < 0)) by done.
  rewrite (decide_True (P := nread <> UV_EOF)) by done.
  unfold bind at 1. unfold bind at 1. rewrite CHECK_check_run.
  unfold then_run, finish.
  destruct (check_run CHECK_exits nread "read_cb") as [[] e]; simpl; [done|].
  erewrite (bind_done (load_client stream))
    by by apply (load_client_done _ _ (extends w _)).
  reflexivity.
Qed.

(** What an end of file leaves. *)
Lemma read_cb_eof_outcome CHECK_exits uv w stream (i : nat) buf :
  registry_ok w -> registry w !! i = Some stream ->
  buffer_held (base buf) w ->
  outcome
    (fun w' =>
       bufs w' = bufs (release (base buf) w) /\ registry_ok w' /\
       (stream ∉ registry w') /\
       num_clients (srv w') = num_clients (srv w) - 1)
    (fun _ => may_exit CHECK_exits)
    (read_cb CHECK_exits uv stream UV_EOF buf w).
Proof.
  intros Hok Hi Hbuf.
  destruct (ok_slot w Hok i stream Hi) as (c & Hc & _).
  rewrite (read_cb_eof CHECK_exits uv w stream i c buf) by done. cbv zeta.
  destruct (release_frame (base buf) w) as (Hs & Hh & Hp & Ht).
  assert (Hok2 : registry_ok (release (base buf) w))
    by by apply registry_ok_release.
  assert (Hi2 : registry (release (base buf) w) !! i = Some stream)
    by (unfold registry; by rewrite Hs).
  set (w2 := unregister stream (release (base buf) w)).
  apply outcome_finish.
  - intros _. autorewrite with world. split_and!.
    + subst w2. by destruct (unregister_frame (release (base buf) w) stream)
        as (_ & -> & _).
    + apply registry_ok_extends. by eapply unregister_ok.
    + subst w2. rewrite (unregister_elem_of _ stream i) by done. tauto.
    + subst w2. rewrite (unregister_num_clients _ stream i) by done.
      by rewrite Hs.
  - intros [H|H]%seq_run_exit; [done|]. by eapply disconnect_run_exit.
Qed.

(** X13.  With the message hook of the file, every read event on a live
    connection gives back the buffer [alloc_cb] allocated for it, whatever
    the event is: a message (the hook answers it and the responder releases
    the buffer), a read of zero bytes, an end of file or an error.  When
    [read_cb] returns, the buffers are the ones there were before
    [alloc_cb] ran, and the registry is well formed; a read that is not
    negative leaves the server and the records untouched, a negative one
    removes the connection from the registry. *)
Theorem read_event_releases_buffer CHECK_exits uv w stream (i : nat) size p
    junk nread :
  registry_ok w -> registry w !! i = Some stream ->
  onclient_msg (srv w) = App.onclient_msg ->
  bufs w !! p = None ->
  outcome
    (fun w' =>
       bufs w' = bufs w /\ registry_ok w' /\
       (0 <= nread -> srv w' = srv w /\ heap w' = heap w) /\
       (nread < 0 ->
        (stream ∉ registry w') /\
        num_clients (srv w') = num_clients (srv w) - 1))
    (fun _ => may_exit CHECK_exits)
    ((do b <- alloc_cb size p junk;
      read_cb CHECK_exits uv stream nread b) w).
Proof.
  intros Hok Hi Hhook Hfree.
  destruct (ok_slot w Hok i stream Hi) as (c & Hc & _ & Hsrv).
  erewrite bind_done by apply alloc_cb_done.
  destruct (allocated_frame p junk w) as (Hs & Hh & Hp & Hheld & Hbufs).
  specialize (Hbufs Hfree).
  set (wa := allocated p junk w) in *.
  assert (Hoka : registry_ok wa) by by apply registry_ok_allocated.
  assert (Hia : registry wa !! i = Some stream)
    by (unfold registry; by rewrite Hs).
  assert (Hca : heap wa !! stream = Some c) by by rewrite Hh.
  destruct (release_frame p wa) as (Hrs & Hrh & Hrp & Hrt).
  assert (Hokr : registry_ok (release p wa)) by by apply registry_ok_release.
  destruct (Z.lt_trichotomy nread 0) as [Hneg|[->|Hpos]].
  - assert (Heof : forall e,
      outcome
        (fun w' =>
           bufs w' = bufs w /\ registry_ok w' /\
           (0 <= nread -> srv w' = srv w /\ heap w' = heap w) /\
           (nread < 0 ->
            (stream ∉ registry w') /\
            num_clients (srv w') = num_clients (srv w) - 1))
        (fun _ => may_exit CHECK_exits)
        (read_cb CHECK_exits uv stream UV_EOF (Buf p size) (extends wa e))).
    { intros e. eapply outcome_weaken;
        [| |apply (read_cb_eof_outcome CHECK_exits uv (extends wa e) stream i
                     (Buf p size))].
      - intros w' (Hb & Hok' & Hout & Hnum). split_and!; try done.
        + rewrite Hb. cbn [base]. rewrite release_extends.
          by autorewrite with world.
        + lia.
        + intros _. split; [done|]. rewrite Hnum. autorewrite with world.
          by rewrite Hs.
      - done.
      - by apply registry_ok_extends.
      - done.
      - destruct Hheld as [->|Hheld]; [by left|by right]. }
    destruct (decide (nread = UV_EOF)) as [->|Hneof].
    + specialize (Heof []). by rewrite extends_nil in Heof.
    + rewrite (read_cb_error CHECK_exits uv wa stream c) by done.
      apply outcome_then_run; [apply check_run_exit|]. intros _. apply Heof.
  - unfold read_cb. erewrite bind_done by by apply load_client_done.
    rewrite decide_False by lia. rewrite decide_True by done.
    cbn [base]. rewrite free_done by done. simpl.
    split_and!; [done| |intros _; by rewrite Hrs, Hrh, Hs, Hh|lia].
    by apply registry_ok_extends.
  - erewrite (read_cb_logs_and_responds CHECK_exits uv wa stream c nread
                (Buf p size)); try done.
    + simpl.
      split_and!;
        [done| |intros _; cbn [base]; by rewrite Hrs, Hrh, Hs, Hh|lia].
      by apply registry_ok_extends.
    + by rewrite Hp.
    + rewrite Hs, Hhook. reflexivity.
Qed.

Lemma read_event_releases_buffer_witness :
  outcome
    (fun w' =>
       bufs w' = bufs Sample.three /\ registry_ok w' /\
       (2 ∉ registry w') /\ num_clients (srv w') = 2)
    (fun _ => may_exit Sample.returns)
    ((do b <- alloc_cb 65536 600 "old";
      read_cb Sample.returns Sample.uv_ok 2 (-104) b) Sample.three).
Proof.
  eapply outcome_weaken;
    [| |apply (read_event_releases_buffer Sample.returns Sample.uv_ok
                 Sample.three 2 1 65536 600 "old" (-104))].
  - intros w' (Hb & Hok & _ & Hneg).
    destruct Hneg as [Hout Hnum]; [lia|].
    split; [exact Hb|]. split; [exact Hok|]. split; [exact Hout|exact Hnum].
  - intros w' H. exact H.
  - exact Sample.three_ok.
  - reflexivity.
  - reflexivity.
  - reflexivity.
Defined.

(** ** The teardown *)

(** The end of a computation of the process that only adds to the log. *)
Definition lfinish (x : bool * list loop_event) (l : process)
    : loop_result unit :=
  if x.1 then LExited (Process (mem l) (done_so_far l ++ x.2))
  else LDone tt (Process (mem l) (done_so_far l ++ x.2)).

(** The effects of a run of the callbacks, as entries of the log. *)
Definition effects (x : bool * list event) : bool * list loop_event :=
  (x.1, map Effect x.2).

Definition lseq_run (a b : bool * list loop_event) : bool * list loop_event :=
  if a.1 then a else (b.1, a.2 ++ b.2).

Lemma effects_seq_run a b :
  effects (seq_run a b) = lseq_run (effects a) (effects b).
Proof.
  unfold effects, seq_run, lseq_run. destruct a as [[] ea]; simpl; [done|].
  by rewrite map_app.
Qed.

Lemma set_trace_extends w evs : set_trace (trace w) (extends w evs) = w.
Proof. by destruct w. Qed.

Lemma added_extends w w1 evs :
  trace w1 = trace w -> added w (extends w1 evs) = map Effect evs.
Proof.
  intros Ht. unfold added. simpl. rewrite Ht. by rewrite drop_app_length.
Qed.

(** A computation that leaves the world [w1], whose trace is the one it
    started with, and the events [x.2]. *)
Lemma lift_finish_at (c : M unit) x w1 l :
  c (mem l) = finish x w1 -> trace w1 = trace (mem l) ->
  lift c l =
  if x.1 then LExited (Process w1 (done_so_far l ++ map Effect x.2))
  else LDone tt (Process w1 (done_so_far l ++ map Effect x.2)).
Proof.
  intros Hc Ht. unfold lift. cbv zeta. rewrite Hc. unfold finish.
  destruct x as [[] evs]; simpl;
    rewrite <- Ht, set_trace_extends, (added_extends _ _ _ Ht); done.
Qed.

Lemma lift_finish (c : M unit) x l :
  c (mem l) = finish x (mem l) -> lift c l = lfinish (effects x) l.
Proof. intros Hc. by rewrite (lift_finish_at c x (mem l)). Qed.

Lemma lift_done {A : Type} (c : M A) a l :
  c (mem l) = Done a (mem l) -> lift c l = LDone a l.
Proof.
  intros Hc. unfold lift. cbv zeta. rewrite Hc.
  unfold added. rewrite drop_all. simpl. rewrite app_nil_r.
  destruct l as [w d]. simpl. by destruct w.
Qed.

Lemma lbind_done {A B : Type} (c : L A) (k : A -> L B) l a l' :
  c l = LDone a l' -> lbind c k l = k a l'.
Proof. intros H. unfold lbind. by rewrite H. Qed.

Lemma lfinish_seq (c : L unit) (k : L unit) a b l :
  c l = lfinish a l ->
  (a.1 = false ->
   k (Process (mem l) (done_so_far l ++ a.2)) =
   lfinish b (Process (mem l) (done_so_far l ++ a.2))) ->
  (c >> k)%loop l = lfinish (lseq_run a b) l.
Proof.
  intros Hc Hk. unfold lbind. rewrite Hc. unfold lfinish, lseq_run.
  destruct a as [[] ea]; simpl in *; [done|].
  rewrite Hk by done. unfold lfinish. simpl. rewrite <- !app_assoc.
  by destruct b as [[] eb].
Qed.


Section Teardown.

Variable CHECK_exits : Z -> string -> bool.

(** What the loop of [luv_server_destroy] over the entries [l] adds to the
    log, and whether [CHECK] ends the process on the way. *)
Fixpoint destroy_run (shutdown : Z -> Z) (l : list Z) : bool * list event :=
  match l with
  | [] => (false, [])
  | client :: l' =>
      seq_run
        (seq_run (false, [Uv_shutdown client (shutdown client)])
           (check_run CHECK_exits (shutdown client) "uv_shutdown"))
        (destroy_run shutdown l')
  end.

Lemma destroy_loop_run shutdown self n : forall i l,
  self = srv_ptr (mem l) ->
  length (clients (srv (mem l))) = Z.to_nat MAX_CLIENTS ->
  0 <= i -> i + Z.of_nat n <= MAX_CLIENTS ->
  destroy_loop CHECK_exits shutdown self i n l =
  lfinish
    (effects
       (destroy_run shutdown
          (take n (drop (Z.to_nat i) (clients (srv (mem l))))))) l.
Proof.
  induction n as [|n IH]; intros i l Hself Hlen Hi Hn.
  - simpl. unfold lfinish, lret. simpl. rewrite app_nil_r. by destruct l.
  - unfold MAX_CLIENTS in *.
    destruct (lookup_lt_is_Some_2 (clients (srv (mem l))) (Z.to_nat i))
      as [c Hc]; [lia|].
    rewrite (drop_S _ _ _ Hc). simpl take. cbn [destroy_run].
    assert (Hnext : Z.to_nat (i + 1) = S (Z.to_nat i)) by lia.
    assert (Hwrap : int_wrap (i + 1) = i + 1)
      by (apply int_wrap_small; unfold INT_MIN, INT_MAX; lia).
    cbn [destroy_loop].
    erewrite lbind_done by (apply lift_done; by apply load_server_done).
    erewrite lbind_done.
    2:{ apply lift_done. unfold array_get.
        rewrite decide_True by (unfold MAX_CLIENTS; lia). by rewrite Hc. }
    rewrite effects_seq_run. apply lfinish_seq.
    + rewrite effects_seq_run. apply lfinish_seq.
      * apply lift_finish. apply emit_run.
      * intros _. apply lift_finish. apply CHECK_check_run.
    + intros _. rewrite Hwrap.
      rewrite (IH (i + 1)); [|done|done|lia|lia]. simpl mem.
      by rewrite Hnext.
Qed.

Lemma luv_server_destroy_run shutdown l :
  length (clients (srv (mem l))) = Z.to_nat MAX_CLIENTS ->
  num_clients (srv (mem l)) <= MAX_CLIENTS ->
  luv_server_destroy CHECK_exits shutdown (srv_ptr (mem l)) l =
  lfinish
    (lseq_run (effects (destroy_run shutdown (registry (mem l))))
       (false, [Uv_close (srv_ptr (mem l)) false])) l.
Proof.
  intros Hlen Hn. unfold luv_server_destroy.
  erewrite lbind_done by (apply lift_done; by apply load_server_done).
  apply lfinish_seq.
  - rewrite destroy_loop_run;
      [|done|done|lia|unfold MAX_CLIENTS in *; lia].
    unfold registry. by rewrite drop_0.
  - intros _. reflexivity.
Qed.

(** Events of the loop of [luv_server_destroy]. *)
Definition shutdown_event (e : event) : Prop :=
  match e with
  | Uv_shutdown _ _ | Check_failed _ _ => True
  | _ => False
  end.

Lemma destroy_run_shape shutdown l :
  let run := destroy_run shutdown l in
  shutdowns_of run.2 `prefix_of` l /\
  (run.1 = false -> shutdowns_of run.2 = l) /\
  (run.1 = true <->
   exists h, h ∈ l /\ fatal CHECK_exits (shutdown h) "uv_shutdown" = true) /\
  Forall shutdown_event run.2.
Proof.
  induction l as [|c l (IHp & IHa & IHx & IHe)]; cbv zeta.
  - split_and!; try done. split; [done|]. by intros (h & ?%elem_of_nil & _).
  - cbn [destroy_run]. unfold check_run.
    destruct (decide (shutdown c = 0)) as [Hr|Hr].
    + unfold seq_run. cbn [fst snd app].
      change (shutdowns_of (Uv_shutdown c (shutdown c) :: ?evs))
        with (c :: shutdowns_of evs).
      split_and!.
      * by apply prefix_cons.
      * intros Hx. by rewrite IHa.
      * rewrite IHx. split.
        -- intros (h & Hh & Hf). exists h. split; [by right|done].
        -- intros (h & [->|Hh]%elem_of_cons & Hf).
           ++ unfold fatal in Hf. by rewrite (bool_decide_eq_true_2 _ Hr) in Hf.
           ++ by exists h.
      * by constructor.
    + destruct (CHECK_exits (shutdown c) "uv_shutdown") eqn:Hx;
        unfold seq_run; cbn [fst snd app].
      * change (shutdowns_of [Uv_shutdown c (shutdown c);
                              Check_failed "uv_shutdown" (shutdown c)])
          with [c].
        split_and!.
        -- apply prefix_cons, prefix_nil.
        -- done.
        -- split; [|done]. intros _. exists c. split; [by left|].
           unfold fatal. by rewrite (bool_decide_eq_false_2 _ Hr), Hx.
        -- by repeat constructor.
      * change (shutdowns_of (Uv_shutdown c (shutdown c)
                              :: Check_failed "uv_shutdown" (shutdown c)
                              :: ?evs))
          with (c :: shutdowns_of evs).
        split_and!.
        -- by apply prefix_cons.
        -- intros Hx'. by rewrite IHa.
        -- rewrite IHx. split.
           ++ intros (h & Hh & Hf). exists h. split; [by right|done].
           ++ intros (h & [->|Hh]%elem_of_cons & Hf).
              ** unfold fatal in Hf.
                 by rewrite (bool_decide_eq_false_2 _ Hr), Hx in Hf.
              ** by exists h.
        -- by repeat constructor.
Qed.

(** Where the loop stops: at the first entry whose request fails with
    [CHECK] ending the process, if there is one. *)
Lemma destroy_run_stops shutdown l :
  let run := destroy_run shutdown l in
  let is_fatal h := fatal CHECK_exits (shutdown h) "uv_shutdown" in
  (forall h r, Uv_shutdown h r ∈ run.2 -> r = shutdown h) /\
  if run.1
  then exists before h after,
         l = before ++ h :: after /\ is_fatal h = true /\
         (forall a, a ∈ before -> is_fatal a = false) /\
         shutdowns_of run.2 = before ++ [h]
  else (forall a, a ∈ l -> is_fatal a = false) /\ shutdowns_of run.2 = l.
Proof.
  induction l as [|c l [IHr IH]]; cbv zeta.
  - split; [by intros ?? ?%elem_of_nil|]. simpl.
    split; [by intros ? ?%elem_of_nil|done].
  - cbv zeta in IH. cbn [destroy_run].
    set (rest := destroy_run shutdown l) in *.
    destruct (check_run_cases CHECK_exits (shutdown c) "uv_shutdown")
      as [[-> Hf]|[[-> Hf]|[-> Hf]]]; unfold seq_run; cbn [fst snd app].
    + split.
      * intros h r [Heq|Hin]%elem_of_cons; [|by apply IHr].
        by injection Heq as -> ->.
      * change (shutdowns_of (Uv_shutdown c (shutdown c) :: rest.2))
          with (c :: shutdowns_of rest.2).
        destruct rest.1.
        -- destruct IH as (before & h & after & -> & Hh & Hb & ->).
           exists (c :: before), h, after. split_and!; try done.
           intros a [->|Ha]%elem_of_cons; [done|by apply Hb].
        -- destruct IH as [Hb ->]. split; [|done].
           intros a [->|Ha]%elem_of_cons; [done|by apply Hb].
    + split.
      * intros h r [Heq|[Heq|Hin]%elem_of_cons]%elem_of_cons;
          [|done|by apply IHr].
        by injection Heq as -> ->.
      * change (shutdowns_of (Uv_shutdown c (shutdown c)
                              :: Check_failed "uv_shutdown" (shutdown c)
                              :: rest.2))
          with (c :: shutdowns_of rest.2).
        destruct rest.1.
        -- destruct IH as (before & h & after & -> & Hh & Hb & ->).
           exists (c :: before), h, after. split_and!; try done.
           intros a [->|Ha]%elem_of_cons; [done|by apply Hb].
        -- destruct IH as [Hb ->]. split; [|done].
           intros a [->|Ha]%elem_of_cons; [done|by apply Hb].
    + split.
      * intros h r [Heq|[Heq|Hin%elem_of_nil]%elem_of_cons]%elem_of_cons;
          [|done|done].
        by injection Heq as -> ->.
      * exists [], c, l. split_and!; try done. by intros a ?%elem_of_nil.
Qed.

(** X14.  On a server whose count is within its array, [luv_server_destroy]
    requests the shutdown of the live records in the order of the array,
    one request each, whose result goes to [CHECK].  When no failure is
    fatal, every live record gets its request and the listening handle is
    closed after the last of them, without a close callback.  Otherwise the
    request whose failure [CHECK] takes as fatal is the last one: the
    records [before] it got their request, the records [after] it get none,
    and the listening handle is not closed.  In any case the world is left
    as it is: the count is not reset and the array still holds every
    record. *)
Theorem luv_server_destroy_fan_out shutdown l :
  length (clients (srv (mem l))) = Z.to_nat MAX_CLIENTS ->
  num_clients (srv (mem l)) <= MAX_CLIENTS ->
  let is_fatal h := fatal CHECK_exits (shutdown h) "uv_shutdown" in
  exists evs,
    Forall shutdown_event evs /\
    (forall h r, Uv_shutdown h r ∈ evs -> r = shutdown h) /\
    (luv_server_destroy CHECK_exits shutdown (srv_ptr (mem l)) l =
       LDone tt
         (Process (mem l)
            (done_so_far l ++ map Effect evs ++
             [Uv_close (srv_ptr (mem l)) false])) /\
     (forall a, a ∈ registry (mem l) -> is_fatal a = false) /\
     shutdowns_of evs = registry (mem l)
     \/
     luv_server_destroy CHECK_exits shutdown (srv_ptr (mem l)) l =
       LExited (Process (mem l) (done_so_far l ++ map Effect evs)) /\
     exists before h after,
       registry (mem l) = before ++ h :: after /\ is_fatal h = true /\
       (forall a, a ∈ before -> is_fatal a = false) /\
       shutdowns_of evs = before ++ [h]).
Proof.
  intros Hlen Hn is_fatal.
  destruct (destroy_run_shape shutdown (registry (mem l)))
    as (_ & _ & _ & He).
  destruct (destroy_run_stops shutdown (registry (mem l))) as [Hr Hstop].
  cbv zeta in Hstop. fold is_fatal in Hstop.
  rewrite luv_server_destroy_run by done.
  set (run := destroy_run shutdown (registry (mem l))) in *.
  exists run.2. split; [exact He|]. split; [exact Hr|].
  unfold lseq_run, lfinish, effects. cbn [fst snd].
  destruct run.1; cbn [fst snd]; [right|left]; by split.
Qed.

End Teardown.

Lemma luv_server_destroy_fan_out_witness :
  exists evs,
    luv_server_destroy Sample.exits
      (fun h => if decide (h = 2) then (-107) else 0)
      (srv_ptr Sample.three) (Process Sample.three []) =
      LExited (Process Sample.three (map Effect evs)) /\
    registry Sample.three = [1; 2; 3] /\
    shutdowns_of evs = [1; 2].
Proof.
  destruct (luv_server_destroy_fan_out Sample.exits
              (fun h => if decide (h = 2) then (-107) else 0)
              (Process Sample.three []))
    as (evs & _ & _ & [(_ & Hall & _)|(Hrun & before & h & after & Hreg
                                       & Hh & Hb & Hs)]).
  - reflexivity.
  - vm_compute. discriminate.
  - assert (H2 : 2 ∈ registry Sample.three)
      by (apply list_elem_of_lookup; by exists 1%nat).
    apply Hall in H2. discriminate H2.
  - exists evs. split; [exact Hrun|]. split; [reflexivity|].
    rewrite Hs.
    destruct before as [|a [|b before]].
    + injection Hreg as <- _. discriminate Hh.
    + by injection Hreg as <- <- _.
    + injection Hreg as <- <- _.
      assert (H2 : 2 ∈ 1 :: 2 :: before) by (right; by left).
      apply Hb in H2. discriminate H2.
Defined.

(** ** The end of a connection *)

(** The world once the block of the record at [client] is released. *)
Definition released (client : Z) (w : world) : world :=
  set_heap (delete client (heap w)) w.

Lemma released_ok w client :
  registry_ok w -> client ∉ registry w -> registry_ok (released client w).
Proof.
  intros Hok Hout. split; try apply Hok.
  - simpl. apply lookup_delete_None. right. apply Hok.
  - intros i a Hi. change (registry w !! i = Some a) in Hi.
    destruct (ok_slot w Hok i a Hi) as (c & Hc & Hs). exists c.
    split; [|done]. simpl. rewrite lookup_delete_ne; [done|].
    intros ->. apply Hout. by eapply list_elem_of_lookup_2.
Qed.

Lemma free_client_done p c w :
  p <> NULL -> heap w !! p = Some c ->
  free_client p w = Done tt (extends (released p w) [Free p]).
Proof.
  intros Hp Hc. unfold free_client. rewrite decide_False by done.
  by rewrite Hc.
Qed.

(** X15.  The end of a connection, as libuv drives it: [disconnect] requests the
    shutdown, the completion of the shutdown runs [client_shutdown_cb] on
    the request, which closes the handle, and the completion of the close
    runs [close_cb] on the handle.  For a live record, the three in a row
    do not run into undefined behaviour; the block of the record is
    released once, by [close_cb], after the close of the handle was
    requested and the request released; and by then the record is no entry
    of the registry, which is well formed, so that no entry of it points to
    a released block. *)
Theorem connection_teardown CHECK_exits uv l client (i : nat) c req status :
  registry_ok (mem l) -> registry (mem l) !! i = Some client ->
  heap (mem l) !! client = Some c ->
  exists (x : bool) evs,
    let w1 := unregister client (mem l) in
    disconnect CHECK_exits uv client (mem l) = finish (x, evs) w1 /\
    (lift (disconnect CHECK_exits uv client) >>
     client_shutdown_cb req client status >>
     lift (close_cb client))%loop l =
      (if x
       then LExited (Process w1 (done_so_far l ++ map Effect evs))
       else LDone tt
              (Process (released client w1)
                 (done_so_far l ++ map Effect evs ++
                  [Uv_close client true; Effect (Free req);
                   Effect (Free client);
                   Effect (Log Info "Closed connection" [])]))) /\
    (x = false -> shutdowns_of evs = [client]) /\
    (forall p, Free p ∉ evs) /\
    registry_ok (released client w1) /\
    (client ∉ registry (released client w1)) /\
    heap (released client w1) !! client = None /\
    (forall a, a <> client ->
               heap (released client w1) !! a = heap w1 !! a).
Proof.
  intros Hok Hi Hc.
  set (w := mem l) in *. set (w1 := unregister client w).
  assert (Hok1 : registry_ok w1) by by eapply unregister_ok.
  assert (Hout : client ∉ registry w1).
  { subst w1. rewrite (unregister_elem_of w client i) by done. tauto. }
  assert (Hnn : client <> NULL).
  { eapply registry_ok_not_null; [exact Hok|].
    by eapply list_elem_of_lookup_2. }
  assert (Hc1 : is_Some (heap w1 !! client)).
  { apply not_eq_None_Some. subst w1.
    rewrite (unregister_heap_dom w client i) by done. by rewrite Hc. }
  destruct Hc1 as [c1 Hc1].
  destruct (unregister_frame w client) as (_ & _ & Ht & _).
  destruct (disconnect_run_shape CHECK_exits uv client c w1)
    as (Hshape & Hhooks & Hdown & Hnone).
  cbv zeta in Hshape, Hdown, Hnone.
  set (run := disconnect_run CHECK_exits uv client c w1) in *.
  assert (Hrun : disconnect CHECK_exits uv client w = finish run w1)
    by by apply (disconnect_eq CHECK_exits uv w client i c).
  exists run.1, run.2. cbv zeta. fold w w1.
  split_and!.
  - rewrite Hrun. by destruct run.
  - unfold lbind.
    rewrite (lift_finish_at _ run w1) by done.
    destruct run.1; [done|].
    unfold client_shutdown_cb, lbind, uv_close, log_call, free_req.
    cbn [mem done_so_far].
    rewrite (lift_finish _ (false, [Free req])) by apply emit_run.
    unfold lfinish, effects. cbn [fst snd mem done_so_far map].
    rewrite (lift_finish_at _ (false, [Free client;
                                       Log Info "Closed connection" []])
               (released client w1)).
    + cbn [fst snd map mem done_so_far]. by rewrite <- !app_assoc.
    + cbn [mem]. unfold close_cb.
      erewrite bind_done by by apply (free_client_done client c1).
      unfold log_info, emit, finish. simpl.
      unfold extends, set_trace. simpl. by rewrite <- app_assoc.
    + done.
  - intros Hx. rewrite Hshape in Hx. cbn [fst] in Hx.
    rewrite Hshape. cbn [snd].
    set (hook := app_run _ _ _ _) in *.
    destruct hook.1; [done|].
    rewrite (app_comm_cons hook.2), shutdowns_of_app, Hnone.
    exact (Hdown Hx).
  - intros p Hin. rewrite Hshape in Hin. cbn [snd] in Hin.
    set (hook := app_run _ _ _ _) in *.
    assert (Happ : Forall app_event hook.2) by apply app_run_app_event.
    rewrite Forall_forall in Happ.
    apply elem_of_cons in Hin as [Hin|Hin]; [done|].
    apply elem_of_app in Hin as [Hin|Hin]; [by apply Happ in Hin|].
    destruct hook.1; [by apply elem_of_nil in Hin|].
    apply elem_of_cons in Hin as [Hin|Hin]; [done|].
    pose proof (check_run_log_event CHECK_exits (r_shutdown uv)
                  "uv_shutdown") as Hchk.
    rewrite Forall_forall in Hchk. by apply Hchk in Hin.
  - by apply released_ok.
  - done.
  - simpl. apply lookup_delete_eq.
  - intros a Ha. simpl. by rewrite lookup_delete_ne.
Qed.

Lemma connection_teardown_witness :
  exists (x : bool) evs,
    disconnect Sample.returns Sample.uv_ok 1 Sample.three =
      finish (x, evs) (unregister 1 Sample.three) /\
    (lift (disconnect Sample.returns Sample.uv_ok 1) >>
     client_shutdown_cb 700 1 0 >>
     lift (close_cb 1))%loop (Process Sample.three []) =
      (if x
       then LExited (Process (unregister 1 Sample.three) (map Effect evs))
       else LDone tt
              (Process (released 1 (unregister 1 Sample.three))
                 (map Effect evs ++
                  [Uv_close 1 true; Effect (Free 700); Effect (Free 1);
                   Effect (Log Info "Closed connection" [])]))) /\
    registry_ok (released 1 (unregister 1 Sample.three)).
Proof.
  destruct (connection_teardown Sample.returns Sample.uv_ok
              (Process Sample.three []) 1 0 (Client 0 0 1000) 700 0)
    as (x & evs & Hd & Hrun & _ & _ & Hok & _).
  - exact Sample.three_ok.
  - reflexivity.
  - reflexivity.
  - exists x, evs. split; [exact Hd|]. split; [exact Hrun|exact Hok].
Defined.

(** ** The registry of a destroyed server *)

(** X16.  [luv_server_destroy] requests the shutdown of every live record with
    [shutdown_cb] as callback, which closes the handle with [close_cb],
    which releases the block of the record.  When no failure is fatal, the
    teardown followed by the two completions for a live record ends with
    the block of the record released while the registry is what it was
    before the teardown: it still counts the record and holds the address
    of its block. *)
Theorem destroyed_server_keeps_addresses CHECK_exits shutdown l client req
    status :
  registry_ok (mem l) -> client ∈ registry (mem l) ->
  (forall h, h ∈ registry (mem l) ->
             fatal CHECK_exits (shutdown h) "uv_shutdown" = false) ->
  exists evs,
    (luv_server_destroy CHECK_exits shutdown (srv_ptr (mem l)) >>
     shutdown_cb req client status >>
     lift (close_cb client))%loop l =
      LDone tt
        (Process (released client (mem l))
           (done_so_far l ++ map Effect evs ++
            [Uv_close (srv_ptr (mem l)) false;
             Uv_close client true; Effect (Free req);
             Effect (Free client);
             Effect (Log Info "Closed connection" [])])) /\
    shutdowns_of evs = registry (mem l) /\
    registry (released client (mem l)) = registry (mem l) /\
    num_clients (srv (released client (mem l))) =
      num_clients (srv (mem l)) /\
    client ∈ registry (released client (mem l)) /\
    heap (released client (mem l)) !! client = None.
Proof.
  intros Hok Hin Hfatal.
  destruct (destroy_run_shape CHECK_exits shutdown (registry (mem l)))
    as (_ & Hall & Hx & _).
  set (run := destroy_run CHECK_exits shutdown (registry (mem l))) in *.
  assert (Hfalse : run.1 = false).
  { destruct run.1 eqn:Hr; [|done].
    destruct (proj1 Hx eq_refl) as (h & Hh & Hf).
    by rewrite (Hfatal h Hh) in Hf. }
  assert (Hnn : client <> NULL) by by eapply registry_ok_not_null.
  apply list_elem_of_lookup in Hin as Hi. destruct Hi as [i Hi].
  destruct (ok_slot (mem l) Hok i client Hi) as (c & Hc & _).
  exists run.2. split_and!.
  - unfold lbind.
    rewrite luv_server_destroy_run by apply Hok.
    fold run. unfold lseq_run, lfinish, effects. cbn [fst snd].
    rewrite Hfalse. cbn [fst snd].
    unfold shutdown_cb, lbind, uv_close, log_call, free_req.
    cbn [mem done_so_far].
    rewrite (lift_finish _ (false, [Free req])) by apply emit_run.
    unfold lfinish, effects. cbn [fst snd mem done_so_far map].
    rewrite (lift_finish_at _ (false, [Free client;
                                       Log Info "Closed connection" []])
               (released client (mem l))).
    + cbn [fst snd map mem done_so_far]. by rewrite <- !app_assoc.
    + cbn [mem]. unfold close_cb.
      erewrite bind_done by by apply (free_client_done client c).
      unfold log_info, emit, finish. simpl.
      unfold extends, set_trace. simpl. by rewrite <- app_assoc.
    + done.
  - by apply Hall.
  - done.
  - done.
  - done.
  - simpl. apply lookup_delete_eq.
Qed.

Lemma destroyed_server_keeps_addresses_witness :
  exists evs,
    (luv_server_destroy Sample.returns (fun _ => 0) (srv_ptr Sample.three) >>
     shutdown_cb 700 2 0 >>
     lift (close_cb 2))%loop (Process Sample.three []) =
      LDone tt
        (Process (released 2 Sample.three)
           (map Effect evs ++
            [Uv_close (srv_ptr Sample.three) false;
             Uv_close 2 true; Effect (Free 700); Effect (Free 2);
             Effect (Log Info "Closed connection" [])])) /\
    shutdowns_of evs = [1; 2; 3] /\
    registry (released 2 Sample.three) = [1; 2; 3] /\
    heap (released 2 Sample.three) !! 2 = None.
Proof.
  destruct (destroyed_server_keeps_addresses Sample.returns (fun _ => 0)
              (Process Sample.three []) 2 700 0)
    as (evs & Hrun & Hall & Hreg & _ & _ & Hfree).
  - exact Sample.three_ok.
  - apply list_elem_of_lookup. by exists 1%nat.
  - intros h _. reflexivity.
  - exists evs. split; [exact Hrun|]. split; [exact Hall|].
    split; [exact Hreg|exact Hfree].
Defined.

(** ** The start *)

Section Start.

Variable CHECK_exits : Z -> string -> bool.
Variable SOMAXCONN : Z.
Variable uv : substrate.





End Start.




